(** * Meta Ads daily report: metric derivation and sorted export

    A shallow embedding of [src/main.py].  The pure core
    ([calculate_metrics], [process_creative_data], [save_to_csv] and the
    creative-meta dictionary built by [get_ad_creatives_details]) comes
    with the fragment of the Python runtime these functions rely on:
    JSON values, [dict.get], [float()], [int()], [round(x, 2)], true
    division and truthiness.  Python floats are IEEE-754 binary64 numbers,
    modelled by the Standard Library's [spec_float] at precision 53.

    The collaborators around the core — the three fetchers of the ads
    API, [send_email_with_attachments] and [main] — are embedded over
    what they talk to, made explicit: the answers of the API in the
    order of the requests, the files on disk, the clock, the mail
    server. *)

From Stdlib Require Import ZArith QArith Qabs Qpower String Ascii List Lia.
From Stdlib Require Import Floats.SpecFloat.
From stdpp Require Import base option list sorting gmap strings.

Set Warnings "-register-all".
Local Open Scope Z_scope.

(** ** Exceptions and the result monad *)

Inductive exn :=
| KeyError
| ValueError
| TypeError
| AttributeError
| OverflowError
| ZeroDivisionError
| OSError.

Inductive result (A : Type) :=
| Ok (a : A)
| Raise (e : exn).
Arguments Ok {A} a.
Arguments Raise {A} e.

#[global] Instance result_ret : MRet result := fun _ a => Ok a.
#[global] Instance result_bind : MBind result := fun _ _ f m =>
  match m with Ok a => f a | Raise e => Raise e end.
#[global] Instance result_fmap : FMap result := fun _ _ f m =>
  match m with Ok a => Ok (f a) | Raise e => Raise e end.

Definition is_ok {A} (m : result A) : bool :=
  match m with Ok _ => true | Raise _ => false end.

(** A Python [for] loop threading the variables it assigns: the body runs
    once per element, in order, and the first exception leaves the loop. *)
Fixpoint for_each {A S} (xs : list A) (body : A → S → result S) (s : S) : result S :=
  match xs with
  | [] => Ok s
  | x :: xs' => s' ← body x s; for_each xs' body s'
  end.

(** ** Python floats *)

Abbreviation float := spec_float.
Definition prec : Z := 53.
Definition emax : Z := 1024.
Definition fadd : float → float → float := SFadd prec emax.
Definition fmul : float → float → float := SFmul prec emax.
Definition fdiv : float → float → float := SFdiv prec emax.

Definition is_nan (f : float) : bool :=
  match f with S754_nan => true | _ => false end.
Definition is_finite (f : float) : bool :=
  match f with S754_zero _ | S754_finite _ _ _ => true | _ => false end.
(** [bool(f)]: every float but the two zeros is true, NaN included. *)
Definition float_truthy (f : float) : bool :=
  match f with S754_zero _ => false | _ => true end.
(** [f > 0] *)
Definition float_pos (f : float) : bool :=
  match f with S754_finite false _ _ | S754_infinity false => true | _ => false end.

(** The exact value of a float on the extended rational line; NaN has none. *)
Inductive xreal :=
| NegInf
| Fin (q : Q)
| PosInf.

Definition float_value (f : float) : option xreal :=
  match f with
  | S754_nan => None
  | S754_zero _ => Some (Fin 0%Q)
  | S754_infinity s => Some (if s then NegInf else PosInf)
  | S754_finite s m e => Some (Fin (inject_Z (cond_Zopp s (Zpos m)) * Qpower 2 e)%Q)
  end.

Definition xreal_le (x y : xreal) : Prop :=
  match x, y with
  | NegInf, _ | _, PosInf => True
  | Fin p, Fin q => (p <= q)%Q
  | _, _ => False
  end.

Definition xreal_leb (x y : xreal) : bool :=
  match x, y with
  | NegInf, _ | _, PosInf => true
  | Fin p, Fin q => Qle_bool p q
  | _, _ => false
  end.

(** [a <= b] on floats: comparison of the exact values, false as soon as
    one side is NaN. *)
Definition float_le (a b : float) : Prop :=
  match float_value a, float_value b with
  | Some x, Some y => xreal_le x y
  | _, _ => False
  end.

Definition float_leb (a b : float) : bool :=
  match float_value a, float_value b with
  | Some x, Some y => xreal_leb x y
  | _, _ => false
  end.

(** The least magnitude that rounds (to nearest, ties to even) to [2^1024],
    half an ulp above the largest double: from here on a conversion
    overflows. *)
Definition DBL_OVERFLOW : Z := 2 ^ 1024 - 2 ^ 970.

(** [float(z)] for an int [z]: correctly rounded, [OverflowError] when the
    int is too large. *)
Definition int_to_float (z : Z) : result float :=
  if Z.abs z <? DBL_OVERFLOW then Ok (binary_normalize prec emax z 0 false)
  else Raise OverflowError.

(** [a / b] on ints: the correctly rounded quotient. *)
Definition long_true_divide (a b : Z) : result float :=
  match a, b with
  | _, 0 => Raise ZeroDivisionError
  | 0, _ => Ok (S754_zero (b <? 0))
  | _, _ =>
      if DBL_OVERFLOW * Z.abs b <=? Z.abs a then Raise OverflowError
      else Ok (fdiv (S754_finite (a <? 0) (Z.to_pos (Z.abs a)) 0)
                    (S754_finite (b <? 0) (Z.to_pos (Z.abs b)) 0))
  end.

(** [x / y] on floats. *)
Definition float_div (x y : float) : result float :=
  if float_truthy y then Ok (fdiv x y) else Raise ZeroDivisionError.

(** [int(f)]: truncation towards zero. *)
Definition float_to_int (f : float) : result Z :=
  match f with
  | S754_nan => Raise ValueError
  | S754_infinity _ => Raise OverflowError
  | S754_zero _ => Ok 0
  | S754_finite s m e => Ok (cond_Zopp s (Z.shiftl (Zpos m) e))
  end.

(** The integer nearest to [n / d] for [0 <= n] and [0 < d], ties to even. *)
Definition round_half_even (n d : Z) : Z :=
  let q := n / d in
  match 2 * (n mod d) ?= d with
  | Lt => q
  | Gt => q + 1
  | Eq => if Z.even q then q else q + 1
  end.

(** The number of hundredths nearest to the magnitude of a finite float. *)
Definition hundredths (m : positive) (e : Z) : Z :=
  if 0 <=? e then Zpos m * 2 ^ e * 100
  else round_half_even (Zpos m * 100) (2 ^ (- e)).

(** [round(f, 2)]: NaN, the infinities and the zeros round to themselves;
    a finite float is rounded to the nearest hundredth (ties to even, on
    its exact value) and that decimal is read back as a double. *)
Definition float_round2 (f : float) : float :=
  match f with
  | S754_finite s m e =>
      match hundredths m e with
      | Zpos n => fdiv (S754_finite s n 0) (S754_finite false 100 0)
      | _ => S754_zero s
      end
  | _ => f
  end.

(** ** Numeric literals *)

(** Strings are taken over ASCII.  White space is what the conversions
    strip from an ASCII string: tab, line feed, vertical tab, form feed,
    carriage return and space. *)
Definition is_space (c : ascii) : bool :=
  let n := N_of_ascii c in
  ((9 <=? n) && (n <=? 13) || (n =? 32))%N.

Definition digit_of (c : ascii) : option Z :=
  let n := N_of_ascii c in
  if ((48 <=? n) && (n <=? 57))%N then Some (Z.of_N n - 48) else None.

Definition lower (c : ascii) : ascii :=
  let n := N_of_ascii c in
  if ((65 <=? n) && (n <=? 90))%N then ascii_of_N (n + 32) else c.

Fixpoint lstrip (s : list ascii) : list ascii :=
  match s with
  | c :: s' => if is_space c then lstrip s' else s
  | [] => []
  end.

Definition strip (s : list ascii) : list ascii :=
  rev (lstrip (rev (lstrip s))).

(** One or more digits, single underscores allowed between two digits
    ([digit (["_"] digit)*]).  [digits_from acc n s] continues after a
    first digit: [acc] is the value read so far and [n] the number of
    digits; it returns them with the unread rest. *)
Fixpoint digits_from (acc : Z) (n : Z) (s : list ascii) : Z * Z * list ascii :=
  match s with
  | c :: s' =>
      match digit_of c with
      | Some d => digits_from (10 * acc + d) (n + 1) s'
      | None =>
          if Ascii.eqb c "_" then
            match s' with
            | c' :: s'' =>
                match digit_of c' with
                | Some d => digits_from (10 * acc + d) (n + 1) s''
                | None => (acc, n, s)
                end
            | [] => (acc, n, s)
            end
          else (acc, n, s)
      end
  | [] => (acc, n, [])
  end.

(** [digitpart acc s] reads a digit part that extends the value [acc]. *)
Definition digitpart (acc : Z) (s : list ascii) : option (Z * Z * list ascii) :=
  match s with
  | c :: s' =>
      match digit_of c with
      | Some d => Some (digits_from (10 * acc + d) 1 s')
      | None => None
      end
  | [] => None
  end.

(** An optional sign; [true] is minus. *)
Definition sign (s : list ascii) : bool * list ascii :=
  match s with
  | c :: s' =>
      if Ascii.eqb c "-" then (true, s')
      else if Ascii.eqb c "+" then (false, s')
      else (false, s)
  | [] => (false, [])
  end.

(** The most digits [int] reads from a string
    ([sys.int_info.default_max_str_digits]). *)
Definition MAX_STR_DIGITS : Z := 4300.

(** [int(s)] for a string, base 10: surrounding white space, an optional
    sign, one digit part of at most [MAX_STR_DIGITS] digits, nothing else. *)
Definition parse_int (s : string) : result Z :=
  let '(neg, body) := sign (strip (list_ascii_of_string s)) in
  match digitpart 0 body with
  | Some (n, digits, []) =>
      if digits <=? MAX_STR_DIGITS then Ok (cond_Zopp neg n) else Raise ValueError
  | _ => Raise ValueError
  end.

(** The double nearest to [m * 10^e] for [0 <= m], with sign [neg]. *)
Definition decimal_to_float (neg : bool) (m e : Z) : float :=
  match m with
  | Zpos p =>
      if 0 <=? e then binary_normalize prec emax (cond_Zopp neg (m * 10 ^ e)) 0 false
      else fdiv (S754_finite neg p 0) (S754_finite false (Z.to_pos (10 ^ (- e))) 0)
  | _ => S754_zero neg
  end.

(** The mantissa of a float literal: [[digitpart] "." digitpart] or
    [digitpart ["."]].  Returns the digits read as one integer, the number
    of digits after the point, and the rest. *)
Definition mantissa (s : list ascii) : option (Z * Z * list ascii) :=
  match digitpart 0 s with
  | Some (i, _, rest) =>
      match rest with
      | c :: rest' =>
          if Ascii.eqb c "." then
            match digitpart i rest' with
            | Some r => Some r
            | None => Some (i, 0, rest')
            end
          else Some (i, 0, rest)
      | [] => Some (i, 0, [])
      end
  | None =>
      match s with
      | c :: rest' => if Ascii.eqb c "." then digitpart 0 rest' else None
      | [] => None
      end
  end.

(** The optional exponent part [("e" | "E") [sign] digitpart], which must
    end the literal. *)
Definition exponent (s : list ascii) : option Z :=
  match s with
  | [] => Some 0
  | c :: s' =>
      if Ascii.eqb (lower c) "e" then
        let '(neg, body) := sign s' in
        match digitpart 0 body with
        | Some (x, _, []) => Some (cond_Zopp neg x)
        | _ => None
        end
      else None
  end.

(** [float(s)] for a string: surrounding white space, an optional sign,
    then [inf], [infinity] or [nan] in any case, or a decimal literal,
    read as the nearest double ([inf] when it is too large). *)
Definition parse_float (s : string) : result float :=
  let '(neg, body) := sign (strip (list_ascii_of_string s)) in
  let word := string_of_list_ascii (map lower body) in
  if (String.eqb word "inf" || String.eqb word "infinity")%bool then Ok (S754_infinity neg)
  else if String.eqb word "nan" then Ok S754_nan
  else
    match mantissa body with
    | Some (m, frac, rest) =>
        match exponent rest with
        | Some x => Ok (decimal_to_float neg m (x - frac))
        | None => Raise ValueError
        end
    | None => Raise ValueError
    end.

(** A float written as a literal, for stating results. *)
Definition float_lit (s : string) : float :=
  match parse_float s with Ok f => f | Raise _ => S754_nan end.

(** ** JSON values and the built-ins applied to them *)

Inductive value :=
| VNone
| VBool (b : bool)
| VInt (z : Z)
| VFloat (f : float)
| VStr (s : string)
| VList (l : list value)
| VDict (d : gmap string value).

(** A Python number: the result of [/], [*] and [round]. *)
Inductive number :=
| Int (z : Z)
| Float (f : float).

(** [d.get(k, dflt)] and [d[k]] on a dict. *)
Definition dict_get {V} (d : gmap string V) (k : string) (dflt : V) : V :=
  default dflt (d !! k).

Definition dict_getitem {V} (d : gmap string V) (k : string) : result V :=
  match d !! k with
  | Some v => Ok v
  | None => Raise KeyError
  end.

(** [v.get(k, dflt)] on an arbitrary object: only a dict has the method. *)
Definition py_get (v : value) (k : string) (dflt : value) : result value :=
  match v with
  | VDict d => Ok (dict_get d k dflt)
  | _ => Raise AttributeError
  end.

(** [float(v)] *)
Definition py_float (v : value) : result float :=
  match v with
  | VFloat f => Ok f
  | VInt z => int_to_float z
  | VBool b => int_to_float (Z.b2z b)
  | VStr s => parse_float s
  | VNone | VList _ | VDict _ => Raise TypeError
  end.

(** [int(v)] *)
Definition py_int (v : value) : result Z :=
  match v with
  | VInt z => Ok z
  | VBool b => Ok (Z.b2z b)
  | VFloat f => float_to_int f
  | VStr s => parse_int s
  | VNone | VList _ | VDict _ => Raise TypeError
  end.

(** [bool(v)], the test of [if v] and of [v if ... else ...]. *)
Definition truthy (v : value) : bool :=
  match v with
  | VNone => false
  | VBool b => b
  | VInt z => negb (z =? 0)
  | VFloat f => float_truthy f
  | VStr s => negb (String.eqb s "")
  | VList l => match l with [] => false | _ => true end
  | VDict d => match map_to_list d with [] => false | _ => true end
  end.

(** What [for a in v] runs over: the items of a list, the characters of a
    string, the keys of a dict; nothing else is iterable. *)
Definition py_iter (v : value) : result (list value) :=
  match v with
  | VList l => Ok l
  | VStr s => Ok ((λ c, VStr (String c EmptyString)) <$> list_ascii_of_string s)
  | VDict d => Ok (VStr <$> (map_to_list d).*1)
  | VNone | VBool _ | VInt _ | VFloat _ => Raise TypeError
  end.

(** Lists and dicts cannot be hashed, so cannot be looked up in a set or
    used as a key. *)
Definition hashable (v : value) : bool :=
  match v with
  | VList _ | VDict _ => false
  | _ => true
  end.

Definition as_float (x : number) : result float :=
  match x with
  | Int z => int_to_float z
  | Float f => Ok f
  end.

(** [x / y] *)
Definition truediv (x y : number) : result number :=
  match x, y with
  | Int a, Int b => Float <$> long_true_divide a b
  | _, _ => a ← as_float x; b ← as_float y; Float <$> float_div a b
  end.

(** [x * y] *)
Definition mul (x y : number) : result number :=
  match x, y with
  | Int a, Int b => Ok (Int (a * b))
  | _, _ => a ← as_float x; b ← as_float y; Ok (Float (fmul a b))
  end.

(** [round(x, 2)]: an int is returned as it is. *)
Definition round2 (x : number) : number :=
  match x with
  | Int z => Int z
  | Float f => Float (float_round2 f)
  end.

(** ** Metric utilities *)

Definition conv_types : gset string :=
  {[ "purchase"; "lead"; "complete_registration"; "add_to_cart"; "initiate_checkout" ]}.

(** [t in conv_types] *)
Definition in_conv_types (t : value) : result bool :=
  match t with
  | VStr s => Ok (bool_decide (s ∈ conv_types))
  | VList _ | VDict _ => Raise TypeError
  | VNone | VBool _ | VInt _ | VFloat _ => Ok false
  end.

(** The body of the first loop of [calculate_metrics]. *)
Definition add_conversion (a : value) (conversions : Z) : result Z :=
  t ← py_get a "action_type" VNone;
  counted ← in_conv_types t;
  if counted : bool then
    v ← py_get a "value" (VInt 0);
    f ← py_float v;
    n ← float_to_int f;
    Ok (conversions + n)
  else Ok conversions.

(** The body of its second loop. *)
Definition add_conv_value (v : value) (conv_value : float) : result float :=
  t ← py_get v "action_type" VNone;
  counted ← in_conv_types t;
  if counted : bool then
    x ← py_get v "value" (VInt 0);
    f ← py_float x;
    Ok (fadd conv_value f)
  else Ok conv_value.

Definition calculate_metrics (insight : gmap string value)
  : result (Z * float * number * number) :=
  spend ← py_float (dict_get insight "spend" (VInt 0));
  let actions := dict_get insight "actions" (VList []) in
  let values := dict_get insight "action_values" (VList []) in
  acts ← py_iter actions;
  conversions ← for_each acts add_conversion 0;
  vals ← py_iter values;
  conv_value ← for_each vals add_conv_value (S754_zero false);
  cpa ← (if negb (conversions =? 0) then truediv (Float spend) (Int conversions)
         else Ok (Int 0));
  roas ← (if float_truthy spend then truediv (Float conv_value) (Float spend)
          else Ok (Int 0));
  Ok (conversions, conv_value, round2 cpa, round2 roas).

(** ** Row building *)

(** The meta dict [get_ad_creatives_details] stores for an ad whose
    [creative] object is [c]. *)
Definition creative_meta (c : gmap string value) : gmap string value :=
  {[ "creative_id" := dict_get c "id" VNone;
     "creative_name" := dict_get c "name" VNone;
     "image_hash" := dict_get c "image_hash" VNone;
     "video_id" := dict_get c "video_id" VNone;
     "thumbnail_url" := dict_get c "thumbnail_url" VNone;
     "has_video" := VBool (truthy (dict_get c "video_id" VNone));
     "has_image" := VBool (truthy (dict_get c "image_hash" VNone)) ]}.

(** One output row: the 21 keys of the dict appended to [rows]. *)
Record row := {
  date : value;
  campaign_id : value;
  campaign_name : value;
  adset_id : value;
  adset_name : value;
  ad_id : value;
  ad_name : value;
  creative_id : value;
  creative_name : value;
  creative_type : string;
  image_hash : value;
  video_id : value;
  spend : float;
  impressions : Z;
  clicks : Z;
  conversions : Z;
  conversion_value : float;
  cpa : number;
  roas : number;
  ctr : number;
  cpm : number;
}.

(** [creative_details.get(ad_id, {})]: the key must be hashable; only a
    string can be among the keys. *)
Definition lookup_creative (creative_details : gmap string (gmap string value))
    (ad_id : value) : result (gmap string value) :=
  match ad_id with
  | VStr s => Ok (dict_get creative_details s ∅)
  | VList _ | VDict _ => Raise TypeError
  | VNone | VBool _ | VInt _ | VFloat _ => Ok ∅
  end.

(** The tag computed from the creative meta [c]. *)
Definition ctype (c : gmap string value) : string :=
  if truthy (dict_get c "has_video" VNone) then "Video"
  else if truthy (dict_get c "has_image" VNone) then "Image"
  else "Unknown".

(** [round(num / impr * k, 2) if impr else 0] *)
Definition per_impression (num : number) (impr : Z) (k : Z) : result number :=
  if negb (impr =? 0) then
    q ← truediv num (Int impr);
    p ← mul q (Int k);
    Ok (round2 p)
  else Ok (Int 0).

(** The body of the loop of [process_creative_data]: the row of one
    insight record. *)
Definition build_row (creative_details : gmap string (gmap string value))
    (ins : gmap string value) : result row :=
  ad_id ← dict_getitem ins "ad_id";
  c ← lookup_creative creative_details ad_id;
  '(conv, conv_val, cpa, roas) ← calculate_metrics ins;
  impr ← py_int (dict_get ins "impressions" (VInt 0));
  clicks ← py_int (dict_get ins "clicks" (VInt 0));
  spend ← py_float (dict_get ins "spend" (VInt 0));
  ctr ← per_impression (Int clicks) impr 100;
  cpm ← per_impression (Float spend) impr 1000;
  date ← dict_getitem ins "date_start";
  campaign_id ← dict_getitem ins "campaign_id";
  campaign_name ← dict_getitem ins "campaign_name";
  adset_id ← dict_getitem ins "adset_id";
  adset_name ← dict_getitem ins "adset_name";
  ad_name ← dict_getitem ins "ad_name";
  Ok {| date := date;
        campaign_id := campaign_id;
        campaign_name := campaign_name;
        adset_id := adset_id;
        adset_name := adset_name;
        ad_id := ad_id;
        ad_name := ad_name;
        creative_id := dict_get c "creative_id" VNone;
        creative_name := dict_get c "creative_name" VNone;
        creative_type := ctype c;
        image_hash := dict_get c "image_hash" VNone;
        video_id := dict_get c "video_id" VNone;
        spend := spend;
        impressions := impr;
        clicks := clicks;
        conversions := conv;
        conversion_value := conv_val;
        cpa := cpa;
        roas := roas;
        ctr := ctr;
        cpm := cpm |}.

Definition process_creative_data (insights : list (gmap string value))
    (creative_details : gmap string (gmap string value)) : result (list row) :=
  for_each insights (λ ins rows, r ← build_row creative_details ins; Ok (rows ++ [r])) [].

(** ** Export *)

(** [a] may stand above [b] in a column sorted descending with NaN last. *)
Definition desc_na_last (a b : float) : Prop :=
  is_nan b = true ∨ float_le b a.

Definition desc_na_lastb (a b : float) : bool :=
  is_nan b || float_leb b a.

(** [DataFrame.sort_values("spend", ascending=False)] belongs to pandas,
    not to the repository, and is called with its defaults
    ([kind="quicksort"], [na_position="last"]).  It enters the model as an
    interface holding what the pandas documentation promises for that
    call: the frame keeps its rows, and they come out by descending
    [spend] with the NaN rows at the end.  The documentation calls only
    [kind="mergesort"] and [kind="stable"] stable, so nothing is promised
    on the order among rows of equal [spend]. *)
Class SortValues := {
  sort_values : list row → list row;
  sort_values_perm : ∀ df, sort_values df ≡ₚ df;
  sort_values_sorted : ∀ df,
    StronglySorted (λ r1 r2, desc_na_last (spend r1) (spend r2)) (sort_values df);
}.

(** The values interpolated into the line [save_to_csv] prints: the path,
    [len(df)] and the column whose sum is shown. *)
Record saved := {
  saved_path : string;
  saved_rows : nat;
  saved_spend : list float;
}.

(** Programs with the two effects of [save_to_csv]: writing a frame to a
    path (which can fail) and printing a line. *)
Inductive io (A : Type) :=
| Return (a : A)
| ToCsv (df : list row) (path : string) (k : io A)
| Print (line : saved) (k : io A).
Arguments Return {A} a.
Arguments ToCsv {A} df path k.
Arguments Print {A} line k.

Definition save_to_csv `{SortValues} (rows : list row) (path : string) : io bool :=
  match rows with
  | [] => Return false
  | _ :: _ =>
      let df := sort_values rows in
      ToCsv df path
        (Print {| saved_path := path; saved_rows := length df; saved_spend := spend <$> df |}
           (Return true))
  end.

(** The files on disk, each the frame last written to it, and the lines
    printed so far. *)
Record world := {
  files : gmap string (list row);
  stdout : list saved;
}.

(** Running a program: a write to a path that is not [writable] raises
    [OSError] and ends the program there. *)
Fixpoint run {A} (writable : string → bool) (p : io A) (w : world) : world * result A :=
  match p with
  | Return a => (w, Ok a)
  | ToCsv df path k =>
      if writable path
      then run writable k {| files := <[path := df]> (files w); stdout := stdout w |}
      else (w, Raise OSError)
  | Print line k =>
      run writable k {| files := files w; stdout := stdout w ++ [line] |}
  end.

(** The paths a program writes to, whatever the outcome of each write. *)
Fixpoint writes {A} (p : io A) : list string :=
  match p with
  | Return _ => []
  | ToCsv _ path k => path :: writes k
  | Print _ k => writes k
  end.

(** A sort meeting the interface, by insertion: [insert_desc] puts a row
    above the first row it may stand above. *)
Fixpoint insert_desc (r : row) (df : list row) : list row :=
  match df with
  | [] => [r]
  | r' :: df' =>
      if desc_na_lastb (spend r) (spend r') then r :: df
      else r' :: insert_desc r df'
  end.

(** Rows of equal [spend] keep their order. *)
Definition insertion_sort (df : list row) : list row :=
  foldr insert_desc [] df.

(** ** Specification-side definitions *)

(** [y] is [x] rounded to two decimal places.  NaN, the infinities and
    the zeros are left as they are.  For a finite [x] of magnitude
    [m * 2^e], [y] is the double that the decimal [n / 100] reads as, with
    the sign of [x], where [n] is the integer nearest to the exact value
    of [100 * m * 2^e], the even one of the two when that lies half-way
    between them. *)
Definition rounded_to_hundredths (x y : float) : Prop :=
  match x with
  | S754_finite s m e =>
      ∃ n : Z,
        0 ≤ n
        ∧ (Qabs (inject_Z n - 100 * (inject_Z (Zpos m) * Qpower 2 e)) <= 1 # 2)%Q
        ∧ ((Qabs (inject_Z n - 100 * (inject_Z (Zpos m) * Qpower 2 e)) == 1 # 2)%Q
           → Z.even n = true)
        ∧ y = decimal_to_float s n (-2)
  | _ => y = x
  end.

(** The keys [process_creative_data] reads with [ins[...]]. *)
Definition required_keys : list string :=
  ["ad_id"; "date_start"; "campaign_id"; "campaign_name"; "adset_id"; "adset_name"; "ad_name"].

(** An action entry counts when it is an object whose [action_type] is one
    of the conversion types. *)
Definition counted (a : value) : bool :=
  match a with
  | VDict d =>
      match dict_get d "action_type" VNone with
      | VStr s => bool_decide (s ∈ conv_types)
      | _ => false
      end
  | _ => false
  end.

(** The [value] of an entry parsed as a decimal. *)
Definition entry_value (a : value) : result float :=
  v ← py_get a "value" (VInt 0); py_float v.



(** The sum of floats, added left to right from [0.0]. *)
Definition sum_float (fs : list float) : float := foldl fadd (S754_zero false) fs.

(** Counts the metric code can turn into a float with room to spare. *)
Definition COUNT_MAX : Z := 2 ^ 64.

Definition count_ok (v : value) : bool :=
  match py_int v with
  | Ok n => Z.abs n <? COUNT_MAX
  | Raise _ => false
  end.

Definition float_ok (v : value) : bool := is_ok (py_float v).

Definition conversion_ok (v : value) : bool :=
  match py_float v with
  | Ok f =>
      match float_to_int f with
      | Ok n => Z.abs n <? COUNT_MAX
      | Raise _ => false
      end
  | Raise _ => false
  end.

(** An entry the loops of [calculate_metrics] accept: an object with a
    hashable [action_type] and, when it counts, an acceptable [value]. *)
Definition entry_ok (value_ok : value → bool) (a : value) : bool :=
  match a with
  | VDict d =>
      hashable (dict_get d "action_type" VNone)
      && (negb (counted a) || value_ok (dict_get d "value" (VInt 0)))
  | _ => false
  end.

Definition entries_ok (value_ok : value → bool) (v : value) : bool :=
  match v with
  | VList l => forallb (entry_ok value_ok) l && (Z.of_nat (length l) <? COUNT_MAX)
  | _ => false
  end.

(** The fields [calculate_metrics] reads hold, when present, a numeral
    and two lists of acceptable entries. *)
Definition metric_fields_ok (ins : gmap string value) : bool :=
  float_ok (dict_get ins "spend" (VInt 0))
  && entries_ok conversion_ok (dict_get ins "actions" (VList []))
  && entries_ok float_ok (dict_get ins "action_values" (VList [])).

(** A record as the insights endpoint delivers it: the seven requested
    identification fields are there, [ad_id] can be hashed, and the
    numeric fields that are present hold numerals. *)
Definition well_formed (ins : gmap string value) : bool :=
  forallb (λ k, bool_decide (is_Some (ins !! k))) required_keys
  && hashable (dict_get ins "ad_id" VNone)
  && metric_fields_ok ins
  && count_ok (dict_get ins "impressions" (VInt 0))
  && count_ok (dict_get ins "clicks" (VInt 0)).

(** ** Sample data *)

(** A record holding just the seven identification fields of the ad [ad]. *)
Definition identified (ad : string) : gmap string value :=
  {[ "date_start" := VStr "2024-05-01";
     "campaign_id" := VStr "c-1"; "campaign_name" := VStr "Spring";
     "adset_id" := VStr "s-1"; "adset_name" := VStr "Everyone";
     "ad_id" := VStr ad; "ad_name" := VStr "Banner" ]}.

Definition action (type amount : string) : value :=
  VDict {[ "action_type" := VStr type; "value" := VStr amount ]}.

(** The record of the first end-to-end scenario, as the endpoint sends it
    (numerals as strings), with its identification fields. *)
Definition scenario_1 : gmap string value :=
  <["impressions" := VStr "1000"]> (
  <["clicks" := VStr "20"]> (
  <["spend" := VStr "50.00"]> (
  <["actions" := VList [action "purchase" "2"]]> (
  <["action_values" := VList [action "purchase" "150.00"]]> (identified "ad-1"))))).

(** A record whose four quotients have no exact decimal: spend 3 on 7
    impressions with 1 click, 7 purchases worth 10. *)
Definition sevenths : gmap string value :=
  <["impressions" := VStr "7"]> (
  <["clicks" := VStr "1"]> (
  <["spend" := VStr "3"]> (
  <["actions" := VList [action "purchase" "7"]]> (
  <["action_values" := VList [action "purchase" "10"]]> (identified "ad-7"))))).


(** Two ads with the same spend. *)
Definition tie_a : gmap string value := <["spend" := VStr "10.00"]> (identified "A").
Definition tie_b : gmap string value := <["spend" := VStr "10.00"]> (identified "B").

(** An ad whose spend reads as NaN. *)
Definition nan_spend : gmap string value := <["spend" := VStr "nan"]> (identified "N").

(** A record without [ad_id], and one whose spend is not a numeral. *)
Definition no_ad_id : gmap string value := delete "ad_id" (identified "ad-1").
Definition bad_spend : gmap string value := <["spend" := VStr "n/a"]> (identified "ad-1").

(** A lookup knowing the creative of ["ad-1"], a video. *)
Definition one_video : gmap string (gmap string value) :=
  {[ "ad-1" := creative_meta {[ "id" := VStr "cr-9"; "video_id" := VStr "v-3" ]} ]}.

(** The rows of a small report: the scenario's ad and the two tied ads. *)
Definition sample_report : list row :=
  match process_creative_data [tie_a; scenario_1; tie_b] one_video with
  | Ok rows => rows
  | Raise _ => []
  end.

(** * The collaborators: fetching, mailing, orchestration *)

(** ** Requests to the ads API *)

(** [requests.get(url, params=params, timeout=timeout)] *)
Record request := {
  req_url : value;
  req_params : gmap string string;
  req_timeout : Z;
}.

(** What comes back from [requests.get], [raise_for_status] and [r.json()]
    taken together.  [Object items] is a body that decodes to a JSON
    object, [items] being its members as [items()] yields them, one per
    key and in the order of the document.  [Failed] is every other
    outcome: one of the three calls raised, or the body decoded to
    something that is no object, which makes the first use of the
    decoded value raise inside the same [try]. *)
Inductive response :=
| Failed
| Object (items : list (string * value)).

(** The answers of the API to the requests of a run, in the order the
    requests are made; a request beyond the last answer fails. *)
Definition answer (script : list response) : response * list response :=
  match script with
  | [] => (Failed, [])
  | r :: rest => (r, rest)
  end.

(** The lines the fetchers and [main] print, by the values interpolated. *)
Inductive message :=
| ApiError (e : value)
| AccountsFailed
| InsightsError (e : value)
| Retrieved (n : nat)
| InsightsFailed
| BatchFailed
| MissingSettings
| Settings (host port user password sender : string)
| AccountHeader (name id : string)
| NoInsights
| NothingToMail.

Inductive event :=
| EGet (r : request)
| ESleep
| ELog (m : message).

Definition accounts_request (access_token api_version : string) : request :=
  {| req_url := VStr ("https://graph.facebook.com/" +:+ api_version +:+ "/me/adaccounts");
     req_params := {[ "fields" := "name,account_id,currency,timezone_id";
                      "access_token" := access_token ]};
     req_timeout := 30 |}.

Definition get_facebook_ads_account (access_token api_version : string)
    (script : list response) : list event * value * list response :=
  let req := accounts_request access_token api_version in
  match answer script with
  | (Failed, rest) => ([EGet req; ELog AccountsFailed], VList [], rest)
  | (Object items, rest) =>
      let jsn : gmap string value := list_to_map items in
      match jsn !! "error" with
      | Some e => ([EGet req; ELog (ApiError e)], VList [], rest)
      | None => ([EGet req], dict_get jsn "data" (VList []), rest)
      end
  end.

Definition insights_fields : string :=
  "date_start,account_id,campaign_id,campaign_name," +:+
  "adset_id,adset_name,ad_id,ad_name,impressions,clicks,spend," +:+
  "actions,action_values".

Definition insights_request (account_id access_token api_version date_preset : string)
  : request :=
  {| req_url := VStr ("https://graph.facebook.com/" +:+ api_version +:+ "/act_"
                      +:+ account_id +:+ "/insights");
     req_params := {[ "level" := "ad";
                      "date_preset" := date_preset;
                      "fields" := insights_fields;
                      "access_token" := access_token ]};
     req_timeout := 60 |}.

(** What one turn of the loop of [get_ad_creative_insights] makes of a
    decoded page. *)
Inductive page :=
| PageFailed
| PageError (e : value)
| PageLast (rows : list value)
| PageNext (rows : list value) (next_url : value).

(** [all_rows.extend(data)] runs over [data] as a [for] loop does; the
    keys of a dict come in the order of the map, the order of the
    document not being part of [value]. *)
Definition read_page (items : list (string * value)) (all_rows : list value) : page :=
  let jsn : gmap string value := list_to_map items in
  match jsn !! "error" with
  | Some e => PageError e
  | None =>
      match py_iter (dict_get jsn "data" (VList [])) with
      | Raise _ => PageFailed
      | Ok data =>
          match py_get (dict_get jsn "paging" (VDict ∅)) "next" VNone with
          | Raise _ => PageFailed
          | Ok next_url =>
              if truthy next_url then PageNext (all_rows ++ data) next_url
              else PageLast (all_rows ++ data)
          end
      end
  end.

(** The [while True] loop, one answer per turn. *)
Fixpoint insights_loop (script : list response) (req : request) (all_rows : list value)
  : list event * list value * list response :=
  match script with
  | [] => ([EGet req; ELog InsightsFailed], [], [])
  | Failed :: rest => ([EGet req; ELog InsightsFailed], [], rest)
  | Object items :: rest =>
      match read_page items all_rows with
      | PageFailed => ([EGet req; ELog InsightsFailed], [], rest)
      | PageError e =>
          ([EGet req; ELog (InsightsError e); ELog (Retrieved (length all_rows))],
           all_rows, rest)
      | PageLast rows => ([EGet req; ELog (Retrieved (length rows))], rows, rest)
      | PageNext rows next_url =>
          let '(evs, res, rest') :=
            insights_loop rest
              {| req_url := next_url; req_params := ∅; req_timeout := 60 |} rows in
          (EGet req :: ESleep :: evs, res, rest')
      end
  end.

Definition get_ad_creative_insights (account_id access_token api_version date_preset : string)
    (script : list response) : list event * list value * list response :=
  insights_loop script (insights_request account_id access_token api_version date_preset) [].

(** ** The creative details *)

Definition BATCH : nat := 50.

(** [range(0, n, batch)] *)
Definition batch_starts (n : nat) : list nat :=
  (λ k, k * BATCH)%nat <$> seq 0 ((n + BATCH - 1) / BATCH)%nat.

(** [ad_ids[i:i + batch]] *)
Definition slice {A} (i : nat) (l : list A) : list A := take BATCH (drop i l).

(** [sep.join(l)] on strings, and the check [join] makes first: every
    item must be a string. *)
Fixpoint join (sep : string) (l : list string) : string :=
  match l with
  | [] => ""
  | [s] => s
  | s :: l' => s +:+ sep +:+ join sep l'
  end.

Fixpoint strings_of (vs : list value) : result (list string) :=
  match vs with
  | [] => Ok []
  | VStr s :: vs' => ss ← strings_of vs'; Ok (s :: ss)
  | _ :: _ => Raise TypeError
  end.

Definition creative_fields : string :=
  "id,name," +:+
  "creative.fields(id,name,object_story_spec,asset_feed_spec," +:+
  "image_hash,video_id,thumbnail_url)".

Definition creatives_request (ids access_token api_version : string) : request :=
  {| req_url := VStr ("https://graph.facebook.com/" +:+ api_version +:+ "/");
     req_params := {[ "ids" := ids;
                      "fields" := creative_fields;
                      "access_token" := access_token ]};
     req_timeout := 60 |}.

(** [needle in hay] on strings. *)
Fixpoint contains (needle hay : string) : bool :=
  if String.prefix needle hay then true
  else match hay with
       | EmptyString => false
       | String _ hay' => contains needle hay'
       end.

(** One turn of the loop over [data.items()]: skip an ad without
    ["creative"], store the meta of the others.  [in] looks for a key in a
    dict, for a substring in a string and for an item in a list, and
    raises on anything else; only a dict can then be indexed by
    ["creative"], and only a dict has [get]. *)
Definition store_creative (ad_id : string) (ad : value)
    (out : gmap string (gmap string value)) : result (gmap string (gmap string value)) :=
  match ad with
  | VDict d =>
      match d !! "creative" with
      | None => Ok out
      | Some (VDict c) => Ok (<[ad_id := creative_meta c]> out)
      | Some _ => Raise AttributeError
      end
  | VStr s => if contains "creative" s then Raise TypeError else Ok out
  | VList l =>
      if existsb (λ x, match x with VStr s => String.eqb s "creative" | _ => false end) l
      then Raise TypeError else Ok out
  | VNone | VBool _ | VInt _ | VFloat _ => Raise TypeError
  end.

(** The loop over [data.items()]: what [out] holds when it ends, and
    whether it ended by an exception, which leaves the entries stored so
    far in place. *)
Fixpoint store_all (items : list (string * value)) (out : gmap string (gmap string value))
  : gmap string (gmap string value) * bool :=
  match items with
  | [] => (out, true)
  | (ad_id, ad) :: items' =>
      match store_creative ad_id ad out with
      | Ok out' => store_all items' out'
      | Raise _ => (out, false)
      end
  end.

(** The body of the [try] for one batch, on the answer to its request. *)
Definition store_batch (r : response) (out : gmap string (gmap string value))
  : list event * gmap string (gmap string value) :=
  match r with
  | Failed => ([ELog BatchFailed], out)
  | Object items =>
      let '(out', finished) := store_all items out in
      (if finished : bool then [ESleep] else [ELog BatchFailed], out')
  end.

(** The loop over the batches.  [join] stands before the [try]: its
    [TypeError] leaves the function. *)
Fixpoint creatives_loop (starts : list nat) (ad_ids : list value)
    (access_token api_version : string) (script : list response)
    (out : gmap string (gmap string value))
  : list event * result (gmap string (gmap string value)) * list response :=
  match starts with
  | [] => ([], Ok out, script)
  | i :: starts' =>
      match strings_of (slice i ad_ids) with
      | Raise e => ([], Raise e, script)
      | Ok ids =>
          let req := creatives_request (join "," ids) access_token api_version in
          let '(r, rest) := answer script in
          let '(evs, out') := store_batch r out in
          let '(evs', res, rest') :=
            creatives_loop starts' ad_ids access_token api_version rest out' in
          (EGet req :: evs ++ evs', res, rest')
      end
  end.

Definition get_ad_creatives_details (ad_ids : list value)
    (access_token api_version : string) (script : list response)
  : list event * result (gmap string (gmap string value)) * list response :=
  creatives_loop (batch_starts (length ad_ids)) ad_ids access_token api_version script ∅.

(** ** The e-mail *)

(** [sep.join(l)] is [join]; [s.split(",")], on the characters of [s]. *)
Fixpoint split_on (sep : ascii) (s : list ascii) : list (list ascii) :=
  match s with
  | [] => [[]]
  | c :: s' =>
      if Ascii.eqb c sep then [] :: split_on sep s'
      else match split_on sep s' with
           | w :: ws => (c :: w) :: ws
           | [] => [[c]]
           end
  end.

(** White space for [str.strip()] on an ASCII string: tab to carriage
    return, the four separators 28 to 31, and space. *)
Definition is_str_space (c : ascii) : bool :=
  let n := N_of_ascii c in
  ((9 <=? n) && (n <=? 13) || (28 <=? n) && (n <=? 32))%N.

Fixpoint str_lstrip (s : list ascii) : list ascii :=
  match s with
  | c :: s' => if is_str_space c then str_lstrip s' else s
  | [] => []
  end.

(** [s.strip()] *)
Definition str_strip (s : list ascii) : list ascii :=
  rev (str_lstrip (rev (str_lstrip s))).

(** [[r.strip() for r in s.split(",") if r.strip()]], the recipients [main]
    reads from [EMAIL_RECIPIENTS]. *)
Definition parse_recipients (s : string) : list string :=
  string_of_list_ascii <$>
    filter (λ r, r ≠ []) (str_strip <$> split_on "," (list_ascii_of_string s)).

(** The [email] package is code of the standard library, not of the
    repository, and it raises on more than one would guess: a header
    value with a line break in it, some unbalanced address characters, a
    file name it cannot put into a header.  It enters the model as an
    interface that tells which of the calls the code makes on an
    [EmailMessage] raise: [msg[name] = value], [msg.set_content(body)]
    and [msg.add_attachment(data, maintype="text", subtype="csv",
    filename=Path(fp).name)], the last one given the path [fp] and the
    bytes. *)
Record email_package := {
  header_raises : string → string → bool;
  set_content_raises : string → bool;
  add_attachment_raises : string → string → bool;
}.

(** What [send_email_with_attachments] puts into the [EmailMessage]: the
    three headers, the text, and for each attachment the path (whose name
    is the file name) with the bytes read from it. *)
Record draft := {
  msg_subject : string;
  msg_from : string;
  msg_to : string;
  msg_body : string;
  msg_attachments : list (string * string);
}.

(** A path on disk, as [Path.exists] and [Path.read_bytes] find it. *)
Inductive file :=
| Missing
| Unreadable
| Bytes (content : string).

(** How the loop over [files] ends: with the attachments made, or by
    the exception of a read, or by that of [add_attachment] on a path. *)
Inductive attached :=
| Attached (atts : list (string * string))
| NotRead (e : exn)
| NotAdded (fp : string).

(** The loop over [files]: a missing path is passed over, the bytes of
    the others are read and attached in order; a read or an
    [add_attachment] that raises ends the loop. *)
Fixpoint attach (lib : email_package) (disk : string → file) (paths : list string)
  : attached :=
  match paths with
  | [] => Attached []
  | fp :: paths' =>
      match disk fp with
      | Missing => attach lib disk paths'
      | Unreadable => NotRead OSError
      | Bytes content =>
          if add_attachment_raises lib fp content then NotAdded fp
          else match attach lib disk paths' with
               | Attached atts => Attached ((fp, content) :: atts)
               | stopped => stopped
               end
      end
  end.

(** The calls made on [smtplib]: the two ways to connect, the methods of
    the connection, and the [QUIT] that leaving a [with] block sends.
    [SendMail] stands for the statement [server.sendmail(sender,
    recipients, msg.as_bytes())], the serialisation of the message
    included. *)
Inductive smtp_command :=
| ConnectSSL (host : string) (port : Z)
| Connect (host : string) (port : Z)
| Ehlo
| StartTls
| Login (user password : string)
| SendMail (sender : string) (recipients : list string) (msg : draft)
| Quit.

Definition lower_string (s : string) : string :=
  string_of_list_ascii (lower <$> list_ascii_of_string s).

Definition nonempty (s : string) : bool := negb (String.eqb s "").

(** ["gmail.com" in smtp_host.lower()] *)
Definition is_gmail (smtp_host : string) : bool :=
  contains "gmail.com" (lower_string smtp_host).

(** The connection each branch of the [try] block opens, for a port
    already converted. *)
Definition smtp_connect (smtp_host : string) (smtp_port : Z) : smtp_command :=
  if smtp_port =? 465 then ConnectSSL smtp_host smtp_port
  else Connect smtp_host smtp_port.

(** The calls inside its [with] block, in the order the code makes them;
    user and password are strings, as [main] passes them. *)
Definition smtp_body (smtp_host : string) (smtp_port : Z) (smtp_user smtp_pass : string)
    (sender : string) (recipients : list string) (msg : draft) : list smtp_command :=
  let login := if nonempty smtp_user && nonempty smtp_pass
               then [Login smtp_user smtp_pass] else [] in
  let send := [SendMail sender recipients msg] in
  if is_gmail smtp_host then
    if smtp_port =? 465 then
      [Ehlo; Login smtp_user smtp_pass] ++ send
    else
      [Ehlo; StartTls; Ehlo; Login smtp_user smtp_pass] ++ send
  else
    if smtp_port =? 465 then
      [Ehlo] ++ login ++ send
    else
      [Ehlo] ++ (if smtp_port =? 587 then [StartTls; Ehlo] else []) ++ login ++ send.

(** Running calls against a server: the first call that raises ends
    them; [accepts] tells whether the statement that makes a call goes
    through.  The result is the calls made, the failing one included, and
    whether all went through. *)
Fixpoint session (accepts : smtp_command → bool) (plan : list smtp_command)
  : list smtp_command * bool :=
  match plan with
  | [] => ([], true)
  | c :: plan' =>
      if accepts c then
        let '(made, ok) := session accepts plan' in (c :: made, ok)
      else ([c], false)
  end.

(** [with smtplib.SMTP(...) as server: body].  When the connection cannot
    be made nothing else is called.  Otherwise the body runs and, however
    it ends, leaving the block sends [QUIT]; an exception of the body or
    of that [QUIT] leaves the block. *)
Definition with_server (accepts : smtp_command → bool) (connect : smtp_command)
    (body : list smtp_command) : list smtp_command * bool :=
  if accepts connect then
    let '(made, ok) := session accepts body in
    (connect :: made ++ [Quit], ok && accepts Quit)
  else ([connect], false).

(** How a call of [send_email_with_attachments] ends: it returns after the
    session, or raises — while the message is built (from the assignment
    of the header [name], from [set_content], from reading an attachment
    or from adding the one of the path [fp]), from [int(smtp_port)] or
    from the session, whose exception is printed and raised again. *)
Inductive delivery :=
| Delivered (made : list smtp_command)
| SessionRaised (made : list smtp_command)
| PortRaised (e : exn)
| AttachmentRaised (e : exn)
| HeaderRaised (name : string)
| ContentRaised
| AttachmentRefused (fp : string).

Definition send_email_with_attachments (lib : email_package)
    (accepts : smtp_command → bool) (disk : string → file)
    (smtp_host : string) (smtp_port : value) (smtp_user smtp_pass : string)
    (sender : string) (recipients : list string) (subject body : string)
    (files : list string) : delivery :=
  if header_raises lib "Subject" subject then HeaderRaised "Subject"
  else if header_raises lib "From" sender then HeaderRaised "From"
  else if header_raises lib "To" (join ", " recipients) then HeaderRaised "To"
  else if set_content_raises lib body then ContentRaised
  else
    match attach lib disk files with
    | NotRead e => AttachmentRaised e
    | NotAdded fp => AttachmentRefused fp
    | Attached atts =>
        let msg := {| msg_subject := subject;
                      msg_from := sender;
                      msg_to := join ", " recipients;
                      msg_body := body;
                      msg_attachments := atts |} in
        match py_int smtp_port with
        | Raise e => PortRaised e
        | Ok port =>
            let '(made, ok) :=
              with_server accepts (smtp_connect smtp_host port)
                (smtp_body smtp_host port smtp_user smtp_pass sender recipients msg) in
            if ok : bool then Delivered made else SessionRaised made
        end
    end.

(** ** The run *)

(** [v[k]] for a string [k]: only a dict can be indexed by a string. *)
Definition py_getitem (v : value) (k : string) : result value :=
  match v with
  | VDict d => dict_getitem d k
  | _ => Raise TypeError
  end.

(** What a run finds around it: the environment once [.env] is loaded,
    the clock read as [%Y%m%d_%H%M%S] at its k-th reading and as
    [%Y-%m-%d] for the subject, the paths that can be written, the mail
    server; and, of Python and pandas, the [email] package, [str(v)] as
    f-strings apply it, [list(set(l))] and the text [to_csv] writes. *)
Record runtime := {
  env : gmap string string;
  stamps : nat → string;
  today : string;
  writable : string → bool;
  accepts : smtp_command → bool;
  email : email_package;
  format : value → string;
  set_list : list value → list value;
  to_csv : list row → string;
}.

(** [main] holds its mail settings as literals.  Host and port decide
    which calls are made and are kept as they stand; the user, the
    password and the sender are values only passed along, and are left
    open here: what is proved holds for the ones in the source. *)
Record mail_account := {
  smtp_user : string;
  smtp_pass : string;
  sender : string;
}.

Definition SMTP_HOST : string := "smtp.gmail.com".
Definition SMTP_PORT : string := "587".

Definition newline : string := String (ascii_of_nat 10) EmptyString.

Definition mail_body : string :=
  "Attached are the latest Meta Ads Data extracts." +:+ newline +:+ newline
  +:+ "Regards," +:+ newline +:+ "Automation Script".

(** One turn of [{row["ad_id"] for row in insights}]: the row is indexed
    and its [ad_id] hashed. *)
Definition keyed (row : value) : result (gmap string value * value) :=
  match row with
  | VDict d =>
      ad ← dict_getitem d "ad_id";
      if hashable ad then Ok (d, ad) else Raise TypeError
  | _ => Raise TypeError
  end.

Fixpoint keyed_rows (insights : list value)
  : result (list (gmap string value * value)) :=
  match insights with
  | [] => Ok []
  | row :: insights' =>
      k ← keyed row; ks ← keyed_rows insights'; Ok (k :: ks)
  end.

(** The variables of [main] that change along the loop over the
    accounts, with the answers of the API still to come, the files on
    disk, the number of clock readings made and the events so far. *)
Record run_state := {
  st_script : list response;
  st_world : world;
  st_clock : nat;
  st_files : list string;
  st_events : list event;
}.

Definition file_name (rt : runtime) (acc_id : value) (clock : nat) : string :=
  "meta_ads_data_" +:+ format rt acc_id +:+ "_" +:+ stamps rt clock +:+ ".csv".

(** The body of the loop for one account: the state it leaves, and the
    exception that left it, if any. *)
Definition process_account `{SortValues} (rt : runtime)
    (access_token api_version : string) (acc : value) (st : run_state)
  : run_state * option exn :=
  match (acc_id ← py_getitem acc "account_id";
         acc_name ← py_getitem acc "name";
         Ok (acc_id, acc_name)) with
  | Raise e => (st, Some e)
  | Ok (acc_id, acc_name) =>
      let header := ELog (AccountHeader (format rt acc_name) (format rt acc_id)) in
      let '(evs, insights, rest) :=
        get_ad_creative_insights (format rt acc_id) access_token api_version "today"
          (st_script st) in
      let st1 := {| st_script := rest;
                    st_world := st_world st;
                    st_clock := st_clock st;
                    st_files := st_files st;
                    st_events := st_events st ++ header :: evs |} in
      match insights with
      | [] =>
          ({| st_script := rest;
              st_world := st_world st;
              st_clock := st_clock st;
              st_files := st_files st;
              st_events := st_events st1 ++ [ELog NoInsights] |}, None)
      | _ :: _ =>
          match keyed_rows insights with
          | Raise e => (st1, Some e)
          | Ok rows =>
              let ad_ids := set_list rt (rows.*2) in
              let '(evs2, creatives, rest2) :=
                get_ad_creatives_details ad_ids access_token api_version rest in
              let st2 := {| st_script := rest2;
                            st_world := st_world st;
                            st_clock := st_clock st;
                            st_files := st_files st;
                            st_events := st_events st1 ++ evs2 |} in
              match creatives with
              | Raise e => (st2, Some e)
              | Ok creatives =>
                  match process_creative_data (rows.*1) creatives with
                  | Raise e => (st2, Some e)
                  | Ok data =>
                      let file := file_name rt acc_id (st_clock st) in
                      let '(w, saved) :=
                        run (writable rt) (save_to_csv data file) (st_world st) in
                      ({| st_script := rest2;
                          st_world := w;
                          st_clock := S (st_clock st);
                          st_files := match saved with
                                      | Ok true => st_files st ++ [file]
                                      | _ => st_files st
                                      end;
                          st_events := st_events st2 |},
                       match saved with Raise e => Some e | Ok _ => None end)
                  end
              end
          end
      end
  end.

(** The loop: an exception ends it. *)
Fixpoint run_accounts `{SortValues} (rt : runtime) (access_token api_version : string)
    (accs : list value) (st : run_state) : run_state * option exn :=
  match accs with
  | [] => (st, None)
  | acc :: accs' =>
      match process_account rt access_token api_version acc st with
      | (st', None) => run_accounts rt access_token api_version accs' st'
      | (st', Some e) => (st', Some e)
      end
  end.

(** The files as the mail finds them: those written, as written. *)
Definition disk_of (rt : runtime) (w : world) (fp : string) : file :=
  match files w !! fp with
  | Some df => Bytes (to_csv rt df)
  | None => Missing
  end.

(** How [main] ends: [sys.exit], a normal return, an exception of the
    fetch-and-export part, or one raised again by the mail. *)
Inductive status :=
| Exited (code : Z)
| Returned
| Crashed (e : exn)
| MailRaised.

Record outcome := {
  out_status : status;
  out_events : list event;
  out_world : world;
  out_mail : option delivery;
}.

(** [all([access_token, smtp_host, sender, recipients])] *)
Definition settings_ok (rt : runtime) (ma : mail_account) : bool :=
  match env rt !! "FB_ACCESS_TOKEN" with
  | Some token => nonempty token
  | None => false
  end
  && nonempty SMTP_HOST && nonempty (sender ma)
  && match parse_recipients (default "" (env rt !! "EMAIL_RECIPIENTS")) with
     | [] => false
     | _ :: _ => true
     end.

Definition main `{SortValues} (rt : runtime) (ma : mail_account)
    (script : list response) (w : world) : outcome :=
  let access_token := default "" (env rt !! "FB_ACCESS_TOKEN") in
  let api_version := default "None" (env rt !! "FB_API_VERSION") in
  let recipients := parse_recipients (default "" (env rt !! "EMAIL_RECIPIENTS")) in
  if negb (settings_ok rt ma) then
    {| out_status := Exited 1;
       out_events := [ELog MissingSettings];
       out_world := w;
       out_mail := None |}
  else
    let settings :=
      ELog (Settings SMTP_HOST SMTP_PORT (smtp_user ma) (smtp_pass ma) (sender ma)) in
    let '(evs, accounts, rest) :=
      get_facebook_ads_account access_token api_version script in
    match py_iter accounts with
    | Raise e =>
        {| out_status := Crashed e;
           out_events := settings :: evs;
           out_world := w;
           out_mail := None |}
    | Ok accs =>
        let '(st, raised) :=
          run_accounts rt access_token api_version accs
            {| st_script := rest;
               st_world := w;
               st_clock := 0;
               st_files := [];
               st_events := settings :: evs |} in
        match raised with
        | Some e =>
            {| out_status := Crashed e;
               out_events := st_events st;
               out_world := st_world st;
               out_mail := None |}
        | None =>
            match st_files st with
            | [] =>
                {| out_status := Returned;
                   out_events := st_events st ++ [ELog NothingToMail];
                   out_world := st_world st;
                   out_mail := None |}
            | _ :: _ =>
                let sent :=
                  send_email_with_attachments (email rt) (accepts rt)
                    (disk_of rt (st_world st))
                    SMTP_HOST (VStr SMTP_PORT) (smtp_user ma) (smtp_pass ma) (sender ma)
                    recipients ("Meta Ads Data – " +:+ today rt) mail_body
                    (st_files st) in
                {| out_status := match sent with
                                 | Delivered _ => Returned
                                 | _ => MailRaised
                                 end;
                   out_events := st_events st;
                   out_world := st_world st;
                   out_mail := Some sent |}
            end
        end
    end.

(** ** More sample data *)

(** An entry that can be looked at by the loops of [calculate_metrics]: an
    object whose [action_type] can be hashed. *)
Definition is_entry (a : value) : bool :=
  match a with
  | VDict d => hashable (dict_get d "action_type" VNone)
  | _ => false
  end.

(** A purchase of 3 beside a view whose value is no numeral. *)
Definition purchase_and_junk : gmap string value :=
  {[ "actions" := VList [action "purchase" "3"; action "view_content" "n/a"];
     "action_values" := VList [action "link_click" "?"; action "lead" "9.5"] ]}.

(** ** Reading the runs of the fetchers *)

(** The request for the page behind a [next] link. *)
Definition follow (next_url : value) : request :=
  {| req_url := next_url; req_params := ∅; req_timeout := 60 |}.

(** What a decoded page holds: an [error] member, the rows of [data], the
    [next] link of [paging]. *)
Definition has_error (items : list (string * value)) : bool :=
  match (list_to_map items : gmap string value) !! "error" with
  | Some _ => true
  | None => false
  end.

Definition page_rows (items : list (string * value)) : result (list value) :=
  py_iter (dict_get (list_to_map items : gmap string value) "data" (VList [])).

Definition page_next (items : list (string * value)) : result value :=
  py_get (dict_get (list_to_map items : gmap string value) "paging" (VDict ∅)) "next" VNone.

Definition rows_of (items : list (string * value)) : list value :=
  match page_rows items with Ok rows => rows | Raise _ => [] end.

Definition next_of (items : list (string * value)) : value :=
  match page_next items with Ok v => v | Raise _ => VNone end.

(** A page that can be read and names a next page; one that can be read
    and names none. *)
Definition more (items : list (string * value)) : bool :=
  negb (has_error items) && is_ok (page_rows items) && is_ok (page_next items)
  && truthy (next_of items).

Definition final (items : list (string * value)) : bool :=
  negb (has_error items) && is_ok (page_rows items) && is_ok (page_next items)
  && negb (truthy (next_of items)).

(** An answer that makes the body of the [try] raise. *)
Definition broken (r : response) : bool :=
  match r with
  | Failed => true
  | Object items =>
      negb (has_error items) && negb (is_ok (page_rows items) && is_ok (page_next items))
  end.

(** The events of the turns that read [pages] one after the other,
    starting with the request [req], and the request of the turn after
    them. *)
Fixpoint paging_events (req : request) (pages : list (list (string * value)))
  : list event :=
  match pages with
  | [] => []
  | p :: ps => EGet req :: ESleep :: paging_events (follow (next_of p)) ps
  end.

Definition last_request (req : request) (pages : list (list (string * value)))
  : request :=
  foldl (λ _ p, follow (next_of p)) req pages.

(** The batches of [get_ad_creatives_details]. *)
Definition chunks {A} (l : list A) : list (list A) :=
  (λ i, slice i l) <$> batch_starts (length l).

Fixpoint requests_of (evs : list event) : list request :=
  match evs with
  | [] => []
  | EGet r :: evs' => r :: requests_of evs'
  | _ :: evs' => requests_of evs'
  end.

Definition is_str (v : value) : bool :=
  match v with VStr _ => true | _ => false end.

(** An item of an answer that the loop over [data.items()] gets past. *)
Definition storable (item : string * value) : bool :=
  is_ok (store_creative item.1 item.2 ∅).

(** A page of two rows naming a next page, and a last page of one row. *)
Definition page_1 : list (string * value) :=
  [("data", VList [VDict tie_a; VDict tie_b]);
   ("paging", VDict {[ "next" := VStr "https://graph.facebook.com/next-1" ]})].

Definition page_2 : list (string * value) :=
  [("data", VList [VDict scenario_1]); ("paging", VDict ∅)].

Definition error_page : list (string * value) :=
  [("error", VDict {[ "code" := VInt 190 ]})].

(** An answer with the creative of ["ad-1"], an ad without creative, and
    an ad that is no object. *)
Definition video_creative : gmap string value :=
  {[ "id" := VStr "cr-9"; "video_id" := VStr "v-3"; "image_hash" := VStr "h-1" ]}.

Definition ad_with_creative : gmap string value :=
  {[ "id" := VStr "ad-1"; "creative" := VDict video_creative ]}.

Definition creatives_answer : list (string * value) :=
  [("ad-1", VDict ad_with_creative);
   ("A", VDict {[ "id" := VStr "A" ]});
   ("B", VNone)].

(** The row [r] carries the identification fields of the record [ins]. *)
Definition identifies (ins : gmap string value) (r : row) : Prop :=
  ins !! "ad_id" = Some (ad_id r)
  ∧ ins !! "date_start" = Some (date r)
  ∧ ins !! "campaign_id" = Some (campaign_id r)
  ∧ ins !! "campaign_name" = Some (campaign_name r)
  ∧ ins !! "adset_id" = Some (adset_id r)
  ∧ ins !! "adset_name" = Some (adset_name r)
  ∧ ins !! "ad_name" = Some (ad_name r).

(** What an answer does to the lookup. *)
Definition store (out : gmap string (gmap string value)) (r : response)
  : gmap string (gmap string value) :=
  (store_batch r out).2.

(** Some answer of [script] holds, for the ad [ad], the creative [c]. *)
Definition received (script : list response) (ad : string) (c : gmap string value)
  : Prop :=
  ∃ items d,
    Object items ∈ script ∧ (ad, VDict d) ∈ items ∧ d !! "creative" = Some (VDict c).

(** The tag that the columns [video_id] and [image_hash] of a row call
    for. *)
Definition tag_of_columns (r : row) : string :=
  if truthy (video_id r) then "Video"
  else if truthy (image_hash r) then "Image"
  else "Unknown".

(** Every entry of the lookup is the meta of a creative some answer
    holds for that ad. *)
Definition from_answers (script : list response)
    (out : gmap string (gmap string value)) : Prop :=
  ∀ ad m, out !! ad = Some m → ∃ c, received script ad c ∧ m = creative_meta c.

(** The lookup made of that answer, and a report built with it. *)
Definition one_fetched : gmap string (gmap string value) :=
  {[ "ad-1" := creative_meta video_creative ]}.

Definition fetched_report : list row :=
  match process_creative_data [scenario_1; tie_a] one_fetched with
  | Ok rows => rows
  | Raise _ => []
  end.

(** ** Reading the calls of a mail session *)

(** All the calls [send_email_with_attachments] sets out to make. *)
Definition smtp_plan (smtp_host : string) (smtp_port : Z) (smtp_user smtp_pass : string)
    (sender : string) (recipients : list string) (msg : draft) : list smtp_command :=
  smtp_connect smtp_host smtp_port
    :: smtp_body smtp_host smtp_port smtp_user smtp_pass sender recipients msg ++ [Quit].

(** The calls made before the connection is encrypted. *)
Fixpoint in_clear (calls : list smtp_command) : list smtp_command :=
  match calls with
  | [] => []
  | ConnectSSL _ _ :: _ => []
  | StartTls :: _ => []
  | c :: calls' => c :: in_clear calls'
  end.

Definition is_login (c : smtp_command) : bool :=
  match c with Login _ _ => true | _ => false end.

Definition is_sendmail (c : smtp_command) : bool :=
  match c with SendMail _ _ _ => true | _ => false end.

(** The attachment made of a path, if a file is there. *)
Definition existing (disk : string → file) (fp : string) : option (string * string) :=
  match disk fp with
  | Bytes content => Some (fp, content)
  | Missing | Unreadable => None
  end.

Definition unreadable (disk : string → file) (fp : string) : bool :=
  match disk fp with Unreadable => true | _ => false end.

(** A file that is there and that [add_attachment] raises on. *)
Definition refused (lib : email_package) (disk : string → file) (fp : string) : bool :=
  match disk fp with
  | Bytes content => add_attachment_raises lib fp content
  | Missing | Unreadable => false
  end.

(** The [email] package takes the three headers and the text. *)
Definition message_accepted (lib : email_package)
    (subject sender to body : string) : bool :=
  negb (header_raises lib "Subject" subject)
  && negb (header_raises lib "From" sender)
  && negb (header_raises lib "To" to)
  && negb (set_content_raises lib body).

(** An [email] package to try things on: it raises on a header value or
    a path that holds a line feed, and on nothing else. *)
Definition has_line_feed (s : string) : bool :=
  existsb (λ c, Ascii.eqb c (ascii_of_nat 10)) (list_ascii_of_string s).

Definition sample_email : email_package :=
  {| header_raises := λ _ v, has_line_feed v;
     set_content_raises := λ _, false;
     add_attachment_raises := λ fp _, has_line_feed fp |}.

(** A disk with one report, and a server that takes every call but a
    login. *)
Definition one_file (fp : string) : file :=
  if String.eqb fp "a.csv" then Bytes "spend\n1.0\n" else Missing.

Definition no_login (c : smtp_command) : bool := negb (is_login c).

Definition any_call (c : smtp_command) : bool := true.

(** ** Recipients *)

(** An address as [main] keeps it: not empty, without comma, and with no
    white space at either end. *)
Definition sep_free (cs : list ascii) : bool :=
  forallb (λ c, negb (Ascii.eqb c ",")) cs.

Definition hd_ok (cs : list ascii) : bool :=
  match cs with
  | [] => true
  | c :: _ => negb (is_str_space c)
  end.

Definition clean (r : string) : bool :=
  let cs := list_ascii_of_string r in
  nonempty r && sep_free cs && hd_ok cs && hd_ok (rev cs).

(** ** Reading a run *)

(** Every file the run has listed for the mail is on disk. *)
Definition listed (st : run_state) : Prop :=
  ∀ fp, fp ∈ st_files st → is_Some (files (st_world st) !! fp).

(** The state in which the loop over the accounts starts. *)
Definition start (ma : mail_account) (evs : list event) (rest : list response)
    (w : world) : run_state :=
  {| st_script := rest;
     st_world := w;
     st_clock := 0;
     st_files := [];
     st_events :=
       ELog (Settings SMTP_HOST SMTP_PORT (smtp_user ma) (smtp_pass ma) (sender ma))
         :: evs |}.

(** The message [main] hands to the mail for the files [fps] of the
    world [w]. *)
Definition report_mail (rt : runtime) (ma : mail_account) (w : world)
    (fps : list string) : draft :=
  {| msg_subject := "Meta Ads Data – " +:+ today rt;
     msg_from := sender ma;
     msg_to := join ", " (parse_recipients (default "" (env rt !! "EMAIL_RECIPIENTS")));
     msg_body := mail_body;
     msg_attachments := (λ fp, (fp, to_csv rt (default [] (files w !! fp)))) <$> fps |}.

(** Two recipients, the second with a line feed inside. *)
Definition broken_recipients : list string :=
  ["a@x.com"; "b@y" +:+ newline +:+ "org"].

(** A run to try things on: settings in place, every path writable, a
    server that takes every call.  [str] and [list(set(...))] are given
    on strings, which is all the samples hold. *)
Definition sample_runtime : runtime :=
  {| env := {[ "FB_ACCESS_TOKEN" := "token";
               "FB_API_VERSION" := "v19.0";
               "EMAIL_RECIPIENTS" := "a@x.com, b@y.org" ]};
     stamps := λ _, "20240501_120000";
     today := "2024-05-01";
     writable := λ _, true;
     accepts := any_call;
     email := sample_email;
     format := λ v, match v with VStr s => s | _ => "" end;
     set_list := λ l, match strings_of l with
                      | Ok ids => VStr <$> remove_dups ids
                      | Raise _ => l
                      end;
     to_csv := λ df, "" |}.

Definition sample_account : mail_account :=
  {| smtp_user := "reports@example.com";
     smtp_pass := "app-password";
     sender := "reports@example.com" |}.

Definition empty_world : world := {| files := ∅; stdout := [] |}.

(** An account as the API lists it, and one without [account_id]. *)
Definition account_42 : value :=
  VDict {[ "account_id" := VStr "42"; "name" := VStr "Acme" ]}.

Definition nameless_account : value := VDict {[ "name" := VStr "Acme" ]}.

(** The answers of a run with that one account: the accounts, a last page
    with one insight row, its creative. *)
Definition sample_script : list response :=
  [Object [("data", VList [account_42])]; Object page_2; Object creatives_answer].

(** The state in which the loop meets the account. *)
Definition sample_state : run_state :=
  start sample_account [] [Object page_2; Object creatives_answer] empty_world.

(** * Properties *)

(** ** The runtime model on known values *)

Example float_literals :
  parse_float "0.1" = Ok (S754_finite false 7205759403792794 (-56))
  ∧ parse_float " 50.00 " = parse_float "5e1"
  ∧ parse_float "1_000.5" = parse_float "10005E-1"
  ∧ parse_float "-0" = Ok (S754_zero true)
  ∧ parse_float "1e400" = Ok (S754_infinity false)
  ∧ parse_float "-Infinity" = Ok (S754_infinity true)
  ∧ parse_float "NaN" = Ok S754_nan
  ∧ parse_float "n/a" = Raise ValueError
  ∧ parse_float "1__0" = Raise ValueError
  ∧ parse_float "" = Raise ValueError.
Proof. vm_compute. repeat split. Qed.

Example int_literals :
  parse_int "1000" = Ok 1000
  ∧ parse_int " -12 " = Ok (-12)
  ∧ parse_int "1_000" = Ok 1000
  ∧ parse_int "10.5" = Raise ValueError
  ∧ parse_int "" = Raise ValueError.
Proof. vm_compute. repeat split. Qed.

Example conversions_to_float :
  int_to_float 1 = Ok (float_lit "1.0")
  ∧ int_to_float (DBL_OVERFLOW - 1) = Ok (SFmax_float prec emax)
  ∧ binary_normalize prec emax DBL_OVERFLOW 0 false = S754_infinity false
  ∧ int_to_float DBL_OVERFLOW = Raise OverflowError
  ∧ long_true_divide 20 1000 = Ok (float_lit "0.02")
  ∧ long_true_divide 0 (-5) = Ok (S754_zero true)
  ∧ long_true_divide 1 0 = Raise ZeroDivisionError
  ∧ long_true_divide (10 ^ 400) 1 = Raise OverflowError.
Proof. vm_compute. repeat split. Qed.

Example truncations :
  float_to_int (float_lit "3.99") = Ok 3
  ∧ float_to_int (float_lit "-3.99") = Ok (-3)
  ∧ float_to_int (float_lit "1e20") = Ok (10 ^ 20)
  ∧ float_to_int (float_lit "inf") = Raise OverflowError
  ∧ float_to_int (float_lit "nan") = Raise ValueError.
Proof. vm_compute. repeat split. Qed.

Example roundings :
  float_round2 (float_lit "2.675") = float_lit "2.67"
  ∧ float_round2 (float_lit "0.125") = float_lit "0.12"
  ∧ float_round2 (float_lit "0.375") = float_lit "0.38"
  ∧ float_round2 (float_lit "1.005") = float_lit "1.0"
  ∧ float_round2 (float_lit "-0.001") = S754_zero true
  ∧ float_round2 (float_lit "1e300") = float_lit "1e300"
  ∧ float_round2 (float_lit "inf") = float_lit "inf".
Proof. vm_compute. repeat split. Qed.

(** ** Rounding to hundredths *)

(** [round_half_even n d] is an integer nearest to [n / d]. *)
Lemma round_half_even_nearest (n d : Z) :
  0 < d → 2 * Z.abs (d * round_half_even n d - n) ≤ d.
Proof.
  intros Hd. unfold round_half_even.
  pose proof (Z.div_mod n d ltac:(lia)) as Hdiv.
  pose proof (Z.mod_pos_bound n d Hd) as Hmod.
  remember (n / d) as q eqn:Hq. remember (n mod d) as r eqn:Hr. clear Hq Hr.
  subst n.
  destruct (Z.compare_spec (2 * r) d) as [Heq|Hlt|Hgt].
  - destruct (Z.even q); lia.
  - lia.
  - lia.
Qed.

(** [hundredths m e] is within half a hundredth of [m * 2^e]: exact for
    [0 <= e], and for [e < 0] nearest to [100 * m / 2^(-e)]. *)
Lemma hundredths_nearest (m : positive) (e : Z) :
  (0 ≤ e → hundredths m e = Zpos m * 2 ^ e * 100)
  ∧ (e < 0 → 2 * Z.abs (2 ^ (- e) * hundredths m e - Zpos m * 100) ≤ 2 ^ (- e)).
Proof.
  unfold hundredths. split; intros He.
  - assert ((0 <=? e) = true) as -> by lia. done.
  - assert ((0 <=? e) = false) as -> by lia.
    apply round_half_even_nearest. apply Z.pow_pos_nonneg; lia.
Qed.

Lemma round_half_even_nonneg (n d : Z) : 0 ≤ n → 0 < d → 0 ≤ round_half_even n d.
Proof.
  intros Hn Hd. unfold round_half_even.
  pose proof (Z.div_pos n d Hn Hd).
  destruct (2 * (n mod d) ?= d); [destruct (Z.even (n / d))|..]; lia.
Qed.

(** Half-way between two integers it is the even one. *)
Lemma round_half_even_tie (n d : Z) :
  0 < d → 2 * Z.abs (d * round_half_even n d - n) = d →
  Z.even (round_half_even n d) = true.
Proof.
  intros Hd. unfold round_half_even.
  pose proof (Z.div_mod n d ltac:(lia)) as Hdiv.
  pose proof (Z.mod_pos_bound n d Hd) as Hmod.
  remember (n / d) as q eqn:Hq. remember (n mod d) as r eqn:Hr. clear Hq Hr.
  subst n.
  destruct (Z.compare_spec (2 * r) d) as [Heq|Hlt|Hgt].
  - intros _. destruct (Z.even q) eqn:Heven; [done|].
    rewrite Z.even_add, Heven. reflexivity.
  - lia.
  - lia.
Qed.

Lemma Qabs_ratio_le (a d : Z) :
  0 < d → (Qabs (inject_Z a / inject_Z d) <= 1 # 2)%Q ↔ 2 * Z.abs a ≤ d.
Proof.
  intros Hd. destruct d as [|p|p]; try lia.
  unfold Qdiv, Qinv, Qmult, Qabs, Qle, inject_Z. simpl. lia.
Qed.

Lemma Qabs_ratio_eq (a d : Z) :
  0 < d → (Qabs (inject_Z a / inject_Z d) == 1 # 2)%Q ↔ 2 * Z.abs a = d.
Proof.
  intros Hd. destruct d as [|p|p]; try lia.
  unfold Qdiv, Qinv, Qmult, Qabs, Qeq, inject_Z. simpl. lia.
Qed.

(** The distance of [h] to a hundred times [m * 2^e], as a ratio of ints. *)
Lemma hundredths_distance (h : Z) (m : positive) (e : Z) :
  (inject_Z h - 100 * (inject_Z (Zpos m) * Qpower 2 e) ==
   if 0 <=? e then inject_Z (h - Zpos m * 2 ^ e * 100) / inject_Z 1
   else inject_Z (2 ^ (- e) * h - Zpos m * 100) / inject_Z (2 ^ (- e)))%Q.
Proof.
  destruct (Z.leb_spec 0 e) as [He|He].
  - rewrite <- (Zpower_Qpower 2 e He).
    unfold Zminus. rewrite inject_Z_plus, inject_Z_opp, !inject_Z_mult.
    change (inject_Z 100) with (100 : Q). field.
  - assert (0 < 2 ^ (- e)) as Hd by (apply Z.pow_pos_nonneg; lia).
    assert (Qpower 2 e == / inject_Z (2 ^ (- e)))%Q as ->.
    { rewrite (Zpower_Qpower 2 (- e)) by lia.
      rewrite <- (Z.opp_involutive e) at 1. apply Qpower_opp. }
    unfold Zminus. rewrite inject_Z_plus, inject_Z_opp, !inject_Z_mult.
    change (inject_Z 100) with (100 : Q). field.
    intros H0. unfold Qeq, inject_Z in H0. simpl in H0. lia.
Qed.

(** [round(f, 2)] rounds to two decimal places. *)
Lemma float_round2_rounded (f : float) : rounded_to_hundredths f (float_round2 f).
Proof.
  destruct f as [s| s| |s m e]; try reflexivity.
  unfold rounded_to_hundredths. exists (hundredths m e).
  destruct (hundredths_nearest m e) as [Hexact Hnear].
  split; [|split; [|split]].
  - unfold hundredths. destruct (Z.leb_spec 0 e) as [He|He].
    + pose proof (Z.pow_nonneg 2 e ltac:(lia)). nia.
    + apply round_half_even_nonneg; [lia | apply Z.pow_pos_nonneg; lia].
  - rewrite hundredths_distance. destruct (Z.leb_spec 0 e) as [He|He].
    + rewrite (Hexact He), Z.sub_diag. apply Qabs_ratio_le; simpl; lia.
    + apply Qabs_ratio_le; [apply Z.pow_pos_nonneg; lia|]. apply Hnear, He.
  - rewrite hundredths_distance. destruct (Z.leb_spec 0 e) as [He|He].
    + rewrite (Hexact He), Z.sub_diag. intros Htie.
      apply Qabs_ratio_eq in Htie; simpl in *; lia.
    + intros Htie. apply Qabs_ratio_eq in Htie; [|apply Z.pow_pos_nonneg; lia].
      unfold hundredths in *. assert ((0 <=? e) = false) as Hle by lia.
      rewrite Hle in *. apply round_half_even_tie in Htie; [done|].
      apply Z.pow_pos_nonneg; lia.
  - unfold float_round2, decimal_to_float. by destruct (hundredths m e).
Qed.

(** ** The result monad and the loop *)

Lemma bind_Ok {A B} (m : result A) (f : A → result B) (b : B) :
  m ≫= f = Ok b ↔ ∃ a, m = Ok a ∧ f a = Ok b.
Proof.
  destruct m as [a|e]; simpl; split.
  - intros Hf. by exists a.
  - by intros (a' & [= <-] & Hf).
  - discriminate.
  - by intros (a' & [=] & _).
Qed.

Lemma bind_Raise {A B} (m : result A) (f : A → result B) (e : exn) :
  m ≫= f = Raise e ↔ m = Raise e ∨ ∃ a, m = Ok a ∧ f a = Raise e.
Proof.
  destruct m as [a|e']; simpl; split.
  - intros Hf. right. by exists a.
  - by intros [[=] | (a' & [= <-] & Hf)].
  - intros [= ->]. by left.
  - by intros [[= ->] | (a' & [=] & _)].
Qed.

Lemma fmap_Ok {A B} (g : A → B) (m : result A) (b : B) :
  g <$> m = Ok b ↔ ∃ a, m = Ok a ∧ b = g a.
Proof.
  destruct m as [a|e]; simpl; split.
  - intros [= <-]. by exists a.
  - by intros (a' & [= <-] & ->).
  - discriminate.
  - by intros (a' & [=] & _).
Qed.

Lemma fmap_Raise {A B} (g : A → B) (m : result A) (e : exn) :
  g <$> m = Raise e ↔ m = Raise e.
Proof. destruct m; simpl; split; congruence. Qed.

Lemma is_ok_Ok {A} (m : result A) : is_ok m = true ↔ ∃ a, m = Ok a.
Proof.
  destruct m as [a|e]; simpl; split; try done.
  - by exists a.
  - by intros [a [=]].
Qed.

(** A loop that went through ran its body on every element, in order. *)
Lemma for_each_app {A S} (xs ys : list A) (body : A → S → result S) (s : S) :
  for_each (xs ++ ys) body s = s' ← for_each xs body s; for_each ys body s'.
Proof.
  revert s. induction xs as [|x xs IH]; intros s; simpl; [done|].
  destruct (body x s) as [s1|e]; simpl; [apply IH | done].
Qed.

(** A loop raises an exception only if its body can. *)
Lemma for_each_Raise {A S} (xs : list A) (body : A → S → result S) (s : S) (e : exn) :
  for_each xs body s = Raise e → ∃ x s', x ∈ xs ∧ body x s' = Raise e.
Proof.
  revert s. induction xs as [|x xs IH]; intros s; simpl; [done|].
  rewrite bind_Raise. intros [Hx | (s1 & _ & Hrest)].
  - exists x, s. split; [left | done].
  - destruct (IH _ Hrest) as (y & s' & Hy & Hbody).
    exists y, s'. split; [by right | done].
Qed.

(** ** The order on floats *)

Lemma xreal_le_trans (x y z : xreal) : xreal_le x y → xreal_le y z → xreal_le x z.
Proof.
  destruct x, y, z; simpl; try done.
  apply Qle_trans.
Qed.

Lemma xreal_le_total (x y : xreal) : xreal_le x y ∨ xreal_le y x.
Proof.
  destruct x as [|p|], y as [|q|]; simpl; auto.
  destruct (Qlt_le_dec p q) as [Hlt|Hle]; [left; by apply Qlt_le_weak | by right].
Qed.

Lemma xreal_leb_le (x y : xreal) : xreal_leb x y = true ↔ xreal_le x y.
Proof.
  destruct x, y; simpl; try done.
  apply Qle_bool_iff.
Qed.

Lemma float_leb_le (a b : float) : float_leb a b = true ↔ float_le a b.
Proof.
  unfold float_leb, float_le.
  destruct (float_value a), (float_value b); try done.
  apply xreal_leb_le.
Qed.

Lemma float_le_trans (a b c : float) : float_le a b → float_le b c → float_le a c.
Proof.
  unfold float_le.
  destruct (float_value a), (float_value b), (float_value c); try done.
  apply xreal_le_trans.
Qed.

Lemma float_value_nan (f : float) : float_value f = None ↔ is_nan f = true.
Proof. destruct f as [| [] | |]; simpl; split; congruence. Qed.

(** A comparison with NaN is false on both sides. *)
Lemma float_le_not_nan (a b : float) :
  float_le a b → is_nan a = false ∧ is_nan b = false.
Proof.
  unfold float_le. intros Hab.
  destruct (float_value a) eqn:Ha; [|done].
  destruct (float_value b) eqn:Hb; [|done].
  split; apply not_true_is_false; rewrite <- float_value_nan; congruence.
Qed.

Lemma float_le_total (a b : float) :
  is_nan a = false → is_nan b = false → float_le a b ∨ float_le b a.
Proof.
  intros Ha Hb. unfold float_le.
  destruct (float_value a) as [x|] eqn:Hx.
  2:{ apply float_value_nan in Hx. congruence. }
  destruct (float_value b) as [y|] eqn:Hy.
  2:{ apply float_value_nan in Hy. congruence. }
  apply xreal_le_total.
Qed.

Lemma desc_na_lastb_spec (a b : float) : desc_na_lastb a b = true ↔ desc_na_last a b.
Proof.
  unfold desc_na_lastb, desc_na_last.
  rewrite orb_true_iff, float_leb_le. done.
Qed.

Lemma desc_na_last_trans (a b c : float) :
  desc_na_last a b → desc_na_last b c → desc_na_last a c.
Proof.
  intros Hab [Hc|Hcb]; [by left|].
  destruct Hab as [Hb|Hba].
  - apply float_le_not_nan in Hcb. destruct Hcb; congruence.
  - right. by apply float_le_trans with b.
Qed.

Lemma desc_na_last_total (a b : float) : desc_na_last a b ∨ desc_na_last b a.
Proof.
  unfold desc_na_last.
  destruct (is_nan a) eqn:Ha; [by right; left|].
  destruct (is_nan b) eqn:Hb; [by left; left|].
  destruct (float_le_total a b Ha Hb); auto.
Qed.

(** ** Rounding a non-zero number above the underflow threshold

    [binary_round_aux] shifts the mantissa right until it fits the format,
    rounds, and shifts once more if the rounding carried.  None of the
    shifts can empty a mantissa whose value reaches [2 ^ emin]. *)

Lemma digits2_pos_size (p : positive) : digits2_pos p = Pos.size p.
Proof. induction p; simpl; congruence. Qed.

Lemma Zdigits2_log2 (p : positive) : Zdigits2 (Zpos p) = Z.log2 (Zpos p) + 1.
Proof.
  destruct p; simpl; rewrite ?digits2_pos_size; lia.
Qed.

Lemma Zdigits2_mono (a b : Z) : 0 < a → a ≤ b → Zdigits2 a ≤ Zdigits2 b.
Proof.
  intros Ha Hab.
  destruct a as [|p|p]; [lia| |lia].
  destruct b as [|q|q]; [lia| |lia].
  rewrite !Zdigits2_log2.
  apply Z.add_le_mono_r, Z.log2_le_mono, Hab.
Qed.

Lemma Zdigits2_pos (z : Z) : 0 ≤ z → 0 < Zdigits2 z → 0 < z.
Proof. destruct z; simpl; lia. Qed.

Lemma digits_shr_1 (s : shr_record) :
  Zdigits2 (shr_m (shr_1 s)) = Z.max 0 (Zdigits2 (shr_m s) - 1).
Proof.
  destruct s as [[|p|p] r t]; simpl; [done| |]; destruct p; simpl; lia.
Qed.

Lemma digits_shr (p : positive) (s : shr_record) :
  Zdigits2 (shr_m (SpecFloat.iter_pos shr_1 p s)) = Z.max 0 (Zdigits2 (shr_m s) - Zpos p).
Proof.
  revert s. induction p as [p IH|p IH|]; intros s; simpl.
  - rewrite !IH, digits_shr_1. lia.
  - rewrite !IH. lia.
  - apply digits_shr_1.
Qed.

Lemma shr_1_nonneg (s : shr_record) : 0 ≤ shr_m s → 0 ≤ shr_m (shr_1 s).
Proof.
  destruct s as [[|p|p] r t]; simpl; [done| |lia]; destruct p; simpl; lia.
Qed.

Lemma shr_nonneg (p : positive) (s : shr_record) :
  0 ≤ shr_m s → 0 ≤ shr_m (SpecFloat.iter_pos shr_1 p s).
Proof.
  revert s. induction p as [p IH|p IH|]; intros s Hs; simpl.
  - by apply IH, IH, shr_1_nonneg.
  - by apply IH, IH.
  - by apply shr_1_nonneg.
Qed.

Lemma shr_m_of_loc (m : Z) (l : location) : shr_m (shr_record_of_loc m l) = m.
Proof. by destruct l as [|[]]. Qed.

(** One shift keeps a mantissa positive, and its value above the threshold. *)
Lemma shr_fexp_pos (m e : Z) (l : location) :
  0 < m → emin prec emax < Zdigits2 m + e →
  0 < shr_m (shr_fexp prec emax m e l).1
  ∧ emin prec emax < Zdigits2 (shr_m (shr_fexp prec emax m e l).1) + (shr_fexp prec emax m e l).2.
Proof.
  intros Hm He. unfold shr_fexp, shr.
  destruct (fexp prec emax (Zdigits2 m + e) - e) as [|p|p] eqn:Hn; simpl;
    rewrite ?shr_m_of_loc; [done| |done].
  assert (Hd : Zdigits2 (shr_m (SpecFloat.iter_pos shr_1 p (shr_record_of_loc m l)))
               = Zdigits2 m - Zpos p).
  { rewrite digits_shr, shr_m_of_loc.
    unfold fexp, emin, prec, emax in *. lia. }
  split.
  - apply Zdigits2_pos.
    + apply shr_nonneg. rewrite shr_m_of_loc. lia.
    + rewrite Hd. unfold fexp, emin, prec, emax in *. lia.
  - rewrite Hd. lia.
Qed.

Lemma round_nearest_even_ge (m : Z) (l : location) : m ≤ round_nearest_even m l.
Proof.
  destruct l as [|[]]; simpl; try lia.
  destruct (Z.even m); lia.
Qed.

(** Rounding a positive mantissa whose value reaches [2 ^ emin] gives a
    non-zero float (finite, or infinite on overflow). *)
Lemma binary_round_aux_nonzero (s : bool) (m : positive) (e : Z) (l : location) :
  emin prec emax < Zdigits2 (Zpos m) + e →
  float_truthy (binary_round_aux prec emax s (Zpos m) e l) = true
  ∧ is_nan (binary_round_aux prec emax s (Zpos m) e l) = false.
Proof.
  intros He. unfold binary_round_aux.
  destruct (shr_fexp_pos (Zpos m) e l) as [Hm1 He1]; [done|done|].
  destruct (shr_fexp prec emax (Zpos m) e l) as [r1 e1]. simpl in Hm1, He1.
  set (m2 := round_nearest_even (shr_m r1) (loc_of_shr_record r1)).
  assert (Hge : shr_m r1 ≤ m2) by apply round_nearest_even_ge.
  destruct (shr_fexp_pos m2 e1 loc_Exact) as [Hm2 _]; [lia| |].
  { pose proof (Zdigits2_mono _ _ Hm1 Hge). lia. }
  destruct (shr_fexp prec emax m2 e1 loc_Exact) as [r2 e2]. simpl in Hm2.
  destruct (shr_m r2) as [|q|q]; [lia| |lia].
  by destruct (e2 <=? emax - prec).
Qed.

Lemma digits_shift (m k : positive) :
  Zpos (digits2_pos (Pos.iter xO m k)) = Zpos (digits2_pos m) + Zpos k.
Proof.
  induction k as [|k IH] using Pos.peano_ind.
  - simpl. lia.
  - rewrite Pos.iter_succ. simpl. lia.
Qed.

Lemma binary_normalize_nonzero (z : Z) :
  z ≠ 0 → float_truthy (binary_normalize prec emax z 0 false) = true.
Proof.
  assert (Hround : ∀ s m, float_truthy (binary_round prec emax s m 0) = true).
  { intros s m. unfold binary_round, shl_align.
    destruct (fexp prec emax (Zpos (digits2_pos m) + 0) - 0) as [|k|k] eqn:Hk;
      apply binary_round_aux_nonzero; simpl; rewrite ?digits_shift;
      unfold fexp, emin, prec, emax in *; lia. }
  destruct z as [|m|m]; [done| |]; intros _; apply Hround.
Qed.

(** [float(z)] is [0.0] for no int but 0. *)
Lemma int_to_float_nonzero (z : Z) (f : float) :
  z ≠ 0 → int_to_float z = Ok f → float_truthy f = true.
Proof.
  unfold int_to_float. intros Hz.
  destruct (Z.abs z <? DBL_OVERFLOW); [|done].
  intros [= <-]. by apply binary_normalize_nonzero.
Qed.

(** ** Which exceptions the built-ins can raise *)

(** [may_raise es m]: if [m] raises, the exception is one of [es]. *)
Definition may_raise {A} (es : list exn) (m : result A) : Prop :=
  ∀ e, m = Raise e → e ∈ es.

(** Membership in, and inclusion between, explicit lists of exceptions. *)
Ltac pick := by repeat constructor.
Ltac included :=
  let e := fresh "e" in
  let He := fresh "He" in
  intros e He;
  repeat (apply elem_of_cons in He as [->|He]; [pick|]);
  by apply elem_of_nil in He.

Lemma may_raise_Ok {A} (es : list exn) (a : A) : may_raise es (Ok a).
Proof. by intros e. Qed.

Lemma may_raise_Raise {A} (es : list exn) (e : exn) :
  e ∈ es → may_raise es (@Raise A e).
Proof. by intros He e' [= <-]. Qed.

Lemma may_raise_mono {A} (es es' : list exn) (m : result A) :
  es ⊆ es' → may_raise es m → may_raise es' m.
Proof. intros Hsub Hm e He. by apply Hsub, Hm. Qed.

Lemma may_raise_bind {A B} (es : list exn) (m : result A) (f : A → result B) :
  may_raise es m → (∀ a, m = Ok a → may_raise es (f a)) → may_raise es (m ≫= f).
Proof.
  intros Hm Hf e. rewrite bind_Raise. intros [He | (a & Ha & He)].
  - by apply Hm.
  - by apply (Hf a).
Qed.

Lemma may_raise_fmap {A B} (es : list exn) (m : result A) (g : A → B) :
  may_raise es m → may_raise es (g <$> m).
Proof. intros Hm e. rewrite fmap_Raise. apply Hm. Qed.

Lemma may_raise_for_each {A S} (es : list exn) (xs : list A)
    (body : A → S → result S) (s : S) :
  (∀ x s', x ∈ xs → may_raise es (body x s')) → may_raise es (for_each xs body s).
Proof.
  intros Hbody e He.
  destruct (for_each_Raise _ _ _ _ He) as (x & s' & Hx & Hraise).
  by apply (Hbody x s').
Qed.

Lemma parse_float_raises (s : string) : may_raise [ValueError] (parse_float s).
Proof.
  intros e. unfold parse_float.
  repeat case_match; intros [= <-]; pick.
Qed.

Lemma parse_int_raises (s : string) : may_raise [ValueError] (parse_int s).
Proof.
  intros e. unfold parse_int.
  repeat case_match; intros [= <-]; pick.
Qed.

Lemma int_to_float_raises (z : Z) : may_raise [OverflowError] (int_to_float z).
Proof.
  intros e. unfold int_to_float.
  case_match; intros [= <-]; pick.
Qed.

Lemma float_to_int_raises (f : float) :
  may_raise [ValueError; OverflowError] (float_to_int f).
Proof. intros e. destruct f; intros [= <-]; pick. Qed.

Lemma py_float_raises (v : value) :
  may_raise [ValueError; TypeError; OverflowError] (py_float v).
Proof.
  destruct v; simpl; try (apply may_raise_Ok); try (apply may_raise_Raise; pick).
  - eapply may_raise_mono, int_to_float_raises. included.
  - eapply may_raise_mono, int_to_float_raises. included.
  - eapply may_raise_mono, parse_float_raises. included.
Qed.

Lemma py_int_raises (v : value) :
  may_raise [ValueError; TypeError; OverflowError] (py_int v).
Proof.
  destruct v; simpl; try (apply may_raise_Ok); try (apply may_raise_Raise; pick).
  - eapply may_raise_mono, float_to_int_raises. included.
  - eapply may_raise_mono, parse_int_raises. included.
Qed.

Lemma py_get_raises (v : value) (k : string) (dflt : value) :
  may_raise [AttributeError] (py_get v k dflt).
Proof. intros e. destruct v; intros [= <-]; pick. Qed.

Lemma in_conv_types_raises (t : value) : may_raise [TypeError] (in_conv_types t).
Proof. intros e. destruct t; intros [= <-]; pick. Qed.

Lemma py_iter_raises (v : value) : may_raise [TypeError] (py_iter v).
Proof. intros e. destruct v; intros [= <-]; pick. Qed.

Lemma dict_getitem_raises {V} (d : gmap string V) (k : string) :
  may_raise [KeyError] (dict_getitem d k).
Proof. intros e. unfold dict_getitem. case_match; intros [= <-]; pick. Qed.

Lemma lookup_creative_raises (cd : gmap string (gmap string value)) (v : value) :
  may_raise [TypeError] (lookup_creative cd v).
Proof. intros e. destruct v; intros [= <-]; pick. Qed.

(** Division raises [ZeroDivisionError] on a zero divisor and on nothing
    else; its only other exception is [OverflowError]. *)
Lemma long_true_divide_raises (a b : Z) :
  b ≠ 0 → may_raise [OverflowError] (long_true_divide a b).
Proof.
  intros Hb e. unfold long_true_divide.
  repeat case_match; try lia; intros [= <-]; pick.
Qed.

Lemma truediv_raises (x y : number) :
  y ≠ Int 0 → (∀ f, y = Float f → float_truthy f = true) →
  may_raise [OverflowError] (truediv x y).
Proof.
  intros Hy0 Hyf.
  assert (Hfloat : may_raise [OverflowError]
            (a ← as_float x; b ← as_float y; Float <$> float_div a b)).
  { apply may_raise_bind; [destruct x; [apply int_to_float_raises | apply may_raise_Ok]|].
    intros a _. apply may_raise_bind.
    { destruct y; [apply int_to_float_raises | apply may_raise_Ok]. }
    intros b Hb. apply may_raise_fmap. unfold float_div.
    assert (float_truthy b = true) as ->; [|apply may_raise_Ok].
    destruct y as [z|f]; simpl in Hb.
    - apply (int_to_float_nonzero z); [congruence | done].
    - injection Hb as ->. by apply Hyf. }
  destruct x as [a|a], y as [b|b]; try exact Hfloat.
  simpl. apply may_raise_fmap, long_true_divide_raises. congruence.
Qed.

Lemma mul_raises (x y : number) : may_raise [OverflowError] (mul x y).
Proof.
  assert (Has : ∀ n, may_raise [OverflowError] (as_float n)).
  { intros [z|f]; [apply int_to_float_raises | apply may_raise_Ok]. }
  assert (Hfloat : may_raise [OverflowError]
            (a ← as_float x; b ← as_float y; Ok (Float (fmul a b)))).
  { apply may_raise_bind; [apply Has|]. intros a _.
    apply may_raise_bind; [apply Has|]. intros b _. apply may_raise_Ok. }
  destruct x, y; try exact Hfloat. apply may_raise_Ok.
Qed.

(** ** Exceptions of the metric and row functions *)

Definition metric_exns : list exn :=
  [ValueError; TypeError; AttributeError; OverflowError].

(** One statement of a function body: it raises within the allowed
    exceptions, and so does what follows once it has returned [x]. *)
Tactic Notation "step" constr(lem) "as" simple_intropattern(x) :=
  apply may_raise_bind; [eapply may_raise_mono; [|apply lem]; included|]; intros x _.

Lemma add_conversion_raises (a : value) (n : Z) :
  may_raise metric_exns (add_conversion a n).
Proof.
  unfold add_conversion, metric_exns.
  step py_get_raises as t. step in_conv_types_raises as counted.
  destruct counted; [|apply may_raise_Ok].
  step py_get_raises as v. step py_float_raises as f. step float_to_int_raises as k.
  apply may_raise_Ok.
Qed.

Lemma add_conv_value_raises (v : value) (x : float) :
  may_raise metric_exns (add_conv_value v x).
Proof.
  unfold add_conv_value, metric_exns.
  step py_get_raises as t. step in_conv_types_raises as counted.
  destruct counted; [|apply may_raise_Ok].
  step py_get_raises as y. step py_float_raises as f.
  apply may_raise_Ok.
Qed.

Lemma calculate_metrics_raises (ins : gmap string value) :
  may_raise metric_exns (calculate_metrics ins).
Proof.
  unfold calculate_metrics, metric_exns.
  step py_float_raises as spend. step py_iter_raises as acts.
  apply may_raise_bind.
  { apply may_raise_for_each. intros. apply add_conversion_raises. }
  intros conv _. step py_iter_raises as vals.
  apply may_raise_bind.
  { apply may_raise_for_each. intros. apply add_conv_value_raises. }
  intros cv _.
  apply may_raise_bind.
  { destruct (conv =? 0) eqn:Hc; cbn [negb]; [apply may_raise_Ok|].
    eapply may_raise_mono; [|apply truediv_raises]; [included| |done].
    intros [= ->]. done. }
  intros cpa _.
  apply may_raise_bind; [|intros; apply may_raise_Ok].
  destruct (float_truthy spend) eqn:Hs; [|apply may_raise_Ok].
  eapply may_raise_mono; [|apply truediv_raises]; [included|done|].
  by intros f [= <-].
Qed.

Lemma per_impression_raises (num : number) (impr k : Z) :
  may_raise [OverflowError] (per_impression num impr k).
Proof.
  unfold per_impression.
  destruct (impr =? 0) eqn:Hi; cbn [negb]; [apply may_raise_Ok|].
  apply may_raise_bind.
  { apply truediv_raises; [|done]. intros [= ->]. done. }
  intros q _. step mul_raises as p. apply may_raise_Ok.
Qed.

Lemma build_row_raises (cd : gmap string (gmap string value)) (ins : gmap string value) :
  may_raise (KeyError :: metric_exns) (build_row cd ins).
Proof.
  unfold build_row, metric_exns.
  step (@dict_getitem_raises value) as ad. step lookup_creative_raises as c.
  step calculate_metrics_raises as [[[conv cv] cpa] roas].
  step py_int_raises as impr. step py_int_raises as clicks. step py_float_raises as spend.
  step per_impression_raises as ctr. step per_impression_raises as cpm.
  step (@dict_getitem_raises value) as f1. step (@dict_getitem_raises value) as f2.
  step (@dict_getitem_raises value) as f3. step (@dict_getitem_raises value) as f4.
  step (@dict_getitem_raises value) as f5. step (@dict_getitem_raises value) as f6.
  apply may_raise_Ok.
Qed.

Lemma process_creative_data_raises (insights : list (gmap string value))
    (cd : gmap string (gmap string value)) :
  may_raise (KeyError :: metric_exns) (process_creative_data insights cd).
Proof.
  apply may_raise_for_each. intros ins rows _.
  apply may_raise_bind; [apply build_row_raises | intros; apply may_raise_Ok].
Qed.

(** ** One row per insight record *)

Lemma for_each_rows (cd : gmap string (gmap string value))
    (insights : list (gmap string value)) (acc rows : list row) :
  for_each insights (λ ins rows, r ← build_row cd ins; Ok (rows ++ [r])) acc = Ok rows
  ↔ ∃ new, rows = acc ++ new ∧ Forall2 (λ ins r, build_row cd ins = Ok r) insights new.
Proof.
  revert acc. induction insights as [|ins insights IH]; intros acc; simpl.
  - split.
    + intros [= <-]. exists []. by rewrite app_nil_r.
    + intros (new & -> & Hnew). apply Forall2_nil_inv_l in Hnew as ->.
      by rewrite app_nil_r.
  - rewrite bind_Ok. split.
    + intros (acc' & Hrow & Hrest).
      apply bind_Ok in Hrow as (r & Hr & [= <-]).
      apply IH in Hrest as (new & -> & Hnew).
      exists (r :: new). split; [by rewrite <- app_assoc | by constructor].
    + intros (new & -> & Hnew).
      apply Forall2_cons_inv_l in Hnew as (r & new' & Hr & Hnew' & ->).
      exists (acc ++ [r]). split; [by rewrite Hr|].
      apply IH. exists new'. split; [by rewrite <- app_assoc | done].
Qed.

Lemma process_creative_data_Forall2
    (insights : list (gmap string value)) (cd : gmap string (gmap string value))
    (rows : list row) :
  process_creative_data insights cd = Ok rows
  ↔ Forall2 (λ ins r, build_row cd ins = Ok r) insights rows.
Proof.
  unfold process_creative_data. rewrite for_each_rows. split.
  - by intros (new & -> & Hnew).
  - intros Hrows. by exists rows.
Qed.

(** C10. [process_creative_data] returns exactly when every record yields
    a row, and then the result holds the row of each record, one per
    record, in the order of the input: as many rows as records, the [i]-th
    row being the row of the [i]-th record.  Nothing is dropped, duplicated
    or moved. *)
Theorem process_creative_data_one_row_each
    (insights : list (gmap string value)) (cd : gmap string (gmap string value))
    (rows : list row) :
  (process_creative_data insights cd = Ok rows
   ↔ Forall2 (λ ins r, build_row cd ins = Ok r) insights rows)
  ∧ (process_creative_data insights cd = Ok rows →
     length rows = length insights
     ∧ ∀ (i : nat) ins, insights !! i = Some ins →
         ∃ r, rows !! i = Some r ∧ build_row cd ins = Ok r).
Proof.
  split; [apply process_creative_data_Forall2|].
  rewrite process_creative_data_Forall2. intros Hrows. split.
  - symmetry. by eapply Forall2_length.
  - intros i ins Hi.
    destruct (Forall2_lookup_l _ _ _ _ _ Hrows Hi) as (r & Hr & Hbuild).
    by exists r.
Qed.

(** ** What a returned result was computed from *)

Lemma calculate_metrics_Ok (ins : gmap string value)
    (conv : Z) (cv : float) (cpa roas : number) :
  calculate_metrics ins = Ok (conv, cv, cpa, roas) →
  ∃ spend acts vals cpa0 roas0,
    py_float (dict_get ins "spend" (VInt 0)) = Ok spend
    ∧ py_iter (dict_get ins "actions" (VList [])) = Ok acts
    ∧ for_each acts add_conversion 0 = Ok conv
    ∧ py_iter (dict_get ins "action_values" (VList [])) = Ok vals
    ∧ for_each vals add_conv_value (S754_zero false) = Ok cv
    ∧ (if negb (conv =? 0) then truediv (Float spend) (Int conv) else Ok (Int 0)) = Ok cpa0
    ∧ (if float_truthy spend then truediv (Float cv) (Float spend) else Ok (Int 0)) = Ok roas0
    ∧ cpa = round2 cpa0 ∧ roas = round2 roas0.
Proof.
  unfold calculate_metrics. intros H.
  apply bind_Ok in H as (spend & Hspend & H).
  apply bind_Ok in H as (acts & Hacts & H).
  apply bind_Ok in H as (conv' & Hconv & H).
  apply bind_Ok in H as (vals & Hvals & H).
  apply bind_Ok in H as (cv' & Hcv & H).
  apply bind_Ok in H as (cpa0 & Hcpa & H).
  apply bind_Ok in H as (roas0 & Hroas & H).
  injection H as -> -> <- <-.
  by exists spend, acts, vals, cpa0, roas0.
Qed.

Lemma build_row_Ok (cd : gmap string (gmap string value)) (ins : gmap string value)
    (r : row) :
  build_row cd ins = Ok r →
  ∃ c,
    dict_getitem ins "ad_id" = Ok (ad_id r)
    ∧ lookup_creative cd (ad_id r) = Ok c
    ∧ calculate_metrics ins = Ok (conversions r, conversion_value r, cpa r, roas r)
    ∧ py_int (dict_get ins "impressions" (VInt 0)) = Ok (impressions r)
    ∧ py_int (dict_get ins "clicks" (VInt 0)) = Ok (clicks r)
    ∧ py_float (dict_get ins "spend" (VInt 0)) = Ok (spend r)
    ∧ per_impression (Int (clicks r)) (impressions r) 100 = Ok (ctr r)
    ∧ per_impression (Float (spend r)) (impressions r) 1000 = Ok (cpm r)
    ∧ creative_id r = dict_get c "creative_id" VNone
    ∧ creative_name r = dict_get c "creative_name" VNone
    ∧ creative_type r = ctype c
    ∧ image_hash r = dict_get c "image_hash" VNone
    ∧ video_id r = dict_get c "video_id" VNone.
Proof.
  unfold build_row. intros H.
  apply bind_Ok in H as (ad & Had & H).
  apply bind_Ok in H as (c & Hc & H).
  apply bind_Ok in H as ([[[conv cv] cpa0] roas0] & Hm & H).
  apply bind_Ok in H as (impr & Himpr & H).
  apply bind_Ok in H as (clk & Hclk & H).
  apply bind_Ok in H as (sp & Hsp & H).
  apply bind_Ok in H as (ctr0 & Hctr & H).
  apply bind_Ok in H as (cpm0 & Hcpm & H).
  apply bind_Ok in H as (f1 & _ & H).
  apply bind_Ok in H as (f2 & _ & H).
  apply bind_Ok in H as (f3 & _ & H).
  apply bind_Ok in H as (f4 & _ & H).
  apply bind_Ok in H as (f5 & _ & H).
  apply bind_Ok in H as (f6 & _ & H).
  injection H as <-. simpl. by exists c.
Qed.

Lemma dict_getitem_Ok {V} (d : gmap string V) (k : string) (v : V) :
  dict_getitem d k = Ok v → d !! k = Some v.
Proof. unfold dict_getitem. destruct (d !! k); congruence. Qed.

(** A row is built only from a record that has the seven keys read with
    [ins[...]]. *)
Lemma build_row_keys (cd : gmap string (gmap string value)) (ins : gmap string value)
    (r : row) :
  build_row cd ins = Ok r → ∀ k, k ∈ required_keys → is_Some (ins !! k).
Proof.
  unfold build_row. intros H.
  apply bind_Ok in H as (ad & Had%dict_getitem_Ok & H).
  apply bind_Ok in H as (c & _ & H).
  apply bind_Ok in H as ([[[conv cv] cpa0] roas0] & _ & H).
  apply bind_Ok in H as (impr & _ & H).
  apply bind_Ok in H as (clk & _ & H).
  apply bind_Ok in H as (sp & _ & H).
  apply bind_Ok in H as (ctr0 & _ & H).
  apply bind_Ok in H as (cpm0 & _ & H).
  apply bind_Ok in H as (f1 & Hf1%dict_getitem_Ok & H).
  apply bind_Ok in H as (f2 & Hf2%dict_getitem_Ok & H).
  apply bind_Ok in H as (f3 & Hf3%dict_getitem_Ok & H).
  apply bind_Ok in H as (f4 & Hf4%dict_getitem_Ok & H).
  apply bind_Ok in H as (f5 & Hf5%dict_getitem_Ok & H).
  apply bind_Ok in H as (f6 & Hf6%dict_getitem_Ok & _).
  intros k Hk. unfold required_keys in Hk.
  repeat (apply elem_of_cons in Hk as [->|Hk]; [by eexists|]).
  by apply elem_of_nil in Hk.
Qed.

(** The quotient [x / n] of a float by a non-zero int, when it returns. *)
Lemma truediv_float_int (x : float) (n : Z) (q : number) :
  truediv (Float x) (Int n) = Ok q →
  ∃ d, int_to_float n = Ok d ∧ float_truthy d = true ∧ q = Float (fdiv x d).
Proof.
  simpl. intros H.
  apply bind_Ok in H as (d & Hd & H).
  apply fmap_Ok in H as (y & Hy & ->). unfold float_div in Hy.
  destruct (float_truthy d) eqn:Ht; [|done].
  injection Hy as <-. by exists d.
Qed.

(** ** The metric formulas *)

(** C4. [calculate_metrics] never raises [ZeroDivisionError], and when it
    returns: with [conversions > 0] the cpa is [spend / conversions]
    rounded to two decimal places, the divisor [float(conversions)] being
    non-zero; with [conversions = 0] the cpa is [0].  Rounded to two
    decimal places means: the double read from the decimal [n / 100],
    [n] being the integer nearest to a hundred times the exact value of
    the quotient. *)
Theorem cpa_formula (ins : gmap string value) :
  calculate_metrics ins ≠ Raise ZeroDivisionError
  ∧ ∀ conv cv cpa roas,
      calculate_metrics ins = Ok (conv, cv, cpa, roas) →
      ∃ spend,
        py_float (dict_get ins "spend" (VInt 0)) = Ok spend
        ∧ (0 < conv →
           ∃ d c, int_to_float conv = Ok d ∧ float_truthy d = true
                  ∧ cpa = Float c ∧ rounded_to_hundredths (fdiv spend d) c)
        ∧ (conv = 0 → cpa = Int 0).
Proof.
  split.
  { intros Hraise. apply calculate_metrics_raises in Hraise.
    unfold metric_exns in Hraise.
    repeat (apply elem_of_cons in Hraise as [[=]|Hraise]).
    by apply elem_of_nil in Hraise. }
  intros conv cv cpa roas H.
  apply calculate_metrics_Ok in H
    as (spend & acts & vals & cpa0 & roas0 & Hs & _ & _ & _ & _ & Hcpa & _ & -> & _).
  exists spend. split; [done|]. split.
  - intros Hpos.
    assert ((conv =? 0) = false) as Hz by lia.
    rewrite Hz in Hcpa. cbn [negb] in Hcpa.
    apply truediv_float_int in Hcpa as (d & Hd & Ht & ->).
    exists d, (float_round2 (fdiv spend d)).
    split; [exact Hd|]. split; [exact Ht|]. split; [reflexivity|].
    apply float_round2_rounded.
  - intros ->. simpl in Hcpa. by injection Hcpa as <-.
Qed.

(** C5. When [calculate_metrics] returns: with [spend > 0] the roas is
    [conversion_value / spend] rounded to two decimal places (the double
    read from the decimal [n / 100], [n] being the integer nearest to a
    hundred times the exact value of the quotient); with [spend = 0]
    (either zero) it is [0]. *)
Theorem roas_formula (ins : gmap string value) (conv : Z) (cv : float)
    (cpa roas : number) :
  calculate_metrics ins = Ok (conv, cv, cpa, roas) →
  ∃ spend,
    py_float (dict_get ins "spend" (VInt 0)) = Ok spend
    ∧ (float_pos spend = true →
       ∃ c, roas = Float c ∧ rounded_to_hundredths (fdiv cv spend) c)
    ∧ (float_truthy spend = false → roas = Int 0).
Proof.
  intros H.
  apply calculate_metrics_Ok in H
    as (spend & acts & vals & cpa0 & roas0 & Hs & _ & _ & _ & _ & _ & Hroas & _ & ->).
  exists spend. split; [done|]. split.
  - intros Hpos.
    assert (float_truthy spend = true) as Ht by by destruct spend as [| [] | | []].
    rewrite Ht in Hroas. simpl in Hroas. unfold float_div in Hroas.
    rewrite Ht in Hroas. injection Hroas as <-.
    exists (float_round2 (fdiv cv spend)). split; [reflexivity|].
    apply float_round2_rounded.
  - intros Hz. rewrite Hz in Hroas. by injection Hroas as <-.
Qed.




(** ** The creative type *)

Lemma ctype_cases (c : gmap string value) :
  (truthy (dict_get c "has_video" VNone) = true → ctype c = "Video")
  ∧ (truthy (dict_get c "has_video" VNone) = false →
     truthy (dict_get c "has_image" VNone) = true → ctype c = "Image")
  ∧ (truthy (dict_get c "has_video" VNone) = false →
     truthy (dict_get c "has_image" VNone) = false → ctype c = "Unknown").
Proof.
  unfold ctype. repeat split.
  - by intros ->.
  - by intros -> ->.
  - by intros -> ->.
Qed.

(** The meta dict stored by [get_ad_creatives_details] carries the flags
    as booleans: the tag is decided by [video_id], then by [image_hash]. *)
Lemma ctype_creative_meta (c : gmap string value) :
  ctype (creative_meta c) =
    if truthy (dict_get c "video_id" VNone) then "Video"
    else if truthy (dict_get c "image_hash" VNone) then "Image"
    else "Unknown".
Proof. reflexivity. Qed.

Lemma lookup_creative_absent (cd : gmap string (gmap string value))
    (ad : value) (c : gmap string value) :
  lookup_creative cd ad = Ok c →
  (∀ a, ad = VStr a → cd !! a = None) →
  c = ∅.
Proof.
  destruct ad as [| | | |a| |]; simpl; try congruence.
  intros [= <-] Habsent. unfold dict_get. by rewrite (Habsent a).
Qed.

(** C7. In the row built for a record whose [ad_id] has the creative meta
    [c] in the lookup, the creative type is "Video" when [has_video] is
    true, whatever [has_image]; else "Image" when [has_image] is true;
    else "Unknown".  When the [ad_id] is absent from the lookup, the row's
    [creative_id] is [None] and its creative type "Unknown". *)
Theorem creative_type_priority (cd : gmap string (gmap string value))
    (ins : gmap string value) (r : row) :
  build_row cd ins = Ok r →
  (∀ a c, ad_id r = VStr a → cd !! a = Some c →
     (truthy (dict_get c "has_video" VNone) = true → creative_type r = "Video")
     ∧ (truthy (dict_get c "has_video" VNone) = false →
        truthy (dict_get c "has_image" VNone) = true → creative_type r = "Image")
     ∧ (truthy (dict_get c "has_video" VNone) = false →
        truthy (dict_get c "has_image" VNone) = false → creative_type r = "Unknown"))
  ∧ ((∀ a, ad_id r = VStr a → cd !! a = None) →
     creative_id r = VNone ∧ creative_type r = "Unknown").
Proof.
  intros H.
  apply build_row_Ok in H
    as (c0 & _ & Hc & _ & _ & _ & _ & _ & _ & Hid & _ & Hty & _).
  split.
  - intros a c Ha Hlook. rewrite Ha in Hc. simpl in Hc.
    unfold dict_get in Hc at 1. rewrite Hlook in Hc. injection Hc as <-.
    rewrite Hty. apply ctype_cases.
  - intros Habsent.
    rewrite (lookup_creative_absent _ _ _ Hc Habsent) in Hid, Hty.
    by rewrite Hid, Hty.
Qed.

(** ** Conversions as a filtered sum *)

Lemma in_conv_types_counted (d : gmap string value) (b : bool) :
  in_conv_types (dict_get d "action_type" VNone) = Ok b → counted (VDict d) = b.
Proof.
  simpl. destruct (dict_get d "action_type" VNone); simpl; congruence.
Qed.




(** The conversion value is the matching sum of floats, added in the order
    of the entries from [0.0]. *)
Lemma add_conv_value_Ok (v : value) (acc y : float) :
  add_conv_value v acc = Ok y →
  (counted v = true ∧ ∃ f, entry_value v = Ok f ∧ y = fadd acc f)
  ∨ (counted v = false ∧ y = acc).
Proof.
  unfold add_conv_value. intros H.
  apply bind_Ok in H as (t & Ht & H).
  apply bind_Ok in H as (b & Hb & H).
  destruct v as [| | | | | |d]; try discriminate Ht.
  injection Ht as <-. apply in_conv_types_counted in Hb.
  destruct b.
  - left. split; [done|].
    apply bind_Ok in H as (x & Hx & H).
    apply bind_Ok in H as (f & Hf & [= <-]).
    exists f. split; [|done].
    unfold entry_value. rewrite Hx. simpl. by rewrite Hf.
  - right. by injection H as <-.
Qed.

Lemma for_each_add_conv_value (vals : list value) (acc y : float) :
  for_each vals add_conv_value acc = Ok y →
  ∃ fs, Forall2 (λ v f, entry_value v = Ok f) (filter (λ v, counted v = true) vals) fs
        ∧ y = foldl fadd acc fs.
Proof.
  revert acc. induction vals as [|v vals IH]; intros acc; simpl.
  - intros [= <-]. exists []. split; [constructor | done].
  - intros H. apply bind_Ok in H as (acc' & Hv & Hrest).
    apply IH in Hrest as (fs & Hfs & ->).
    apply add_conv_value_Ok in Hv as [(Hc & f & Hf & ->) | (Hc & ->)].
    + exists (f :: fs). rewrite filter_cons_True by done.
      split; [by constructor | done].
    + exists fs. rewrite filter_cons_False by congruence. done.
Qed.

Lemma conversion_value_sum (ins : gmap string value) (conv : Z) (cv : float)
    (cpa roas : number) :
  calculate_metrics ins = Ok (conv, cv, cpa, roas) →
  ∃ vals fs,
    py_iter (dict_get ins "action_values" (VList [])) = Ok vals
    ∧ Forall2 (λ v f, entry_value v = Ok f) (filter (λ v, counted v = true) vals) fs
    ∧ cv = sum_float fs.
Proof.
  intros H.
  apply calculate_metrics_Ok in H
    as (spend & acts & vals & cpa0 & roas0 & _ & _ & _ & Hvals & Hcv & _).
  apply for_each_add_conv_value in Hcv as (fs & Hfs & ->).
  by exists vals, fs.
Qed.

(** The five conversion types, and no other string, are counted. *)
Lemma counted_types (d : gmap string value) (s : string) :
  d !! "action_type" = Some (VStr s) →
  counted (VDict d) = true
  ↔ s = "purchase" ∨ s = "lead" ∨ s = "complete_registration"
    ∨ s = "add_to_cart" ∨ s = "initiate_checkout".
Proof.
  intros Hs. simpl. unfold dict_get. rewrite Hs. simpl.
  rewrite bool_decide_eq_true. unfold conv_types.
  rewrite !elem_of_union, !elem_of_singleton. tauto.
Qed.

(** ** Sorting by insertion meets the interface of the sort *)

Lemma insert_desc_perm (r : row) (df : list row) : insert_desc r df ≡ₚ r :: df.
Proof.
  induction df as [|r' df IH]; simpl; [done|].
  destruct (desc_na_lastb (spend r) (spend r')); [done|].
  rewrite IH. apply Permutation_swap.
Qed.

Lemma insert_desc_sorted (r : row) (df : list row) :
  StronglySorted (λ r1 r2, desc_na_last (spend r1) (spend r2)) df →
  StronglySorted (λ r1 r2, desc_na_last (spend r1) (spend r2)) (insert_desc r df).
Proof.
  induction df as [|r' df IH]; simpl; intros Hdf.
  - repeat constructor.
  - apply StronglySorted_inv in Hdf as [Hdf Hr'].
    destruct (desc_na_lastb (spend r) (spend r')) eqn:Hcmp.
    + apply desc_na_lastb_spec in Hcmp.
      constructor; [by constructor|].
      constructor; [done|].
      eapply Forall_impl; [exact Hr'|]. simpl. intros x Hx.
      by eapply desc_na_last_trans.
    + constructor; [by apply IH|].
      rewrite insert_desc_perm. constructor; [|done].
      destruct (desc_na_last_total (spend r) (spend r')) as [Habove|Hbelow]; [|done].
      apply desc_na_lastb_spec in Habove. congruence.
Qed.

Lemma insertion_sort_perm (df : list row) : insertion_sort df ≡ₚ df.
Proof.
  induction df as [|r df IH]; simpl; [done|].
  unfold insertion_sort in *. simpl. by rewrite insert_desc_perm, IH.
Qed.

Lemma insertion_sort_sorted (df : list row) :
  StronglySorted (λ r1 r2, desc_na_last (spend r1) (spend r2)) (insertion_sort df).
Proof.
  induction df as [|r df IH]; [constructor|].
  by apply insert_desc_sorted.
Qed.

(** The sort that keeps ties in place, as an implementation of the interface. *)
Definition stable_SortValues : SortValues :=
  {| sort_values := insertion_sort;
     sort_values_perm := insertion_sort_perm;
     sort_values_sorted := insertion_sort_sorted |}.

Lemma StronglySorted_positions {A} (R : relation A) (l : list A) (i j : nat) (x y : A) :
  StronglySorted R l → (i < j)%nat → l !! i = Some x → l !! j = Some y → R x y.
Proof.
  intros Hl. revert i j. induction Hl as [|a l Hl IH Ha]; intros i j Hij Hi Hj; [done|].
  destruct j as [|j]; [lia|]. simpl in Hj.
  destruct i as [|i]; simpl in Hi.
  - injection Hi as <-. rewrite Forall_forall in Ha.
    apply Ha. by eapply list_elem_of_lookup_2.
  - apply (IH i j); [lia|done..].
Qed.

(** ** The export *)

Section SortedExport.
Context `{SortValues}.

Lemma save_to_csv_cons (r : row) (rows : list row) (path : string) :
  save_to_csv (r :: rows) path =
    ToCsv (sort_values (r :: rows)) path
      (Print {| saved_path := path;
                saved_rows := length (sort_values (r :: rows));
                saved_spend := spend <$> sort_values (r :: rows) |}
         (Return true)).
Proof. reflexivity. Qed.

(** What the interface of the sort gives for the written frame.  A
    non-empty report is written as one frame that holds the same rows,
    ordered by spend descending: for all positions [i < j] of the written
    frame, the spend of row [i] is greater than or equal to that of row
    [j], unless the spend of row [j] is NaN (such rows come last). *)
Lemma save_to_csv_descending (rows : list row) (path : string) :
  rows ≠ [] →
  ∃ df k,
    save_to_csv rows path = ToCsv df path k
    ∧ writes k = []
    ∧ df ≡ₚ rows
    ∧ ∀ (i j : nat) ri rj,
        (i < j)%nat → df !! i = Some ri → df !! j = Some rj →
        float_le (spend rj) (spend ri) ∨ is_nan (spend rj) = true.
Proof.
  intros Hrows. destruct rows as [|r rows]; [done|].
  eexists _, _. split; [apply save_to_csv_cons|].
  split; [done|]. split; [apply sort_values_perm|].
  intros i j ri rj Hij Hi Hj.
  pose proof (StronglySorted_positions _ _ i j ri rj
                (sort_values_sorted (r :: rows)) Hij Hi Hj) as [Hnan|Hle];
    [by right | by left].
Qed.

(** C8. No insight gives the empty report, not an error.  Exporting the
    empty report returns [False] and writes nothing: no world is changed
    by it.  Exporting a report with at least one row first writes all its
    rows to the path, to that path only: if the write goes through the file
    holds them and the result is [True]; if it fails the error surfaces. *)
Theorem empty_report_skips_the_write (cd : gmap string (gmap string value))
    (path : string) (writable : string → bool) (w : world) :
  process_creative_data [] cd = Ok []
  ∧ save_to_csv [] path = Return false
  ∧ writes (save_to_csv [] path) = []
  ∧ run writable (save_to_csv [] path) w = (w, Ok false)
  ∧ ∀ r rows,
      ∃ df k,
        save_to_csv (r :: rows) path = ToCsv df path k
        ∧ df ≡ₚ r :: rows
        ∧ writes (save_to_csv (r :: rows) path) = [path]
        ∧ (writable path = true →
           ∃ w', run writable (save_to_csv (r :: rows) path) w = (w', Ok true)
                 ∧ files w' !! path = Some df)
        ∧ (writable path = false →
           run writable (save_to_csv (r :: rows) path) w = (w, Raise OSError)).
Proof.
  repeat split; try done.
  intros r rows. eexists _, _. split; [apply save_to_csv_cons|].
  split; [apply sort_values_perm|]. split; [done|]. split.
  - intros Hw. rewrite save_to_csv_cons. simpl. rewrite Hw.
    eexists. split; [done|]. simpl. apply lookup_insert_eq.
  - intros Hw. rewrite save_to_csv_cons. simpl. by rewrite Hw.
Qed.

End SortedExport.

(** ** When the functions return *)

Lemma overflow_above_counts : COUNT_MAX * COUNT_MAX < DBL_OVERFLOW.
Proof. reflexivity. Qed.

Lemma COUNT_MAX_pos : 0 < COUNT_MAX.
Proof. reflexivity. Qed.

Lemma int_to_float_Ok (z : Z) :
  Z.abs z < DBL_OVERFLOW → ∃ f, int_to_float z = Ok f.
Proof.
  intros Hz. unfold int_to_float.
  assert ((Z.abs z <? DBL_OVERFLOW) = true) as -> by lia. by eexists.
Qed.

Lemma truediv_int_Ok (x : number) (n : Z) :
  n ≠ 0 → Z.abs n < DBL_OVERFLOW →
  (∀ a, x = Int a → Z.abs a < DBL_OVERFLOW) →
  ∃ q, truediv x (Int n) = Ok (Float q).
Proof.
  intros Hn Hbound Hx. destruct x as [a|f]; simpl.
  - specialize (Hx a eq_refl). unfold long_true_divide.
    destruct n as [|n|n]; [done|..]; destruct a as [|a|a]; try by eexists.
    all: assert ((DBL_OVERFLOW * Z.abs _ <=? Z.abs _) = false) as ->
           by (apply Z.leb_gt; nia).
    all: by eexists.
  - destruct (int_to_float_Ok n Hbound) as [d Hd]. rewrite Hd. simpl.
    unfold float_div. rewrite (int_to_float_nonzero n d Hn Hd). by eexists.
Qed.

Lemma mul_float_int_Ok (q : float) (k : Z) :
  Z.abs k < DBL_OVERFLOW → ∃ p, mul (Float q) (Int k) = Ok (Float p).
Proof.
  intros Hk. simpl. destruct (int_to_float_Ok k Hk) as [d ->]. by eexists.
Qed.

Lemma per_impression_Ok (num : number) (impr k : Z) :
  Z.abs impr < DBL_OVERFLOW → Z.abs k < DBL_OVERFLOW →
  (∀ a, num = Int a → Z.abs a < DBL_OVERFLOW) →
  ∃ x, per_impression num impr k = Ok x.
Proof.
  intros Himpr Hk Hnum. unfold per_impression.
  destruct (impr =? 0) eqn:Hz; cbn [negb]; [by eexists|].
  destruct (truediv_int_Ok num impr) as [q ->]; [lia|done|done|].
  cbn [mbind result_bind].
  destruct (mul_float_int_Ok q k Hk) as [p ->]. by eexists.
Qed.

(** A row is built as soon as its parts are. *)
Lemma build_row_returns (cd : gmap string (gmap string value)) (ins : gmap string value)
    (ad : value) (c : gmap string value) (conv : Z) (cv : float) (cpa0 roas0 : number)
    (impr clk : Z) (sp : float) (ctr0 cpm0 : number) :
  (∀ k, k ∈ required_keys → is_Some (ins !! k)) →
  ins !! "ad_id" = Some ad →
  lookup_creative cd ad = Ok c →
  calculate_metrics ins = Ok (conv, cv, cpa0, roas0) →
  py_int (dict_get ins "impressions" (VInt 0)) = Ok impr →
  py_int (dict_get ins "clicks" (VInt 0)) = Ok clk →
  py_float (dict_get ins "spend" (VInt 0)) = Ok sp →
  per_impression (Int clk) impr 100 = Ok ctr0 →
  per_impression (Float sp) impr 1000 = Ok cpm0 →
  ∃ r, build_row cd ins = Ok r
       ∧ ad_id r = ad ∧ creative_id r = dict_get c "creative_id" VNone
       ∧ creative_type r = ctype c
       ∧ spend r = sp ∧ impressions r = impr ∧ clicks r = clk
       ∧ conversions r = conv ∧ conversion_value r = cv
       ∧ cpa r = cpa0 ∧ roas r = roas0 ∧ ctr r = ctr0 ∧ cpm r = cpm0.
Proof.
  intros Hreq Had Hc Hm Himpr Hclk Hsp Hctr Hcpm.
  destruct (Hreq "date_start") as [f1 Hf1]; [pick|].
  destruct (Hreq "campaign_id") as [f2 Hf2]; [pick|].
  destruct (Hreq "campaign_name") as [f3 Hf3]; [pick|].
  destruct (Hreq "adset_id") as [f4 Hf4]; [pick|].
  destruct (Hreq "adset_name") as [f5 Hf5]; [pick|].
  destruct (Hreq "ad_name") as [f6 Hf6]; [pick|].
  unfold build_row, dict_getitem.
  rewrite Had, Hf1, Hf2, Hf3, Hf4, Hf5, Hf6. cbn [mbind result_bind].
  rewrite Hc. cbn [mbind result_bind].
  rewrite Hm. cbn [mbind result_bind].
  rewrite Himpr. cbn [mbind result_bind].
  rewrite Hclk. cbn [mbind result_bind].
  rewrite Hsp. cbn [mbind result_bind].
  rewrite Hctr. cbn [mbind result_bind].
  rewrite Hcpm. cbn [mbind result_bind].
  eexists. split; [reflexivity|]. simpl. repeat split.
Qed.

Lemma lookup_creative_Ok (cd : gmap string (gmap string value)) (ad : value) :
  hashable ad = true → ∃ c, lookup_creative cd ad = Ok c.
Proof. destruct ad; simpl; try done; by eexists. Qed.

(** ** The first end-to-end scenario *)

(** C9. A record with impressions 1000, clicks 20, spend 50.00 (numerals
    given as numbers or as strings), actions [purchase "2"] and action
    values [purchase "150.00"] has conversions 2, conversion value 150.0,
    cpa 25.0 and roas 3.0; and once it carries its identification fields,
    the row built for it has these together with ctr 2.0 and cpm 50.0. *)
Theorem scenario_1_metrics (cd : gmap string (gmap string value))
    (ins : gmap string value) :
  ins !! "impressions" = Some (VInt 1000) ∨ ins !! "impressions" = Some (VStr "1000") →
  ins !! "clicks" = Some (VInt 20) ∨ ins !! "clicks" = Some (VStr "20") →
  ins !! "spend" = Some (VFloat (float_lit "50.00")) ∨ ins !! "spend" = Some (VStr "50.00") →
  ins !! "actions" = Some (VList [action "purchase" "2"]) →
  ins !! "action_values" = Some (VList [action "purchase" "150.00"]) →
  calculate_metrics ins
    = Ok (2, float_lit "150.0", Float (float_lit "25.0"), Float (float_lit "3.0"))
  ∧ ((∀ k, k ∈ required_keys → is_Some (ins !! k)) →
     hashable (dict_get ins "ad_id" VNone) = true →
     ∃ r, process_creative_data [ins] cd = Ok [r]
          ∧ ctr r = Float (float_lit "2.0") ∧ cpm r = Float (float_lit "50.0")
          ∧ conversions r = 2 ∧ conversion_value r = float_lit "150.0"
          ∧ cpa r = Float (float_lit "25.0") ∧ roas r = Float (float_lit "3.0")).
Proof.
  intros Himpr Hclk Hsp Hact Hval.
  assert (Hspend : py_float (dict_get ins "spend" (VInt 0)) = Ok (float_lit "50.00")).
  { unfold dict_get. by destruct Hsp as [-> | ->]. }
  assert (Hm : calculate_metrics ins
    = Ok (2, float_lit "150.0", Float (float_lit "25.0"), Float (float_lit "3.0"))).
  { unfold calculate_metrics. rewrite Hspend. unfold dict_get. rewrite Hact, Hval.
    vm_compute. reflexivity. }
  split; [exact Hm|]. intros Hreq Hhash.
  destruct (Hreq "ad_id") as [ad Had]; [pick|].
  unfold dict_get in Hhash. rewrite Had in Hhash. simpl in Hhash.
  destruct (lookup_creative_Ok cd ad Hhash) as [c Hc].
  assert (Hi : py_int (dict_get ins "impressions" (VInt 0)) = Ok 1000).
  { unfold dict_get. by destruct Himpr as [-> | ->]. }
  assert (Hk : py_int (dict_get ins "clicks" (VInt 0)) = Ok 20).
  { unfold dict_get. by destruct Hclk as [-> | ->]. }
  assert (Hctr : per_impression (Int 20) 1000 100 = Ok (Float (float_lit "2.0")))
    by (vm_compute; reflexivity).
  assert (Hcpm : per_impression (Float (float_lit "50.00")) 1000 1000
                 = Ok (Float (float_lit "50.0")))
    by (vm_compute; reflexivity).
  destruct (build_row_returns cd ins ad c _ _ _ _ _ _ _ _ _
              Hreq Had Hc Hm Hi Hk Hspend Hctr Hcpm)
    as (r & Hr & _ & _ & _ & _ & _ & _ & Hconv & Hcv & Hcpa & Hroas & Hctr' & Hcpm').
  exists r. split.
  { unfold process_creative_data. simpl. by rewrite Hr. }
  repeat (split; [assumption|]). assumption.
Qed.

(** The identification fields are all there when a scan of the record
    finds them. *)
Lemma required_keys_present (ins : gmap string value) :
  forallb (λ k, bool_decide (is_Some (ins !! k))) required_keys = true →
  ∀ k, k ∈ required_keys → is_Some (ins !! k).
Proof.
  intros Hkeys k Hk. rewrite forallb_forall in Hkeys.
  apply list_elem_of_In in Hk. apply Hkeys in Hk. by apply bool_decide_eq_true in Hk.
Qed.

(** The scenario's record, as sent by the endpoint, through the pipeline. *)
Lemma scenario_1_metrics_witness :
  calculate_metrics scenario_1
    = Ok (2, float_lit "150.0", Float (float_lit "25.0"), Float (float_lit "3.0"))
  ∧ ∃ r, process_creative_data [scenario_1] one_video = Ok [r]
         ∧ ctr r = Float (float_lit "2.0") ∧ cpm r = Float (float_lit "50.0")
         ∧ conversions r = 2 ∧ conversion_value r = float_lit "150.0"
         ∧ cpa r = Float (float_lit "25.0") ∧ roas r = Float (float_lit "3.0").
Proof.
  destruct (scenario_1_metrics one_video scenario_1) as [Hm Hrow].
  - right. vm_compute. reflexivity.
  - right. vm_compute. reflexivity.
  - right. vm_compute. reflexivity.
  - vm_compute. reflexivity.
  - vm_compute. reflexivity.
  - split; [exact Hm|]. apply Hrow.
    + apply required_keys_present. vm_compute. reflexivity.
    + vm_compute. reflexivity.
Defined.

(** ** Well-formed records never raise *)

Lemma in_conv_types_hashable (d : gmap string value) :
  hashable (dict_get d "action_type" VNone) = true →
  in_conv_types (dict_get d "action_type" VNone) = Ok (counted (VDict d)).
Proof. simpl. by destruct (dict_get d "action_type" VNone). Qed.

Lemma add_conversion_entry_ok (a : value) (acc : Z) :
  entry_ok conversion_ok a = true →
  ∃ k, add_conversion a acc = Ok (acc + k) ∧ Z.abs k < COUNT_MAX.
Proof.
  destruct a as [| | | | | |d]; try done.
  unfold entry_ok. rewrite andb_true_iff, orb_true_iff, negb_true_iff.
  intros [Hhash Hvalue]. unfold add_conversion. cbn [py_get mbind result_bind].
  rewrite (in_conv_types_hashable d Hhash). cbn [mbind result_bind].
  destruct (counted (VDict d)) eqn:Hcounted.
  - destruct Hvalue as [|Hvalue]; [done|]. unfold conversion_ok in Hvalue.
    destruct (py_float _) as [f|]; [|done]. cbn [mbind result_bind].
    destruct (float_to_int f) as [k|]; [|done]. cbn [mbind result_bind].
    exists k. split; [done|]. lia.
  - exists 0. pose proof COUNT_MAX_pos. split; [by rewrite Z.add_0_r | lia].
Qed.

Lemma for_each_add_conversion_Ok (l : list value) (acc : Z) :
  forallb (entry_ok conversion_ok) l = true →
  ∃ n, for_each l add_conversion acc = Ok n
       ∧ Z.abs (n - acc) ≤ Z.of_nat (length l) * COUNT_MAX.
Proof.
  revert acc. induction l as [|a l IH]; intros acc; simpl.
  - intros _. exists acc. split; [done|lia].
  - rewrite andb_true_iff. intros [Ha Hl].
    destruct (add_conversion_entry_ok a acc Ha) as (k & -> & Hk).
    cbn [mbind result_bind].
    destruct (IH (acc + k) Hl) as (n & -> & Hn).
    exists n. split; [done|]. lia.
Qed.

Lemma add_conv_value_entry_ok (a : value) (x : float) :
  entry_ok float_ok a = true → ∃ y, add_conv_value a x = Ok y.
Proof.
  destruct a as [| | | | | |d]; try done.
  unfold entry_ok. rewrite andb_true_iff, orb_true_iff, negb_true_iff.
  intros [Hhash Hvalue]. unfold add_conv_value. cbn [py_get mbind result_bind].
  rewrite (in_conv_types_hashable d Hhash). cbn [mbind result_bind].
  destruct (counted (VDict d)) eqn:Hcounted; [|by eexists].
  destruct Hvalue as [|Hvalue]; [done|]. unfold float_ok in Hvalue.
  destruct (py_float _) as [f|]; [|done]. by eexists.
Qed.

Lemma for_each_add_conv_value_Ok (l : list value) (x : float) :
  forallb (entry_ok float_ok) l = true → ∃ y, for_each l add_conv_value x = Ok y.
Proof.
  revert x. induction l as [|a l IH]; intros x; simpl.
  - intros _. by exists x.
  - rewrite andb_true_iff. intros [Ha Hl].
    destruct (add_conv_value_entry_ok a x Ha) as (y & ->).
    cbn [mbind result_bind]. by apply IH.
Qed.

Lemma entries_ok_list (value_ok : value → bool) (v : value) :
  entries_ok value_ok v = true →
  ∃ l, v = VList l ∧ forallb (entry_ok value_ok) l = true
       ∧ Z.of_nat (length l) < COUNT_MAX.
Proof.
  destruct v as [| | | | |l|]; try done. simpl.
  rewrite andb_true_iff. intros [Hl Hlen]. exists l. repeat split; [done|lia].
Qed.

Lemma calculate_metrics_returns (ins : gmap string value) :
  metric_fields_ok ins = true →
  ∃ conv cv cpa roas, calculate_metrics ins = Ok (conv, cv, cpa, roas).
Proof.
  unfold metric_fields_ok. rewrite !andb_true_iff. intros [[Hspend Hacts] Hvals].
  apply is_ok_Ok in Hspend as [spend Hspend].
  apply entries_ok_list in Hacts as (acts & Hacts & Hacts_ok & Hlen).
  apply entries_ok_list in Hvals as (vals & Hvals & Hvals_ok & _).
  destruct (for_each_add_conversion_Ok acts 0 Hacts_ok) as (conv & Hconv & Hbound).
  destruct (for_each_add_conv_value_Ok vals (S754_zero false) Hvals_ok) as (cv & Hcv).
  assert (Hcpa : ∃ cpa0, (if negb (conv =? 0) then truediv (Float spend) (Int conv)
                          else Ok (Int 0)) = Ok cpa0).
  { destruct (conv =? 0) eqn:Hz; cbn [negb]; [by eexists|].
    destruct (truediv_int_Ok (Float spend) conv) as [q ->]; [lia| |done|by eexists].
    pose proof overflow_above_counts. pose proof COUNT_MAX_pos. nia. }
  assert (Hroas : ∃ roas0, (if float_truthy spend then truediv (Float cv) (Float spend)
                            else Ok (Int 0)) = Ok roas0).
  { destruct (float_truthy spend) eqn:Ht; [|by eexists].
    simpl. unfold float_div. rewrite Ht. by eexists. }
  destruct Hcpa as [cpa0 Hcpa]. destruct Hroas as [roas0 Hroas].
  exists conv, cv, (round2 cpa0), (round2 roas0).
  unfold calculate_metrics. rewrite Hspend. cbn [mbind result_bind].
  rewrite Hacts, Hvals. cbn [py_iter mbind result_bind].
  rewrite Hconv. cbn [mbind result_bind].
  rewrite Hcv. cbn [mbind result_bind].
  rewrite Hcpa. cbn [mbind result_bind].
  rewrite Hroas. done.
Qed.

Lemma count_ok_Ok (v : value) :
  count_ok v = true → ∃ n, py_int v = Ok n ∧ Z.abs n < COUNT_MAX.
Proof.
  unfold count_ok. destruct (py_int v) as [n|]; [|done].
  intros Hn. exists n. split; [done|lia].
Qed.

Lemma build_row_well_formed (cd : gmap string (gmap string value))
    (ins : gmap string value) :
  well_formed ins = true → ∃ r, build_row cd ins = Ok r.
Proof.
  unfold well_formed. rewrite !andb_true_iff.
  intros [[[[Hkeys Hhash] Hmetric] Himpr] Hclk].
  pose proof (required_keys_present ins Hkeys) as Hreq.
  destruct (Hreq "ad_id") as [ad Had]; [pick|].
  unfold dict_get in Hhash at 1. rewrite Had in Hhash. simpl in Hhash.
  destruct (lookup_creative_Ok cd ad Hhash) as [c Hc].
  destruct (calculate_metrics_returns ins Hmetric) as (conv & cv & cpa0 & roas0 & Hm).
  apply count_ok_Ok in Himpr as (impr & Himpr & Himpr_lt).
  apply count_ok_Ok in Hclk as (clk & Hclk & Hclk_lt).
  unfold metric_fields_ok in Hmetric. rewrite !andb_true_iff in Hmetric.
  destruct Hmetric as [[Hsp _] _]. apply is_ok_Ok in Hsp as [sp Hsp].
  pose proof overflow_above_counts as Hover. pose proof COUNT_MAX_pos as Hpos.
  assert (Hsmall : ∀ z, Z.abs z < COUNT_MAX → Z.abs z < DBL_OVERFLOW) by (intros; nia).
  destruct (per_impression_Ok (Int clk) impr 100) as [ctr0 Hctr];
    [by apply Hsmall | done | by intros a [= <-]; apply Hsmall |].
  destruct (per_impression_Ok (Float sp) impr 1000) as [cpm0 Hcpm];
    [by apply Hsmall | done | done |].
  destruct (build_row_returns cd ins ad c conv cv cpa0 roas0 impr clk sp ctr0 cpm0)
    as (r & Hr & _); try done.
  by exists r.
Qed.

Lemma dict_get_absent {V} (d : gmap string V) (k : string) (dflt : V) :
  d !! k = None → dict_get d k dflt = dflt.
Proof. unfold dict_get. by intros ->. Qed.

(** C1, as far as it holds.  On records that carry the seven
    identification fields with a hashable [ad_id], and whose spend,
    impressions, clicks, actions and action values, where present, hold
    numerals and lists of well-formed entries, [calculate_metrics] and
    [process_creative_data] return without raising.  In every row built,
    an absent impressions, clicks or spend field reads as 0, an absent
    actions list gives 0 conversions and an absent action values list the
    conversion value 0.0; and a row is built only from a record that has
    the seven identification fields. *)
Theorem well_formed_records_never_raise (insights : list (gmap string value))
    (cd : gmap string (gmap string value)) :
  Forall (λ ins, well_formed ins = true) insights →
  (∃ rows, process_creative_data insights cd = Ok rows)
  ∧ Forall (λ ins, ∃ conv cv cpa roas,
              calculate_metrics ins = Ok (conv, cv, cpa, roas)) insights
  ∧ ∀ ins r, build_row cd ins = Ok r →
      (ins !! "impressions" = None → impressions r = 0)
      ∧ (ins !! "clicks" = None → clicks r = 0)
      ∧ (ins !! "spend" = None → spend r = S754_zero false)
      ∧ (ins !! "actions" = None → conversions r = 0)
      ∧ (ins !! "action_values" = None → conversion_value r = S754_zero false)
      ∧ (∀ k, k ∈ required_keys → is_Some (ins !! k)).
Proof.
  intros Hwf. split; [|split].
  - assert (∃ rows, Forall2 (λ ins r, build_row cd ins = Ok r) insights rows)
      as [rows Hrows].
    { induction Hwf as [|ins insights Hins _ [rows IH]]; [by exists []|].
      destruct (build_row_well_formed cd ins Hins) as [r Hr].
      exists (r :: rows). by constructor. }
    exists rows. by apply process_creative_data_Forall2.
  - eapply Forall_impl; [exact Hwf|]. simpl. intros ins Hins.
    apply calculate_metrics_returns.
    unfold well_formed in Hins. rewrite !andb_true_iff in Hins. tauto.
  - intros ins r Hr. pose proof (build_row_keys cd ins r Hr) as Hkeys.
    apply build_row_Ok in Hr as (c & _ & _ & Hm & Himpr & Hclk & Hsp & _).
    apply calculate_metrics_Ok in Hm
      as (spend & acts & vals & cpa0 & roas0 & _ & Hacts & Hconv & Hvals & Hcv & _).
    repeat split; [| | | | |exact Hkeys]; intros Habsent.
    + rewrite (dict_get_absent _ _ _ Habsent) in Himpr. by injection Himpr.
    + rewrite (dict_get_absent _ _ _ Habsent) in Hclk. by injection Hclk.
    + rewrite (dict_get_absent _ _ _ Habsent) in Hsp. by injection Hsp.
    + rewrite (dict_get_absent _ _ _ Habsent) in Hacts. injection Hacts as <-.
      by injection Hconv.
    + rewrite (dict_get_absent _ _ _ Habsent) in Hvals. injection Hvals as <-.
      by injection Hcv.
Qed.

(** C1 fails as stated: a record without [ad_id] makes
    [process_creative_data] raise [KeyError], and a spend that is not a
    numeral makes both functions raise [ValueError]. *)
Lemma malformed_records_raise :
  process_creative_data [no_ad_id] ∅ = Raise KeyError
  ∧ calculate_metrics bad_spend = Raise ValueError
  ∧ process_creative_data [bad_spend] ∅ = Raise ValueError.
Proof. split; [|split]; vm_compute; reflexivity. Qed.

Lemma well_formed_records_never_raise_witness :
  Forall (λ ins, well_formed ins = true) [scenario_1; tie_a]
  ∧ (∃ rows, process_creative_data [scenario_1; tie_a] one_video = Ok rows)
  ∧ Forall (λ ins, ∃ conv cv cpa roas,
              calculate_metrics ins = Ok (conv, cv, cpa, roas)) [scenario_1; tie_a].
Proof.
  assert (Hwf : Forall (λ ins, well_formed ins = true) [scenario_1; tie_a]).
  { repeat (constructor; [vm_compute; reflexivity|]). constructor. }
  split; [exact Hwf|].
  destruct (well_formed_records_never_raise [scenario_1; tie_a] one_video Hwf)
    as (Hrows & Hmetrics & _).
  split; [exact Hrows | exact Hmetrics].
Defined.

(** ** Instances of the remaining statements *)


(** Spend 3 and 7 conversions: the quotient 0.428571... is no decimal of
    two places, and the cpa is 0.43. *)
Lemma cpa_formula_witness :
  calculate_metrics sevenths
    = Ok (7, float_lit "10", Float (float_lit "0.43"), Float (float_lit "3.33"))
  ∧ fdiv (float_lit "3") (float_lit "7") ≠ float_lit "0.43"
  ∧ ∃ d c,
      int_to_float 7 = Ok d ∧ float_truthy d = true
      ∧ Float (float_lit "0.43") = Float c
      ∧ rounded_to_hundredths (fdiv (float_lit "3") d) c.
Proof.
  assert (Hm : calculate_metrics sevenths
    = Ok (7, float_lit "10", Float (float_lit "0.43"), Float (float_lit "3.33")))
    by (vm_compute; reflexivity).
  split; [exact Hm|]. split; [vm_compute; discriminate|].
  destruct (cpa_formula sevenths) as [_ Hcpa].
  destruct (Hcpa _ _ _ _ Hm) as (spend & Hs & Hpos & _).
  assert (Hspend : py_float (dict_get sevenths "spend" (VInt 0)) = Ok (float_lit "3"))
    by (vm_compute; reflexivity).
  rewrite Hspend in Hs. injection Hs as <-.
  exact (Hpos eq_refl).
Defined.

(** The same record: conversion value 10 on a spend of 3, a quotient of
    3.333...; the roas is 3.33. *)
Lemma roas_formula_witness :
  calculate_metrics sevenths
    = Ok (7, float_lit "10", Float (float_lit "0.43"), Float (float_lit "3.33"))
  ∧ float_pos (float_lit "3") = true
  ∧ fdiv (float_lit "10") (float_lit "3") ≠ float_lit "3.33"
  ∧ ∃ c, Float (float_lit "3.33") = Float c
         ∧ rounded_to_hundredths (fdiv (float_lit "10") (float_lit "3")) c.
Proof.
  assert (Hm : calculate_metrics sevenths
    = Ok (7, float_lit "10", Float (float_lit "0.43"), Float (float_lit "3.33")))
    by (vm_compute; reflexivity).
  assert (Hpos : float_pos (float_lit "3") = true) by (vm_compute; reflexivity).
  split; [exact Hm|]. split; [exact Hpos|]. split; [vm_compute; discriminate|].
  destruct (roas_formula sevenths _ _ _ _ Hm) as (spend & Hs & Hroas & _).
  assert (Hspend : py_float (dict_get sevenths "spend" (VInt 0)) = Ok (float_lit "3"))
    by (vm_compute; reflexivity).
  rewrite Hspend in Hs. injection Hs as <-.
  exact (Hroas Hpos).
Defined.


(** The third end-to-end scenario, and a known creative. *)
Lemma creative_type_priority_witness :
  ∃ r1 r2,
    build_row one_video scenario_1 = Ok r1 ∧ creative_type r1 = "Video"
    ∧ creative_id r1 = VStr "cr-9"
    ∧ build_row one_video tie_a = Ok r2 ∧ creative_type r2 = "Unknown"
    ∧ creative_id r2 = VNone.
Proof.
  destruct (build_row one_video scenario_1) as [r1|e] eqn:Hr1; [|by vm_compute in Hr1].
  destruct (build_row one_video tie_a) as [r2|e] eqn:Hr2; [|by vm_compute in Hr2].
  exists r1, r2.
  destruct (creative_type_priority one_video scenario_1 r1 Hr1) as [Hknown _].
  destruct (creative_type_priority one_video tie_a r2 Hr2) as [_ Habsent].
  assert (Hr1' := Hr1). vm_compute in Hr1'. injection Hr1' as <-.
  assert (Hr2' := Hr2). vm_compute in Hr2'. injection Hr2' as <-.
  split; [reflexivity|]. split; [reflexivity|]. split; [reflexivity|].
  split; [reflexivity|]. split; reflexivity.
Defined.

(** ** The order of the export, on a sample *)

(** With the sort that keeps ties, the sample report is written by
    descending spend: 50.00 first, then the two ads at 10.00 as met. *)
Lemma save_to_csv_descending_witness :
  sample_report ≠ []
  ∧ ∃ df k,
      @save_to_csv stable_SortValues sample_report "report.csv" = ToCsv df "report.csv" k
      ∧ writes k = []
      ∧ df ≡ₚ sample_report
      ∧ ∀ (i j : nat) ri rj,
          (i < j)%nat → df !! i = Some ri → df !! j = Some rj →
          float_le (spend rj) (spend ri) ∨ is_nan (spend rj) = true.
Proof.
  assert (Hne : sample_report ≠ []) by (vm_compute; discriminate).
  split; [exact Hne|].
  exact (@save_to_csv_descending stable_SortValues sample_report "report.csv" Hne).
Defined.

Example sample_report_written :
  ad_id <$> sample_report = [VStr "A"; VStr "ad-1"; VStr "B"]
  ∧ ∃ df k,
      @save_to_csv stable_SortValues sample_report "report.csv" = ToCsv df "report.csv" k
      ∧ ad_id <$> df = [VStr "ad-1"; VStr "A"; VStr "B"]
      ∧ spend <$> df = [float_lit "50.0"; float_lit "10.0"; float_lit "10.0"].
Proof.
  split; [vm_compute; reflexivity|].
  eexists _, _. split; [vm_compute; reflexivity|].
  split; vm_compute; reflexivity.
Qed.

(** A NaN spend is no number to compare with: its row goes below the
    rows that have one. *)
Example nan_spend_written_last :
  ∃ rn ra k,
    process_creative_data [nan_spend; tie_a] ∅ = Ok [rn; ra]
    ∧ is_nan (spend rn) = true
    ∧ @save_to_csv stable_SortValues [rn; ra] "report.csv" = ToCsv [ra; rn] "report.csv" k.
Proof.
  destruct (process_creative_data [nan_spend; tie_a] ∅) as [rows|e] eqn:Hrows;
    [|by vm_compute in Hrows].
  vm_compute in Hrows. injection Hrows as <-.
  eexists _, _, _. split; [reflexivity|]. split; [reflexivity|].
  vm_compute. reflexivity.
Qed.

(** The fourth end-to-end scenario, run on a world with no file: nothing
    is written and nothing printed. *)
Example empty_report_run :
  ∃ rows,
    process_creative_data [] one_video = Ok rows
    ∧ run (λ _, true) (@save_to_csv stable_SortValues rows "report.csv")
        {| files := ∅; stdout := [] |}
      = ({| files := ∅; stdout := [] |}, Ok false).
Proof. exists []. split; reflexivity. Qed.

(** Three records in, three rows out, in the order of the records. *)
Lemma process_creative_data_one_row_each_witness :
  process_creative_data [tie_a; scenario_1; tie_b] one_video = Ok sample_report
  ∧ length sample_report = length [tie_a; scenario_1; tie_b]
  ∧ ∀ (i : nat) ins, [tie_a; scenario_1; tie_b] !! i = Some ins →
      ∃ r, sample_report !! i = Some r ∧ build_row one_video ins = Ok r.
Proof.
  assert (Hrows : process_creative_data [tie_a; scenario_1; tie_b] one_video
                  = Ok sample_report) by (vm_compute; reflexivity).
  split; [exact Hrows|].
  destruct (process_creative_data_one_row_each
              [tie_a; scenario_1; tie_b] one_video sample_report) as [_ Hpos].
  exact (Hpos Hrows).
Defined.

(** * Further properties of the code *)

(** ** Failure of one record *)

Lemma for_each_rows_Raise (cd : gmap string (gmap string value))
    (insights : list (gmap string value)) (acc : list row) (e : exn) :
  for_each insights (λ ins rows, r ← build_row cd ins; Ok (rows ++ [r])) acc = Raise e
  → ∃ good rows bad rest,
      insights = good ++ bad :: rest
      ∧ Forall2 (λ ins r, build_row cd ins = Ok r) good rows
      ∧ build_row cd bad = Raise e.
Proof.
  revert acc. induction insights as [|ins insights IH]; intros acc; simpl; [done|].
  rewrite bind_Raise. intros [Hrow | (acc' & Hrow & Hrest)].
  - apply bind_Raise in Hrow as [Hrow | (r & _ & [=])].
    exists [], [], ins, insights. split; [done|]. split; [constructor | done].
  - apply bind_Ok in Hrow as (r & Hr & _).
    destruct (IH _ Hrest) as (good & rows & bad & rest & -> & Hgood & Hbad).
    exists (ins :: good), (r :: rows), bad, rest.
    split; [done|]. split; [by constructor | done].
Qed.

(** X1. [process_creative_data] raises exactly when some record cannot be
    built, and then with the exception of the first such record: the rows
    built before it are lost and the records after it are not looked at. *)
Theorem process_creative_data_first_failure
    (insights : list (gmap string value)) (cd : gmap string (gmap string value))
    (e : exn) :
  process_creative_data insights cd = Raise e
  ↔ ∃ good rows bad rest,
      insights = good ++ bad :: rest
      ∧ Forall2 (λ ins r, build_row cd ins = Ok r) good rows
      ∧ build_row cd bad = Raise e.
Proof.
  unfold process_creative_data. split; [apply for_each_rows_Raise|].
  intros (good & rows & bad & rest & -> & Hgood & Hbad).
  rewrite for_each_app.
  assert (for_each good (λ ins rows0, r ← build_row cd ins; Ok (rows0 ++ [r])) []
          = Ok rows) as ->.
  { apply for_each_rows. by exists rows. }
  simpl. by rewrite Hbad.
Qed.

(** A record without [ad_id] in second place: the call raises its
    [KeyError], whatever comes after. *)
Lemma process_creative_data_first_failure_witness :
  build_row one_video no_ad_id = Raise KeyError
  ∧ process_creative_data [tie_a; no_ad_id; bad_spend] one_video = Raise KeyError.
Proof.
  assert (Hbad : build_row one_video no_ad_id = Raise KeyError)
    by (vm_compute; reflexivity).
  split; [exact Hbad|].
  destruct (build_row one_video tie_a) as [r|e] eqn:Hr; [|by vm_compute in Hr].
  apply (proj2 (process_creative_data_first_failure
                  [tie_a; no_ad_id; bad_spend] one_video KeyError)).
  exists [tie_a], [r], no_ad_id, [bad_spend].
  split; [reflexivity|]. split; [|exact Hbad].
  constructor; [exact Hr | constructor].
Defined.

(** ** Entries that do not count are not read *)

Lemma add_conversion_skipped (a : value) (acc : Z) :
  is_entry a = true → counted a = false → add_conversion a acc = Ok acc.
Proof.
  destruct a as [| | | | | |d]; try done. simpl. intros Hhash Hcounted.
  unfold add_conversion. cbn [py_get mbind result_bind].
  rewrite (in_conv_types_hashable d Hhash). simpl. by rewrite Hcounted.
Qed.

Lemma add_conv_value_skipped (a : value) (acc : float) :
  is_entry a = true → counted a = false → add_conv_value a acc = Ok acc.
Proof.
  destruct a as [| | | | | |d]; try done. simpl. intros Hhash Hcounted.
  unfold add_conv_value. cbn [py_get mbind result_bind].
  rewrite (in_conv_types_hashable d Hhash). simpl. by rewrite Hcounted.
Qed.

Lemma for_each_skips {S} (body : value → S → result S) (l : list value) (acc : S) :
  (∀ a s, is_entry a = true → counted a = false → body a s = Ok s) →
  forallb is_entry l = true →
  for_each (filter (λ a, counted a = true) l) body acc = for_each l body acc.
Proof.
  intros Hskip. revert acc. induction l as [|a l IH]; intros acc; [done|].
  simpl. rewrite andb_true_iff. intros [Ha Hl].
  destruct (counted a) eqn:Hcounted.
  - rewrite filter_cons_True by done. simpl.
    destruct (body a acc) as [s|e]; simpl; [by apply IH | done].
  - rewrite filter_cons_False by congruence.
    rewrite (Hskip a acc Ha Hcounted). simpl. by apply IH.
Qed.

(** X2. The entries of [actions] and [action_values] whose [action_type]
    is no conversion type are never read beyond that type: dropping them
    from both lists leaves the result of [calculate_metrics] as it is,
    whatever their [value] holds. *)
Theorem calculate_metrics_ignores_other_types (ins : gmap string value)
    (acts vals : list value) :
  ins !! "actions" = Some (VList acts) →
  ins !! "action_values" = Some (VList vals) →
  forallb is_entry acts = true →
  forallb is_entry vals = true →
  calculate_metrics
    (<["actions" := VList (filter (λ a, counted a = true) acts)]>
       (<["action_values" := VList (filter (λ a, counted a = true) vals)]> ins))
  = calculate_metrics ins.
Proof.
  intros Hacts Hvals Hacts_ok Hvals_ok.
  set (acts' := VList (filter (λ a, counted a = true) acts)).
  set (vals' := VList (filter (λ a, counted a = true) vals)).
  set (ins' := <["actions" := acts']> (<["action_values" := vals']> ins)).
  assert (Hspend' : ins' !! "spend" = ins !! "spend").
  { unfold ins'. rewrite (lookup_insert_ne _ "actions" "spend") by done.
    by rewrite (lookup_insert_ne _ "action_values" "spend"). }
  assert (Hacts' : ins' !! "actions" = Some acts')
    by apply lookup_insert_eq.
  assert (Hvals' : ins' !! "action_values" = Some vals').
  { unfold ins'. rewrite (lookup_insert_ne _ "actions" "action_values") by done.
    apply lookup_insert_eq. }
  unfold calculate_metrics, dict_get.
  rewrite Hspend', Hacts', Hvals', Hacts, Hvals. unfold acts', vals'. simpl.
  destruct (py_float (default (VInt 0) (ins !! "spend"))) as [spend|]; [|done].
  cbn [mbind result_bind].
  rewrite (for_each_skips add_conversion acts 0 add_conversion_skipped Hacts_ok).
  destruct (for_each acts add_conversion 0) as [conv|]; [|done].
  cbn [mbind result_bind].
  by rewrite (for_each_skips add_conv_value vals _ add_conv_value_skipped Hvals_ok).
Qed.

(** A record whose only counted entries are a purchase of 3 and a lead
    worth 9.5, the others holding no numeral at all. *)
Lemma calculate_metrics_ignores_other_types_witness :
  calculate_metrics
    (<["actions" := VList [action "purchase" "3"]]>
       (<["action_values" := VList [action "lead" "9.5"]]> purchase_and_junk))
  = calculate_metrics purchase_and_junk
  ∧ is_ok (calculate_metrics purchase_and_junk) = true.
Proof.
  split; [|vm_compute; reflexivity].
  apply (calculate_metrics_ignores_other_types purchase_and_junk
           [action "purchase" "3"; action "view_content" "n/a"]
           [action "link_click" "?"; action "lead" "9.5"]);
    vm_compute; reflexivity.
Defined.

(** ** The identification of a row *)

Lemma build_row_identification (cd : gmap string (gmap string value))
    (ins : gmap string value) (r : row) :
  build_row cd ins = Ok r → identifies ins r.
Proof.
  unfold build_row, identifies. intros H.
  apply bind_Ok in H as (ad & Had%dict_getitem_Ok & H).
  apply bind_Ok in H as (c & _ & H).
  apply bind_Ok in H as ([[[conv cv] cpa0] roas0] & _ & H).
  apply bind_Ok in H as (impr & _ & H).
  apply bind_Ok in H as (clk & _ & H).
  apply bind_Ok in H as (sp & _ & H).
  apply bind_Ok in H as (ctr0 & _ & H).
  apply bind_Ok in H as (cpm0 & _ & H).
  apply bind_Ok in H as (f1 & Hf1%dict_getitem_Ok & H).
  apply bind_Ok in H as (f2 & Hf2%dict_getitem_Ok & H).
  apply bind_Ok in H as (f3 & Hf3%dict_getitem_Ok & H).
  apply bind_Ok in H as (f4 & Hf4%dict_getitem_Ok & H).
  apply bind_Ok in H as (f5 & Hf5%dict_getitem_Ok & H).
  apply bind_Ok in H as (f6 & Hf6%dict_getitem_Ok & H).
  injection H as <-. simpl. repeat (split; [assumption|]). assumption.
Qed.

(** X3. The rows [process_creative_data] returns carry, position by
    position, the seven identification fields of the records they were
    built from, unchanged: the [ad_id] of the i-th row is the [ad_id] of
    the i-th record, and so for the date, the campaign, the ad set and the
    ad name. *)
Theorem process_creative_data_identification
    (insights : list (gmap string value)) (cd : gmap string (gmap string value))
    (rows : list row) :
  process_creative_data insights cd = Ok rows →
  Forall2 identifies insights rows.
Proof.
  intros Hrows%process_creative_data_Forall2.
  eapply Forall2_impl; [exact Hrows|]. intros ins r. apply build_row_identification.
Qed.

Lemma process_creative_data_identification_witness :
  ∃ rows, process_creative_data [tie_a; scenario_1; tie_b] one_video = Ok rows
          ∧ Forall2 identifies [tie_a; scenario_1; tie_b] rows
          ∧ ad_id <$> rows = [VStr "A"; VStr "ad-1"; VStr "B"].
Proof.
  destruct (process_creative_data [tie_a; scenario_1; tie_b] one_video)
    as [rows|e] eqn:Hrows; [|by vm_compute in Hrows].
  exists rows. split; [reflexivity|]. split.
  - exact (process_creative_data_identification _ _ _ Hrows).
  - vm_compute in Hrows. injection Hrows as <-. vm_compute. reflexivity.
Defined.

(** ** The pages of the insights *)

Lemma read_page_more (items : list (string * value)) (acc : list value) :
  more items = true →
  read_page items acc = PageNext (acc ++ rows_of items) (next_of items).
Proof.
  unfold more, has_error, rows_of, next_of, page_rows, page_next, read_page.
  destruct (_ !! "error"); [done|].
  destruct (py_iter _); [|done].
  destruct (py_get _ _ _); [|by rewrite andb_false_r].
  simpl. by intros ->.
Qed.

Lemma read_page_final (items : list (string * value)) (acc : list value) :
  final items = true →
  read_page items acc = PageLast (acc ++ rows_of items).
Proof.
  unfold final, has_error, rows_of, next_of, page_rows, page_next, read_page.
  destruct (_ !! "error"); [done|].
  destruct (py_iter _); [|done].
  destruct (py_get _ _ _); [|by rewrite andb_false_r].
  simpl. by intros ->%negb_true_iff.
Qed.

Lemma read_page_error (items : list (string * value)) (acc : list value) :
  has_error items = true →
  ∃ e, (list_to_map items : gmap string value) !! "error" = Some e
       ∧ read_page items acc = PageError e.
Proof.
  unfold has_error, read_page.
  destruct (_ !! "error") as [e|]; [|done]. intros _. by exists e.
Qed.

Lemma read_page_broken (items : list (string * value)) (acc : list value) :
  broken (Object items) = true → read_page items acc = PageFailed.
Proof.
  unfold broken, has_error, page_rows, page_next, read_page.
  destruct (_ !! "error"); [done|].
  destruct (py_iter _); [|done].
  by destruct (py_get _ _ _).
Qed.

(** The turns that read pages naming a next page. *)
Lemma insights_loop_pages (pages : list (list (string * value)))
    (tail : list response) (req : request) (acc : list value) :
  forallb more pages = true →
  insights_loop ((Object <$> pages) ++ tail) req acc =
    let '(evs, res, rest) :=
      insights_loop tail (last_request req pages) (acc ++ concat (rows_of <$> pages)) in
    (paging_events req pages ++ evs, res, rest).
Proof.
  revert req acc. induction pages as [|p pages IH]; intros req acc; simpl.
  - intros _. rewrite app_nil_r. by destruct (insights_loop tail req acc) as [[??]?].
  - rewrite andb_true_iff. intros [Hp Hpages].
    rewrite (read_page_more p acc Hp).
    rewrite (IH _ _ Hpages). unfold last_request. simpl.
    rewrite <- (app_assoc acc).
    by destruct (insights_loop tail _ _) as [[??]?].
Qed.

(** X5. When the API answers with pages that each name a next page and
    then with a page that names none, [get_ad_creative_insights] returns
    the rows of all these pages, in the order received.  It makes one
    request per page: the first with the token and the query, each later
    one to the [next] link of the page before, without parameters; it
    sleeps between two requests and leaves the later answers unread. *)
Theorem get_ad_creative_insights_all_pages
    (account_id access_token api_version date_preset : string)
    (pages : list (list (string * value))) (last : list (string * value))
    (rest : list response) :
  forallb more pages = true →
  final last = true →
  let first := insights_request account_id access_token api_version date_preset in
  let rows := concat (rows_of <$> pages) ++ rows_of last in
  get_ad_creative_insights account_id access_token api_version date_preset
    ((Object <$> pages) ++ Object last :: rest)
  = (paging_events first pages
       ++ [EGet (last_request first pages); ELog (Retrieved (length rows))],
     rows, rest).
Proof.
  intros Hpages Hlast first rows. unfold get_ad_creative_insights.
  rewrite (insights_loop_pages pages _ _ [] Hpages). simpl.
  by rewrite (read_page_final last _ Hlast).
Qed.

Lemma get_ad_creative_insights_all_pages_witness :
  (get_ad_creative_insights "42" "token" "v19.0" "today"
     [Object page_1; Object page_2; Failed]).1.2
  = [VDict tie_a; VDict tie_b; VDict scenario_1]
  ∧ requests_of
      (get_ad_creative_insights "42" "token" "v19.0" "today"
         [Object page_1; Object page_2; Failed]).1.1
    = [insights_request "42" "token" "v19.0" "today";
       follow (VStr "https://graph.facebook.com/next-1")].
Proof.
  change [Object page_1; Object page_2; Failed]
    with ((Object <$> [page_1]) ++ Object page_2 :: [Failed]).
  rewrite (get_ad_creative_insights_all_pages "42" "token" "v19.0" "today"
             [page_1] page_2 [Failed]);
    [|vm_compute; reflexivity|vm_compute; reflexivity].
  split; vm_compute; reflexivity.
Defined.

(** X6. When, after any number of pages that name a next page, a request
    fails, its answer cannot be read or no answer is left,
    [get_ad_creative_insights] returns the empty list: the rows of the
    pages already received are dropped. *)
Theorem get_ad_creative_insights_failure_drops_rows
    (account_id access_token api_version date_preset : string)
    (pages : list (list (string * value))) (tail : list response) :
  forallb more pages = true →
  broken (answer tail).1 = true →
  let first := insights_request account_id access_token api_version date_preset in
  get_ad_creative_insights account_id access_token api_version date_preset
    ((Object <$> pages) ++ tail)
  = (paging_events first pages
       ++ [EGet (last_request first pages); ELog InsightsFailed],
     [], (answer tail).2).
Proof.
  intros Hpages Htail first. unfold get_ad_creative_insights.
  rewrite (insights_loop_pages pages _ _ [] Hpages).
  destruct tail as [|[|items] rest]; simpl; [done..|].
  by rewrite (read_page_broken items _ Htail).
Qed.

Lemma get_ad_creative_insights_failure_drops_rows_witness :
  rows_of page_1 = [VDict tie_a; VDict tie_b]
  ∧ (get_ad_creative_insights "42" "token" "v19.0" "today"
       [Object page_1; Failed; Object page_2]).1.2 = [].
Proof.
  split; [vm_compute; reflexivity|].
  change [Object page_1; Failed; Object page_2]
    with ((Object <$> [page_1]) ++ [Failed; Object page_2]).
  rewrite (get_ad_creative_insights_failure_drops_rows "42" "token" "v19.0" "today"
             [page_1] [Failed; Object page_2]);
    [reflexivity|vm_compute; reflexivity|vm_compute; reflexivity].
Defined.

(** X7. When, after any number of pages that name a next page, the API
    answers with an object that has an [error] member,
    [get_ad_creative_insights] stops there and returns the rows of the
    pages received before it: a partial result, returned like a complete
    one. *)
Theorem get_ad_creative_insights_error_keeps_rows
    (account_id access_token api_version date_preset : string)
    (pages : list (list (string * value))) (items : list (string * value))
    (rest : list response) :
  forallb more pages = true →
  has_error items = true →
  let first := insights_request account_id access_token api_version date_preset in
  let rows := concat (rows_of <$> pages) in
  ∃ e,
    (list_to_map items : gmap string value) !! "error" = Some e
    ∧ get_ad_creative_insights account_id access_token api_version date_preset
        ((Object <$> pages) ++ Object items :: rest)
      = (paging_events first pages
           ++ [EGet (last_request first pages); ELog (InsightsError e);
               ELog (Retrieved (length rows))],
         rows, rest).
Proof.
  intros Hpages Hitems first rows. unfold get_ad_creative_insights.
  destruct (read_page_error items rows Hitems) as (e & He & Hread).
  exists e. split; [exact He|].
  rewrite (insights_loop_pages pages _ _ [] Hpages). simpl.
  fold rows. by rewrite Hread.
Qed.

Lemma get_ad_creative_insights_error_keeps_rows_witness :
  ∃ e,
    (list_to_map error_page : gmap string value) !! "error" = Some e
    ∧ (get_ad_creative_insights "42" "token" "v19.0" "today"
         [Object page_1; Object error_page; Object page_2]).1.2
      = [VDict tie_a; VDict tie_b].
Proof.
  destruct (get_ad_creative_insights_error_keeps_rows "42" "token" "v19.0" "today"
              [page_1] error_page [Object page_2]) as (e & He & Hrun);
    [vm_compute; reflexivity|vm_compute; reflexivity|].
  exists e. split; [exact He|].
  change [Object page_1; Object error_page; Object page_2]
    with ((Object <$> [page_1]) ++ Object error_page :: [Object page_2]).
  rewrite Hrun. vm_compute. reflexivity.
Defined.

(** ** The batches of the creative details *)

Lemma batch_count_bounds (n k : nat) :
  (k < (n + BATCH - 1) / BATCH → k * BATCH < n)%nat.
Proof.
  unfold BATCH. intros Hk.
  pose proof (Nat.div_mod_eq (n + 50 - 1) 50).
  pose proof (Nat.mod_upper_bound (n + 50 - 1) 50). lia.
Qed.

Lemma batch_count_covers (n : nat) : (n ≤ (n + BATCH - 1) / BATCH * BATCH)%nat.
Proof.
  unfold BATCH.
  pose proof (Nat.div_mod_eq (n + 50 - 1) 50).
  pose proof (Nat.mod_upper_bound (n + 50 - 1) 50). lia.
Qed.

Lemma slices_cover {A} (m : nat) (l : list A) :
  (length l ≤ m * BATCH)%nat →
  concat ((λ i, slice i l) <$> ((λ k, k * BATCH)%nat <$> seq 0 m)) = l.
Proof.
  revert l. induction m as [|m IH]; intros l Hl.
  - destruct l; [done | simpl in Hl; lia].
  - cbn [seq]. rewrite <- fmap_S_seq. rewrite !fmap_cons. cbn [concat].
    rewrite <- !list_fmap_compose.
    rewrite (list_fmap_ext _ ((λ i, slice i (drop BATCH l)) ∘ (λ k, k * BATCH)%nat)
               (seq 0 m)).
    + rewrite list_fmap_compose, IH.
      * apply take_drop.
      * rewrite length_drop. lia.
    + intros i k _. simpl. unfold slice. by rewrite drop_drop.
Qed.

Lemma chunks_concat {A} (l : list A) : concat (chunks l) = l.
Proof. apply slices_cover, batch_count_covers. Qed.

Lemma chunks_sizes {A} (l : list A) :
  Forall (λ c, (0 < length c ≤ BATCH)%nat) (chunks l).
Proof.
  unfold chunks, batch_starts. rewrite <- list_fmap_compose.
  apply Forall_fmap, Forall_forall. intros k [_ Hk]%elem_of_seq. simpl in *.
  apply batch_count_bounds in Hk.
  unfold slice. rewrite length_take, length_drop. unfold BATCH in *. lia.
Qed.

Lemma slice_fmap {A B} (f : A → B) (i : nat) (l : list A) :
  slice i (f <$> l) = f <$> slice i l.
Proof. unfold slice. by rewrite fmap_take, fmap_drop. Qed.

Lemma strings_of_fmap (ids : list string) : strings_of (VStr <$> ids) = Ok ids.
Proof.
  induction ids as [|s ids IH]; [done|].
  rewrite fmap_cons. cbn [strings_of]. by rewrite IH.
Qed.

Lemma strings_of_Ok (vs : list value) (ids : list string) :
  strings_of vs = Ok ids → vs = VStr <$> ids.
Proof.
  revert ids. induction vs as [|v vs IH]; intros ids; simpl.
  - by intros [= <-].
  - destruct v; try done.
    intros (ss & Hss & [= <-])%bind_Ok. rewrite fmap_cons. f_equal. by apply IH.
Qed.

Lemma strings_of_is_ok (vs : list value) : is_ok (strings_of vs) = forallb is_str vs.
Proof.
  induction vs as [|v vs IH]; simpl; [done|].
  destruct v; try done. simpl. rewrite <- IH. by destruct (strings_of vs).
Qed.

Lemma strings_of_Raise (vs : list value) (e : exn) :
  strings_of vs = Raise e → e = TypeError.
Proof.
  induction vs as [|v vs IH]; simpl; [done|].
  destruct v; try congruence.
  intros [Hvs | (ss & _ & [=])]%bind_Raise. by apply IH.
Qed.

Lemma forallb_concat {A} (f : A → bool) (ls : list (list A)) :
  forallb f (concat ls) = forallb (forallb f) ls.
Proof.
  induction ls as [|l ls IH]; simpl; [done|]. by rewrite forallb_app, IH.
Qed.

Lemma forallb_fmap {A B} (g : B → bool) (f : A → B) (l : list A) :
  forallb g (f <$> l) = forallb (g ∘ f) l.
Proof.
  induction l as [|x l IH]; [done|].
  rewrite fmap_cons. cbn [forallb]. by rewrite IH.
Qed.

Lemma requests_of_app (evs1 evs2 : list event) :
  requests_of (evs1 ++ evs2) = requests_of evs1 ++ requests_of evs2.
Proof.
  induction evs1 as [|[r| |m] evs1 IH]; simpl; [done| |done..]. by rewrite IH.
Qed.

Lemma store_batch_requests (r : response) (out : gmap string (gmap string value)) :
  requests_of (store_batch r out).1 = [].
Proof.
  destruct r as [|items]; simpl; [done|].
  by destruct (store_all items out) as [out' []].
Qed.

(** The loop on ids that are all strings: one request per start, whatever
    the answers; the lookup is what the answers read make of [out]. *)
Lemma creatives_loop_strings (starts : list nat) (ids : list string)
    (access_token api_version : string) (script : list response)
    (out : gmap string (gmap string value)) :
  ∃ evs,
    creatives_loop starts (VStr <$> ids) access_token api_version script out
    = (evs, Ok (foldl store out (take (length starts) script)),
       drop (length starts) script)
    ∧ requests_of evs
      = (λ i, creatives_request (join "," (slice i ids)) access_token api_version)
          <$> starts.
Proof.
  revert script out. induction starts as [|i starts IH]; intros script out.
  - exists []. by rewrite take_0, drop_0.
  - cbn [creatives_loop]. rewrite slice_fmap, strings_of_fmap.
    destruct script as [|r rest]; cbn [answer].
    + destruct (IH [] out) as (evs & Hrun & Hreq).
      cbn [store_batch]. rewrite Hrun.
      eexists. split; [by rewrite take_nil, drop_nil|].
      simpl. by rewrite Hreq.
    + pose proof (store_batch_requests r out) as Hbatch.
      unfold store in *. cbn [length take drop foldl].
      fold (store out r). unfold store.
      destruct (store_batch r out) as [evs_b out'].
      destruct (IH rest out') as (evs & Hrun & Hreq). rewrite Hrun.
      eexists. split; [done|].
      cbn [requests_of]. rewrite requests_of_app. simpl in Hbatch.
      rewrite Hbatch, Hreq. done.
Qed.

Lemma creatives_loop_is_ok (starts : list nat) (ad_ids : list value)
    (access_token api_version : string) (script : list response)
    (out : gmap string (gmap string value)) :
  is_ok (creatives_loop starts ad_ids access_token api_version script out).1.2
  = forallb (λ i, forallb is_str (slice i ad_ids)) starts.
Proof.
  revert script out. induction starts as [|i starts IH]; intros script out; [done|].
  cbn [creatives_loop forallb]. rewrite <- strings_of_is_ok.
  destruct (strings_of (slice i ad_ids)) as [ids|e]; [|done].
  destruct (answer script) as [r rest]. destruct (store_batch r out) as [evs out'].
  specialize (IH rest out').
  destruct (creatives_loop starts ad_ids access_token api_version rest out')
    as [[evs' res] rest']. done.
Qed.

Lemma creatives_loop_Raise (starts : list nat) (ad_ids : list value)
    (access_token api_version : string) (script : list response)
    (out : gmap string (gmap string value)) (e : exn) :
  (creatives_loop starts ad_ids access_token api_version script out).1.2 = Raise e →
  e = TypeError.
Proof.
  revert script out. induction starts as [|i starts IH]; intros script out; [done|].
  cbn [creatives_loop].
  destruct (strings_of (slice i ad_ids)) as [ids|e'] eqn:Hids.
  - destruct (answer script) as [r rest]. destruct (store_batch r out) as [evs out'].
    specialize (IH rest out').
    destruct (creatives_loop starts ad_ids access_token api_version rest out')
      as [[evs' res] rest']. exact IH.
  - simpl. intros [= <-]. by apply strings_of_Raise in Hids.
Qed.

Lemma get_ad_creatives_details_is_ok (ad_ids : list value)
    (access_token api_version : string) (script : list response) :
  is_ok (get_ad_creatives_details ad_ids access_token api_version script).1.2
  = forallb is_str ad_ids.
Proof.
  unfold get_ad_creatives_details. rewrite creatives_loop_is_ok.
  rewrite <- (chunks_concat ad_ids) at 2. rewrite forallb_concat.
  unfold chunks. by rewrite forallb_fmap.
Qed.

(** X8. [get_ad_creatives_details] returns a lookup exactly when every
    item of [ad_ids] is a string, whatever the API answers, failures
    included; when some item is not a string it raises [TypeError], the
    join of the ids standing outside the [try]. *)
Theorem get_ad_creatives_details_raises_iff (ad_ids : list value)
    (access_token api_version : string) (script : list response) :
  is_ok (get_ad_creatives_details ad_ids access_token api_version script).1.2
  = forallb is_str ad_ids
  ∧ ∀ e, (get_ad_creatives_details ad_ids access_token api_version script).1.2
         = Raise e → e = TypeError.
Proof.
  split; [apply get_ad_creatives_details_is_ok|].
  unfold get_ad_creatives_details. apply creatives_loop_Raise.
Qed.

(** X9. For ids that are strings, [get_ad_creatives_details] makes one
    request per batch, whatever the answers to the earlier ones: the
    batches are consecutive pieces of [ad_ids], each of 1 to 50 ids, that
    put together give [ad_ids] again, so every id is asked for, in order,
    as often as it occurs; each request carries the ids of its batch
    joined by commas.  It reads one answer per batch. *)
Theorem get_ad_creatives_details_batches (ids : list string)
    (access_token api_version : string) (script : list response) :
  ∃ evs out,
    get_ad_creatives_details (VStr <$> ids) access_token api_version script
    = (evs, Ok out, drop (length (chunks ids)) script)
    ∧ requests_of evs
      = (λ c, creatives_request (join "," c) access_token api_version) <$> chunks ids
    ∧ concat (chunks ids) = ids
    ∧ Forall (λ c, (0 < length c ≤ BATCH)%nat) (chunks ids).
Proof.
  unfold get_ad_creatives_details. rewrite length_fmap.
  destruct (creatives_loop_strings (batch_starts (length ids)) ids
              access_token api_version script ∅) as (evs & Hrun & Hreq).
  exists evs, (foldl store ∅ (take (length (batch_starts (length ids))) script)).
  split; [|split; [|split]].
  - rewrite Hrun. unfold chunks. by rewrite length_fmap.
  - rewrite Hreq. unfold chunks. by rewrite <- list_fmap_compose.
  - apply chunks_concat.
  - apply chunks_sizes.
Qed.

(** ** What the lookup holds *)

Lemma store_creative_Ok (a : string) (v : value)
    (o o' : gmap string (gmap string value)) :
  store_creative a v o = Ok o' →
  o' = o ∨ ∃ d c, v = VDict d ∧ d !! "creative" = Some (VDict c)
                  ∧ o' = <[a := creative_meta c]> o.
Proof.
  destruct v as [| | | |s|l|d]; simpl; try done.
  - destruct (contains _ _); [done|]. intros [= <-]. by left.
  - destruct (existsb _ _); [done|]. intros [= <-]. by left.
  - destruct (d !! "creative") as [[| | | | | |c]|] eqn:Hc; try done.
    + intros [= <-]. right. by exists d, c.
    + intros [= <-]. by left.
Qed.

Lemma store_creative_is_ok (a : string) (v : value)
    (o1 o2 : gmap string (gmap string value)) :
  is_ok (store_creative a v o1) = is_ok (store_creative a v o2).
Proof.
  destruct v as [| | | |s|l|d]; simpl; try done.
  - by destruct (contains _ _).
  - by destruct (existsb _ _).
  - by destruct (d !! "creative") as [[| | | | | |c]|].
Qed.

Lemma store_all_sound (script : list response) (all items : list (string * value))
    (o : gmap string (gmap string value)) :
  Object all ∈ script → (∀ x, x ∈ items → x ∈ all) →
  from_answers script o → from_answers script (store_all items o).1.
Proof.
  intros Hall. revert o. induction items as [|[a v] items IH]; intros o Hsub Ho; [done|].
  simpl. destruct (store_creative a v o) as [o'|e] eqn:Hstore; [|done].
  apply IH; [intros x Hx; apply Hsub; by right|].
  apply store_creative_Ok in Hstore as [-> | (d & c & -> & Hc & ->)]; [done|].
  intros ad m. destruct (decide (a = ad)) as [->|Hne].
  - rewrite lookup_insert_eq. intros [= <-]. exists c. split; [|done].
    exists all, d. split; [done|]. split; [apply Hsub; by left | done].
  - rewrite lookup_insert_ne by done. apply Ho.
Qed.

Lemma store_sound (script : list response) (r : response)
    (o : gmap string (gmap string value)) :
  r ∈ script → from_answers script o → from_answers script (store o r).
Proof.
  unfold store. destruct r as [|items]; [done|]. intros Hr Ho. simpl.
  pose proof (store_all_sound script items items o Hr (λ x Hx, Hx) Ho) as Hsound.
  by destruct (store_all items o) as [o' fin].
Qed.

Lemma foldl_store_sound (script answers : list response)
    (o : gmap string (gmap string value)) :
  (∀ r, r ∈ answers → r ∈ script) →
  from_answers script o → from_answers script (foldl store o answers).
Proof.
  revert o. induction answers as [|r answers IH]; intros o Hsub Ho; [done|].
  simpl. apply IH; [intros r' Hr'; apply Hsub; by right|].
  apply store_sound; [apply Hsub; by left | done].
Qed.

Lemma get_ad_creatives_details_sound (ad_ids : list value)
    (access_token api_version : string) (script : list response)
    (out : gmap string (gmap string value)) :
  (get_ad_creatives_details ad_ids access_token api_version script).1.2 = Ok out →
  from_answers script out.
Proof.
  intros Hrun.
  assert (is_ok (strings_of ad_ids) = true) as Hids.
  { rewrite strings_of_is_ok.
    rewrite <- (get_ad_creatives_details_is_ok _ access_token api_version script).
    by rewrite Hrun. }
  destruct (strings_of ad_ids) as [ids|] eqn:Hstr; [|done].
  apply strings_of_Ok in Hstr as ->.
  unfold get_ad_creatives_details in Hrun.
  destruct (creatives_loop_strings (batch_starts (length (VStr <$> ids))) ids
              access_token api_version script ∅) as (evs & Hloop & _).
  rewrite Hloop in Hrun. simpl in Hrun. injection Hrun as <-.
  apply foldl_store_sound.
  - intros r Hr. by apply (subseteq_take (length (batch_starts (length (VStr <$> ids))))).
  - intros ad m. by rewrite lookup_empty.
Qed.

(** X10. Every entry of the lookup [get_ad_creatives_details] returns
    comes from an answer of the API: its key is the key of an ad of some
    answer, that ad has a [creative] object, and the entry is the meta
    made of that object.  The keys are those of the answers, which need
    not be among the ids asked for. *)
Theorem get_ad_creatives_details_from_answers (ad_ids : list value)
    (access_token api_version : string) (script : list response)
    (out : gmap string (gmap string value)) (ad : string) (m : gmap string value) :
  (get_ad_creatives_details ad_ids access_token api_version script).1.2 = Ok out →
  out !! ad = Some m →
  ∃ items d c,
    Object items ∈ script
    ∧ (ad, VDict d) ∈ items
    ∧ d !! "creative" = Some (VDict c)
    ∧ m = creative_meta c.
Proof.
  intros Hrun Hm.
  destruct (get_ad_creatives_details_sound _ _ _ _ _ Hrun ad m Hm)
    as (c & (items & d & Hitems & Had & Hc) & ->).
  by exists items, d, c.
Qed.

(** The answer read for three ads: the creative of ["ad-1"] is stored,
    the ad without creative is skipped, the ad that is no object ends the
    batch. *)
Lemma creatives_answer_run :
  (get_ad_creatives_details [VStr "ad-1"; VStr "A"; VStr "B"] "token" "v19.0"
     [Object creatives_answer]).1.2 = Ok one_fetched.
Proof. vm_compute. exact eq_refl. Qed.

Lemma get_ad_creatives_details_from_answers_witness :
  ∃ items d c,
    Object items ∈ [Object creatives_answer]
    ∧ ("ad-1", VDict d) ∈ items
    ∧ d !! "creative" = Some (VDict c)
    ∧ creative_meta video_creative = creative_meta c.
Proof.
  apply (get_ad_creatives_details_from_answers
           [VStr "ad-1"; VStr "A"; VStr "B"] "token" "v19.0" [Object creatives_answer]
           one_fetched "ad-1" (creative_meta video_creative) creatives_answer_run).
  apply lookup_singleton_eq.
Defined.

Lemma store_creative_mono (a : string) (v : value)
    (o o' : gmap string (gmap string value)) (k : string) :
  store_creative a v o = Ok o' → is_Some (o !! k) → is_Some (o' !! k).
Proof.
  intros [-> | (d & c & _ & _ & ->)]%store_creative_Ok Hk; [done|].
  apply lookup_insert_is_Some. destruct (decide (a = k)); [by left | by right].
Qed.

Lemma store_all_mono (items : list (string * value))
    (o : gmap string (gmap string value)) (k : string) :
  is_Some (o !! k) → is_Some ((store_all items o).1 !! k).
Proof.
  revert o. induction items as [|[a v] items IH]; intros o Hk; [done|].
  simpl. destruct (store_creative a v o) as [o'|e] eqn:Hstore; [|done].
  apply IH. by apply (store_creative_mono a v o).
Qed.

Lemma store_mono (r : response) (o : gmap string (gmap string value)) (k : string) :
  is_Some (o !! k) → is_Some (store o r !! k).
Proof.
  unfold store. destruct r as [|items]; [done|]. intros Hk. simpl.
  pose proof (store_all_mono items o k Hk).
  by destruct (store_all items o) as [o' fin].
Qed.

Lemma foldl_store_mono (answers : list response)
    (o : gmap string (gmap string value)) (k : string) :
  is_Some (o !! k) → is_Some (foldl store o answers !! k).
Proof.
  revert o. induction answers as [|r answers IH]; intros o Hk; [done|].
  simpl. by apply IH, store_mono.
Qed.

Lemma store_all_stores (pre post : list (string * value)) (ad : string)
    (d c : gmap string value) (o : gmap string (gmap string value)) :
  forallb storable pre = true →
  d !! "creative" = Some (VDict c) →
  is_Some ((store_all (pre ++ (ad, VDict d) :: post) o).1 !! ad).
Proof.
  intros Hpre Hc. revert o Hpre. induction pre as [|[a v] pre IH]; intros o Hpre.
  - simpl. rewrite Hc. apply store_all_mono. rewrite lookup_insert_eq. by eexists.
  - simpl in Hpre. apply andb_true_iff in Hpre as [Hav Hpre].
    unfold storable in Hav. simpl in Hav.
    rewrite (store_creative_is_ok a v ∅ o) in Hav.
    cbn [app store_all]. destruct (store_creative a v o) as [o'|e]; [|done].
    by apply IH.
Qed.

Lemma foldl_store_stores (answers : list response) (k : nat)
    (pre post : list (string * value)) (ad : string) (d c : gmap string value)
    (o : gmap string (gmap string value)) :
  answers !! k = Some (Object (pre ++ (ad, VDict d) :: post)) →
  forallb storable pre = true →
  d !! "creative" = Some (VDict c) →
  is_Some (foldl store o answers !! ad).
Proof.
  intros Hk Hpre Hc. revert k o Hk.
  induction answers as [|r answers IH]; intros k o Hk; [done|].
  destruct k as [|k]; simpl in Hk.
  - injection Hk as ->. simpl. apply foldl_store_mono. unfold store. simpl.
    pose proof (store_all_stores pre post ad d c o Hpre Hc).
    by destruct (store_all _ o) as [o' fin].
  - simpl. by apply (IH k).
Qed.

(** X11. A creative that was received is in the lookup, whatever happens
    to the other batches and later in its own: when the answer to one of
    the batches holds an ad with a [creative] object, and the items
    before it in that answer can be read, the lookup returned has an
    entry for that ad, the meta of a creative received for it.  Failed
    requests and unreadable items lose their own entries only. *)
Theorem get_ad_creatives_details_keeps_received (ids : list string)
    (access_token api_version : string) (script : list response)
    (out : gmap string (gmap string value)) (k : nat)
    (pre post : list (string * value)) (ad : string) (d c : gmap string value) :
  (get_ad_creatives_details (VStr <$> ids) access_token api_version script).1.2
    = Ok out →
  (k < length (chunks ids))%nat →
  script !! k = Some (Object (pre ++ (ad, VDict d) :: post)) →
  forallb storable pre = true →
  d !! "creative" = Some (VDict c) →
  ∃ c', received script ad c' ∧ out !! ad = Some (creative_meta c').
Proof.
  intros Hrun Hk Hscript Hpre Hc.
  pose proof (get_ad_creatives_details_sound _ _ _ _ _ Hrun) as Hsound.
  unfold get_ad_creatives_details in Hrun. rewrite length_fmap in Hrun.
  destruct (creatives_loop_strings (batch_starts (length ids)) ids
              access_token api_version script ∅) as (evs & Hloop & _).
  rewrite Hloop in Hrun. simpl in Hrun. injection Hrun as <-.
  unfold chunks in Hk. rewrite length_fmap in Hk.
  destruct (foldl_store_stores (take (length (batch_starts (length ids))) script)
              k pre post ad d c ∅) as [m Hm]; [|done..|].
  { rewrite lookup_take. by rewrite decide_True. }
  destruct (Hsound ad m Hm) as (c' & Hrec & ->). by exists c'.
Qed.

(** Sixty ids make two batches.  The first request fails; the answer to
    the second holds the creative of ["ad-1"], which is kept although the
    item after it cannot be read. *)
Lemma sixty_ids_run :
  (get_ad_creatives_details (VStr <$> replicate 60 "ad-1") "token" "v19.0"
     [Failed; Object creatives_answer]).1.2 = Ok one_fetched.
Proof. vm_compute. exact eq_refl. Qed.

Lemma get_ad_creatives_details_keeps_received_witness :
  length (chunks (replicate 60 "ad-1")) = 2%nat
  ∧ ∃ c', received [Failed; Object creatives_answer] "ad-1" c'
          ∧ one_fetched !! "ad-1" = Some (creative_meta c').
Proof.
  split; [vm_compute; reflexivity|].
  apply (get_ad_creatives_details_keeps_received
           (replicate 60 "ad-1") "token" "v19.0" [Failed; Object creatives_answer]
           one_fetched 1 [] [("A", VDict {[ "id" := VStr "A" ]}); ("B", VNone)] "ad-1"
           ad_with_creative video_creative sixty_ids_run).
  - vm_compute. lia.
  - reflexivity.
  - reflexivity.
  - vm_compute. reflexivity.
Defined.

(** ** Fetched creatives in the report *)

Lemma creative_meta_columns (c : gmap string value) :
  dict_get (creative_meta c) "video_id" VNone = dict_get c "video_id" VNone
  ∧ dict_get (creative_meta c) "image_hash" VNone = dict_get c "image_hash" VNone.
Proof. split; reflexivity. Qed.

Lemma build_row_tag (cd : gmap string (gmap string value)) (ins : gmap string value)
    (r : row) :
  (∀ ad m, cd !! ad = Some m → ∃ c, m = creative_meta c) →
  build_row cd ins = Ok r → creative_type r = tag_of_columns r.
Proof.
  intros Hcd Hrow.
  destruct (build_row_Ok cd ins r Hrow)
    as (c & _ & Hc & _ & _ & _ & _ & _ & _ & _ & _ & Htype & Himage & Hvideo).
  unfold tag_of_columns. rewrite Htype, Himage, Hvideo.
  assert (c = ∅ ∨ ∃ c0, c = creative_meta c0) as [-> | [c0 ->]].
  { destruct (ad_id r) as [| | | |a| |]; simpl in Hc; try (injection Hc as <-; by left).
    - injection Hc as <-. unfold dict_get.
      destruct (cd !! a) as [m|] eqn:Hm; [|by left].
      right. simpl. by apply (Hcd a).
    - done.
    - done. }
  - reflexivity.
  - destruct (creative_meta_columns c0) as [-> ->]. apply ctype_creative_meta.
Qed.

(** X12. In every row of a report built with the lookup that
    [get_ad_creatives_details] returned, the creative type agrees with
    the columns of the row itself: "Video" when [video_id] holds a value,
    else "Image" when [image_hash] holds one, else "Unknown". *)
Theorem fetched_creatives_type_rows (ad_ids : list value)
    (access_token api_version : string) (script : list response)
    (cd : gmap string (gmap string value))
    (insights : list (gmap string value)) (rows : list row) :
  (get_ad_creatives_details ad_ids access_token api_version script).1.2 = Ok cd →
  process_creative_data insights cd = Ok rows →
  Forall (λ r, creative_type r = tag_of_columns r) rows.
Proof.
  intros Hcd%get_ad_creatives_details_sound Hrows%process_creative_data_Forall2.
  induction Hrows as [|ins r insights rows Hrow _ IH]; constructor; [|exact IH].
  apply (build_row_tag cd ins r); [|exact Hrow].
  intros ad m Hm. destruct (Hcd ad m Hm) as (c & _ & ->). by exists c.
Qed.

Lemma fetched_report_built :
  process_creative_data [scenario_1; tie_a] one_fetched = Ok fetched_report.
Proof. vm_compute. reflexivity. Qed.

Lemma fetched_creatives_type_rows_witness :
  creative_type <$> fetched_report = ["Video"; "Unknown"]
  ∧ Forall (λ r, creative_type r = tag_of_columns r) fetched_report.
Proof.
  split; [vm_compute; reflexivity|].
  exact (fetched_creatives_type_rows _ _ _ _ _ _ _
           creatives_answer_run fetched_report_built).
Defined.

(** ** The mail session *)

(** X13. Whether the code sets out to send something before the
    connection is encrypted depends on host and port alone.  For a Gmail
    host, and on the ports 465 and 587, the message and the password go
    out after the TLS connection or [STARTTLS]; for any other host on any
    other port the message is sent in the clear, and so is the password
    when user and password are both given. *)
Theorem smtp_plan_in_clear (smtp_host : string) (smtp_port : Z)
    (smtp_user smtp_pass sender : string) (recipients : list string) (msg : draft) :
  let plan := smtp_plan smtp_host smtp_port smtp_user smtp_pass sender recipients msg in
  let open := negb (is_gmail smtp_host) && negb (smtp_port =? 465)
              && negb (smtp_port =? 587) in
  existsb is_sendmail (in_clear plan) = open
  ∧ existsb is_login (in_clear plan)
    = open && nonempty smtp_user && nonempty smtp_pass.
Proof.
  unfold smtp_plan, smtp_connect, smtp_body.
  destruct (is_gmail smtp_host), (smtp_port =? 465), (smtp_port =? 587),
    (nonempty smtp_user), (nonempty smtp_pass); split; reflexivity.
Qed.

Lemma session_true (accepts : smtp_command → bool) (plan made : list smtp_command) :
  session accepts plan = (made, true) ↔ made = plan ∧ forallb accepts plan = true.
Proof.
  revert made. induction plan as [|c plan IH]; intros made; simpl.
  - split; [by intros [= <-] | by intros [-> _]].
  - destruct (accepts c); simpl.
    + destruct (session accepts plan) as [made' ok] eqn:Hs. split.
      * intros [= <- ->]. destruct (proj1 (IH made') eq_refl) as [-> Hall].
        split; [reflexivity | exact Hall].
      * intros [-> Hall].
        injection (proj2 (IH plan) (conj eq_refl Hall)) as -> ->. reflexivity.
    + split; [done | by intros [_ ?]].
Qed.

Lemma session_false (accepts : smtp_command → bool) (plan made : list smtp_command) :
  session accepts plan = (made, false) →
  ∃ pre c post,
    plan = pre ++ c :: post ∧ made = pre ++ [c]
    ∧ forallb accepts pre = true ∧ accepts c = false.
Proof.
  revert made. induction plan as [|c plan IH]; intros made; simpl; [done|].
  destruct (accepts c) eqn:Hc.
  - destruct (session accepts plan) as [made' ok] eqn:Hs. intros [= <- ->].
    destruct (IH made' eq_refl) as (pre & c' & post & -> & -> & Hpre & Hc').
    exists (c :: pre), c', post. simpl. by rewrite Hc, Hpre.
  - intros [= <-]. by exists [], c, plan.
Qed.

Lemma attach_Attached (lib : email_package) (disk : string → file)
    (files : list string) (atts : list (string * string)) :
  attach lib disk files = Attached atts
  ↔ existsb (unreadable disk) files = false
    ∧ existsb (refused lib disk) files = false
    ∧ atts = omap (existing disk) files.
Proof.
  revert atts. induction files as [|fp files IH]; intros atts; simpl.
  - split; [by intros [= <-] | by intros (_ & _ & ->)].
  - unfold unreadable, refused, existing. destruct (disk fp) as [| |content]; simpl.
    + apply IH.
    + split; [done | by intros [? _]].
    + destruct (add_attachment_raises lib fp content); simpl.
      { split; [done | by intros (_ & ? & _)]. }
      destruct (attach lib disk files) as [atts'|e|fp'] eqn:Hrest.
      * destruct (proj1 (IH atts') eq_refl) as (Hread & Hadd & ->). split.
        -- by intros [= <-].
        -- by intros (_ & _ & ->).
      * split; [done|]. intros (Hread & Hadd & _).
        by pose proof (proj2 (IH _) (conj Hread (conj Hadd eq_refl))).
      * split; [done|]. intros (Hread & Hadd & _).
        by pose proof (proj2 (IH _) (conj Hread (conj Hadd eq_refl))).
Qed.

Lemma message_accepted_true (lib : email_package) (subject sender to body : string) :
  message_accepted lib subject sender to body = true
  ↔ header_raises lib "Subject" subject = false
    ∧ header_raises lib "From" sender = false
    ∧ header_raises lib "To" to = false
    ∧ set_content_raises lib body = false.
Proof.
  unfold message_accepted.
  destruct (header_raises lib "Subject" subject), (header_raises lib "From" sender),
    (header_raises lib "To" to), (set_content_raises lib body); simpl;
    split; (done || by intros (? & ? & ? & ?)).
Qed.

Lemma with_server_true (accepts : smtp_command → bool) (connect : smtp_command)
    (body made : list smtp_command) :
  with_server accepts connect body = (made, true)
  ↔ made = connect :: body ++ [Quit] ∧ forallb accepts made = true.
Proof.
  unfold with_server. split.
  - destruct (accepts connect) eqn:Hconnect; [|done].
    destruct (session accepts body) as [made' ok] eqn:Hsession.
    destruct ok; simpl; [|done].
    destruct (accepts Quit) eqn:Hquit; [|done]. intros [= <-].
    apply session_true in Hsession as [-> Hbody]. split; [done|].
    simpl. rewrite Hconnect, forallb_app, Hbody. simpl. by rewrite Hquit.
  - intros [-> Hall]. simpl in Hall. apply andb_true_iff in Hall as [-> Hall].
    rewrite forallb_app in Hall. apply andb_true_iff in Hall as [Hbody Hquit].
    rewrite (proj2 (session_true accepts _ _) (conj eq_refl Hbody)).
    simpl in Hquit. apply andb_true_iff in Hquit as [-> _]. done.
Qed.

(** X14. [send_email_with_attachments] returns, rather than raises,
    exactly when the [email] package takes the three headers and the
    text, no attachment is unreadable or refused by the package, [int]
    takes the port, and every call the code sets out to make goes
    through, [QUIT] included; the calls made are then all of these, in
    order.  A header the package raises on ends the call before any
    connection, and a server that refuses the login or the message is
    never taken for a delivery. *)
Theorem send_email_with_attachments_returns_iff (lib : email_package)
    (accepts : smtp_command → bool)
    (disk : string → file) (smtp_host : string) (smtp_port : value)
    (smtp_user smtp_pass sender : string) (recipients : list string)
    (subject body : string) (files : list string) (made : list smtp_command) :
  send_email_with_attachments lib accepts disk smtp_host smtp_port smtp_user smtp_pass
    sender recipients subject body files = Delivered made
  ↔ ∃ port,
      message_accepted lib subject sender (join ", " recipients) body = true
      ∧ existsb (unreadable disk) files = false
      ∧ existsb (refused lib disk) files = false
      ∧ py_int smtp_port = Ok port
      ∧ made = smtp_plan smtp_host port smtp_user smtp_pass sender recipients
                 {| msg_subject := subject;
                    msg_from := sender;
                    msg_to := join ", " recipients;
                    msg_body := body;
                    msg_attachments := omap (existing disk) files |}
      ∧ forallb accepts made = true.
Proof.
  unfold send_email_with_attachments, smtp_plan. split.
  - destruct (header_raises lib "Subject" subject) eqn:Hsubject; [done|].
    destruct (header_raises lib "From" sender) eqn:Hfrom; [done|].
    destruct (header_raises lib "To" (join ", " recipients)) eqn:Hto; [done|].
    destruct (set_content_raises lib body) eqn:Hbody; [done|].
    destruct (attach lib disk files) as [atts|e|fp] eqn:Hatts; [|done..].
    apply attach_Attached in Hatts as (Hread & Hadd & ->).
    destruct (py_int smtp_port) as [port|e]; [|done].
    destruct (with_server accepts _ _) as [made' ok] eqn:Hsession.
    destruct ok; [|done]. intros [= <-].
    apply with_server_true in Hsession as [-> Hall].
    exists port. split; [by apply message_accepted_true|].
    split; [done|]. split; [done|]. split; [done|].
    split; [reflexivity | exact Hall].
  - intros (port & (-> & -> & -> & ->)%message_accepted_true
            & Hread & Hadd & -> & -> & Hall).
    rewrite (proj2 (attach_Attached lib disk files _)
               (conj Hread (conj Hadd eq_refl))).
    by rewrite (proj2 (with_server_true accepts _ _ _) (conj eq_refl Hall)).
Qed.

(** A report mailed through a server that takes every call; and the same
    call with a recipient that holds a line feed, which ends at the [To]
    header. *)
Lemma send_email_with_attachments_returns_iff_witness :
  send_email_with_attachments sample_email any_call one_file "smtp.gmail.com"
    (VStr "587") "user" "secret" "me@x.com" ["a@x.com"; "b@y.org"] "Report"
    "Attached." ["a.csv"; "b.csv"]
  = Delivered
      [Connect "smtp.gmail.com" 587; Ehlo; StartTls; Ehlo; Login "user" "secret";
       SendMail "me@x.com" ["a@x.com"; "b@y.org"]
         {| msg_subject := "Report";
            msg_from := "me@x.com";
            msg_to := "a@x.com, b@y.org";
            msg_body := "Attached.";
            msg_attachments := [("a.csv", "spend\n1.0\n")] |};
       Quit]
  ∧ send_email_with_attachments sample_email any_call one_file "smtp.gmail.com"
      (VStr "587") "user" "secret" "me@x.com" broken_recipients "Report"
      "Attached." ["a.csv"; "b.csv"]
    = HeaderRaised "To".
Proof.
  split; [|vm_compute; reflexivity].
  apply (proj2 (send_email_with_attachments_returns_iff sample_email any_call one_file
                  "smtp.gmail.com" (VStr "587") "user" "secret" "me@x.com"
                  ["a@x.com"; "b@y.org"] "Report" "Attached." ["a.csv"; "b.csv"] _)).
  exists 587. split; [vm_compute; reflexivity|]. split; [reflexivity|].
  split; [vm_compute; reflexivity|]. split; [vm_compute; reflexivity|].
  split; vm_compute; reflexivity.
Defined.

(** X15. When [send_email_with_attachments] raises from the session, the
    server refused one call; every call before it was accepted, and
    after it nothing was called but the closing [QUIT]: a refused
    connection ends the session at once, the message is not sent after a
    refused login, and a message the server accepted is still reported as
    a failure when the [QUIT] after it is refused. *)
Theorem send_email_with_attachments_refused (lib : email_package)
    (accepts : smtp_command → bool)
    (disk : string → file) (smtp_host : string) (smtp_port : value)
    (smtp_user smtp_pass sender : string) (recipients : list string)
    (subject body : string) (files : list string) (made : list smtp_command) :
  send_email_with_attachments lib accepts disk smtp_host smtp_port smtp_user smtp_pass
    sender recipients subject body files = SessionRaised made
  → ∃ port msg pre c post,
      py_int smtp_port = Ok port
      ∧ smtp_plan smtp_host port smtp_user smtp_pass sender recipients msg
        = pre ++ c :: post
      ∧ forallb accepts pre = true
      ∧ accepts c = false
      ∧ (made = pre ++ [c] ∨ made = pre ++ [c; Quit])
      ∧ (pre = [] → made = [c]).
Proof.
  unfold send_email_with_attachments, with_server, smtp_plan.
  destruct (header_raises lib "Subject" subject); [done|].
  destruct (header_raises lib "From" sender); [done|].
  destruct (header_raises lib "To" (join ", " recipients)); [done|].
  destruct (set_content_raises lib body); [done|].
  destruct (attach lib disk files) as [atts|e|fp]; [|done..].
  destruct (py_int smtp_port) as [port|e]; [|done].
  set (msg := {| msg_subject := subject; msg_from := sender;
                 msg_to := join ", " recipients; msg_body := body;
                 msg_attachments := atts |}).
  destruct (accepts (smtp_connect smtp_host port)) eqn:Hconnect.
  - destruct (session accepts _) as [made' ok] eqn:Hsession.
    destruct ok; simpl.
    + destruct (accepts Quit) eqn:Hquit; [done|]. intros [= <-].
      apply session_true in Hsession as [-> Hbody].
      exists port, msg,
        (smtp_connect smtp_host port
           :: smtp_body smtp_host port smtp_user smtp_pass sender recipients msg),
        Quit, [].
      split; [done|]. split; [done|]. split; [by simpl; rewrite Hconnect|].
      split; [done|]. split; [by left | done].
    + intros [= <-].
      apply session_false in Hsession as (pre & c & post & Hplan & -> & Hpre & Hc).
      exists port, msg, (smtp_connect smtp_host port :: pre), c, (post ++ [Quit]).
      split; [done|]. split; [by rewrite Hplan, <- app_assoc|].
      split; [by simpl; rewrite Hconnect|]. split; [done|].
      split; [right; by rewrite <- app_assoc | done].
  - intros [= <-].
    exists port, msg, [], (smtp_connect smtp_host port),
      (smtp_body smtp_host port smtp_user smtp_pass sender recipients msg ++ [Quit]).
    split; [done|]. split; [done|]. split; [done|]. split; [done|].
    split; [by left | done].
Qed.

Lemma send_email_with_attachments_refused_witness :
  send_email_with_attachments sample_email no_login one_file "smtp.gmail.com"
    (VStr "587") "user" "wrong" "me@x.com" ["a@x.com"] "Report" "Attached." ["a.csv"]
  = SessionRaised
      [Connect "smtp.gmail.com" 587; Ehlo; StartTls; Ehlo; Login "user" "wrong"; Quit]
  ∧ ∃ port msg pre c post,
      py_int (VStr "587") = Ok port
      ∧ smtp_plan "smtp.gmail.com" port "user" "wrong" "me@x.com" ["a@x.com"] msg
        = pre ++ c :: post
      ∧ forallb no_login pre = true
      ∧ no_login c = false
      ∧ ([Connect "smtp.gmail.com" 587; Ehlo; StartTls; Ehlo; Login "user" "wrong"; Quit]
         = pre ++ [c]
         ∨ [Connect "smtp.gmail.com" 587; Ehlo; StartTls; Ehlo; Login "user" "wrong"; Quit]
           = pre ++ [c; Quit])
      ∧ (pre = [] →
         [Connect "smtp.gmail.com" 587; Ehlo; StartTls; Ehlo; Login "user" "wrong"; Quit]
         = [c]).
Proof.
  assert (Hrun :
    send_email_with_attachments sample_email no_login one_file "smtp.gmail.com"
      (VStr "587") "user" "wrong" "me@x.com" ["a@x.com"] "Report" "Attached." ["a.csv"]
    = SessionRaised
        [Connect "smtp.gmail.com" 587; Ehlo; StartTls; Ehlo; Login "user" "wrong"; Quit])
    by (vm_compute; reflexivity).
  split; [exact Hrun|].
  exact (send_email_with_attachments_refused _ _ _ _ _ _ _ _ _ _ _ _ _ Hrun).
Defined.

(** ** The recipients *)

Lemma split_on_sep_free (s : list ascii) :
  Forall (λ w, sep_free w = true) (split_on "," s).
Proof.
  induction s as [|c s IH]; simpl; [by repeat constructor|].
  destruct (Ascii.eqb c ",") eqn:Hc; [by constructor|].
  destruct (split_on "," s) as [|w ws]; [repeat constructor; simpl; by rewrite Hc|].
  apply Forall_cons in IH as [Hw Hws]. constructor; [|done].
  simpl. by rewrite Hc.
Qed.

Lemma str_lstrip_split (s : list ascii) :
  ∃ sp, s = sp ++ str_lstrip s ∧ forallb is_str_space sp = true.
Proof.
  induction s as [|c s (sp & Hs & Hsp)]; simpl; [by exists []|].
  destruct (is_str_space c) eqn:Hc; [|by exists []].
  exists (c :: sp). simpl. rewrite Hc, Hsp. split; [by f_equal | done].
Qed.

Lemma hd_ok_str_lstrip (s : list ascii) : hd_ok (str_lstrip s) = true.
Proof.
  induction s as [|c s IH]; simpl; [done|].
  destruct (is_str_space c) eqn:Hc; [done|]. simpl. by rewrite Hc.
Qed.

Lemma str_lstrip_id (l : list ascii) : hd_ok l = true → str_lstrip l = l.
Proof. destruct l as [|c l]; simpl; [done|]. by destruct (is_str_space c). Qed.

Lemma sep_free_app (l1 l2 : list ascii) :
  sep_free (l1 ++ l2) = sep_free l1 && sep_free l2.
Proof. apply forallb_app. Qed.

Lemma sep_free_rev (l : list ascii) : sep_free (rev l) = sep_free l.
Proof.
  induction l as [|c l IH]; simpl; [done|].
  rewrite sep_free_app, IH. simpl. rewrite andb_true_r. apply andb_comm.
Qed.

Lemma sep_free_str_lstrip (s : list ascii) :
  sep_free s = true → sep_free (str_lstrip s) = true.
Proof.
  destruct (str_lstrip_split s) as (sp & Hs & _). intros Hfree.
  rewrite Hs, sep_free_app in Hfree. by apply andb_true_iff in Hfree as [_ ?].
Qed.

Lemma sep_free_str_strip (s : list ascii) :
  sep_free s = true → sep_free (str_strip s) = true.
Proof.
  intros Hfree. unfold str_strip. rewrite sep_free_rev.
  apply sep_free_str_lstrip. rewrite sep_free_rev. by apply sep_free_str_lstrip.
Qed.

Lemma hd_ok_rev_str_strip (s : list ascii) : hd_ok (rev (str_strip s)) = true.
Proof. unfold str_strip. rewrite rev_involutive. apply hd_ok_str_lstrip. Qed.

Lemma hd_ok_str_strip (s : list ascii) : hd_ok (str_strip s) = true.
Proof.
  unfold str_strip.
  pose proof (hd_ok_str_lstrip s) as Hx.
  destruct (str_lstrip_split (rev (str_lstrip s))) as (sp & Hrev & _).
  apply (f_equal (@rev ascii)) in Hrev. rewrite rev_involutive, rev_app_distr in Hrev.
  destruct (rev (str_lstrip (rev (str_lstrip s)))) as [|c y]; [done|].
  rewrite Hrev in Hx. exact Hx.
Qed.

Lemma str_strip_id (l : list ascii) :
  hd_ok l = true → hd_ok (rev l) = true → str_strip l = l.
Proof.
  intros Hl Hrev. unfold str_strip.
  rewrite (str_lstrip_id l Hl), (str_lstrip_id (rev l) Hrev). apply rev_involutive.
Qed.

Lemma nonempty_string_of_list_ascii (l : list ascii) :
  l ≠ [] → nonempty (string_of_list_ascii l) = true.
Proof. by destruct l. Qed.

(** X16. Every recipient [main] reads from [EMAIL_RECIPIENTS] is an
    address stripped of the white space around it, not empty and without
    comma: empty pieces, as between two commas or after a last comma, are
    dropped. *)
Theorem parse_recipients_clean (s : string) :
  Forall (λ r, clean r = true) (parse_recipients s).
Proof.
  unfold parse_recipients. apply Forall_fmap, Forall_forall.
  intros w [Hw Hin]%list_elem_of_filter.
  apply list_elem_of_fmap in Hin as (w0 & -> & Hw0).
  pose proof (proj1 (Forall_forall _ _) (split_on_sep_free _) w0 Hw0) as Hfree.
  simpl in Hfree. simpl. unfold clean.
  rewrite list_ascii_of_string_of_list_ascii.
  rewrite (nonempty_string_of_list_ascii _ Hw), (sep_free_str_strip _ Hfree),
    hd_ok_str_strip, hd_ok_rev_str_strip. done.
Qed.

Lemma list_ascii_of_string_app (s1 s2 : string) :
  list_ascii_of_string (s1 +:+ s2) = list_ascii_of_string s1 ++ list_ascii_of_string s2.
Proof. induction s1 as [|c s1 IH]; simpl; [done|]. by rewrite IH. Qed.

Lemma split_on_app (a b : list ascii) :
  sep_free a = true → split_on "," (a ++ "," :: b)%char = a :: split_on "," b.
Proof.
  induction a as [|c a IH]; simpl; [done|].
  intros [Hc Ha]%andb_true_iff. apply negb_true_iff in Hc. rewrite Hc.
  by rewrite (IH Ha).
Qed.

Lemma split_on_free (a : list ascii) : sep_free a = true → split_on "," a = [a].
Proof.
  induction a as [|c a IH]; simpl; [done|].
  intros [Hc Ha]%andb_true_iff. apply negb_true_iff in Hc. rewrite Hc.
  by rewrite (IH Ha).
Qed.

Lemma clean_parts (r : string) :
  clean r = true →
  list_ascii_of_string r ≠ []
  ∧ sep_free (list_ascii_of_string r) = true
  ∧ str_strip (list_ascii_of_string r) = list_ascii_of_string r.
Proof.
  unfold clean. intros [[[Hne Hfree]%andb_true_iff Hhd]%andb_true_iff Hrev]%andb_true_iff.
  split; [by destruct r|]. split; [done|]. by apply str_strip_id.
Qed.

Lemma split_on_join (r : string) (rs : list string) :
  Forall (λ r, clean r = true) (r :: rs) →
  split_on "," (list_ascii_of_string (join ", " (r :: rs)))
  = list_ascii_of_string r :: ((λ x, " "%char :: list_ascii_of_string x) <$> rs).
Proof.
  revert r. induction rs as [|r' rs IH]; intros r Hclean.
  - apply Forall_cons in Hclean as [(_ & Hfree & _)%clean_parts _].
    simpl. by apply split_on_free.
  - apply Forall_cons in Hclean as [(_ & Hfree & _)%clean_parts Hrs].
    change (join ", " (r :: r' :: rs)) with (r +:+ ", " +:+ join ", " (r' :: rs)).
    rewrite !list_ascii_of_string_app.
    change (list_ascii_of_string ", ") with [","%char; " "%char].
    change ([","%char; " "%char] ++ list_ascii_of_string (join ", " (r' :: rs)))
      with (","%char :: " "%char :: list_ascii_of_string (join ", " (r' :: rs))).
    rewrite (split_on_app _ _ Hfree). f_equal.
    cbn [split_on]. change (Ascii.eqb " " ",") with false. cbv iota.
    by rewrite (IH r' Hrs).
Qed.

Lemma str_strip_space (l : list ascii) : str_strip (" "%char :: l) = str_strip l.
Proof. reflexivity. Qed.

Lemma parse_clean (rs : list string) :
  Forall (λ r, clean r = true) rs →
  string_of_list_ascii <$>
    filter (λ r, r ≠ []) (str_strip <$> (list_ascii_of_string <$> rs)) = rs.
Proof.
  induction 1 as [|r rs (Hne & _ & Hstrip)%clean_parts _ IH]; [done|].
  rewrite !fmap_cons, Hstrip, filter_cons_True by done.
  rewrite fmap_cons, string_of_list_ascii_of_string. by f_equal.
Qed.

(** X17. Reading back what is written gives the same recipients: for
    clean addresses, the list read from their join by comma and space,
    the form of the [To] header of the message, is the list itself, in
    the same order. *)
Theorem parse_recipients_join (rs : list string) :
  Forall (λ r, clean r = true) rs →
  parse_recipients (join ", " rs) = rs.
Proof.
  intros Hclean. destruct rs as [|r rs]; [done|].
  unfold parse_recipients. rewrite (split_on_join r rs Hclean).
  etrans; [|apply (parse_clean (r :: rs) Hclean)].
  f_equal. f_equal. rewrite !fmap_cons. f_equal.
  rewrite <- !list_fmap_compose. apply list_fmap_ext. intros i x _. simpl.
  apply str_strip_space.
Qed.

Lemma parse_recipients_join_witness :
  join ", " ["a@x.com"; "b@y.org"] = "a@x.com, b@y.org"
  ∧ parse_recipients (join ", " ["a@x.com"; "b@y.org"]) = ["a@x.com"; "b@y.org"].
Proof.
  split; [reflexivity|].
  apply (parse_recipients_join ["a@x.com"; "b@y.org"]).
  repeat constructor.
Defined.

(** ** The run of [main] *)

Section Run.
Context `{SortValues}.

Lemma save_to_csv_run (data : list row) (file : string) (can : string → bool)
    (w : world) :
  run can (save_to_csv data file) w =
    match data with
    | [] => (w, Ok false)
    | _ :: _ =>
        if can file
        then ({| files := <[file := sort_values data]> (files w);
                 stdout := stdout w ++ [{| saved_path := file;
                                           saved_rows := length (sort_values data);
                                           saved_spend := spend <$> sort_values data |}] |},
              Ok true)
        else (w, Raise OSError)
    end.
Proof.
  destruct data as [|r data]; [done|]. rewrite save_to_csv_cons. simpl.
  by destruct (can file).
Qed.

Lemma listed_insert (st : run_state) (file : string) (df : list row) (out : list saved) :
  listed st →
  listed {| st_script := st_script st;
            st_world := {| files := <[file := df]> (files (st_world st)); stdout := out |};
            st_clock := st_clock st;
            st_files := st_files st ++ [file];
            st_events := st_events st |}.
Proof.
  intros Hst fp. simpl. intros [Hfp | ->%list_elem_of_singleton]%elem_of_app.
  - apply lookup_insert_is_Some'. right. by apply Hst.
  - apply lookup_insert_is_Some'. by left.
Qed.

(** One account leaves the files on disk in place, lists only files that
    are there, and only adds to the files listed and to the events. *)
Lemma process_account_keeps (rt : runtime) (access_token api_version : string)
    (acc : value) (st st' : run_state) (exc : option exn) :
  process_account rt access_token api_version acc st = (st', exc) →
  (∀ fp, is_Some (files (st_world st) !! fp) → is_Some (files (st_world st') !! fp))
  ∧ (listed st → listed st')
  ∧ (∃ new, st_files st' = st_files st ++ new)
  ∧ (∃ evs, st_events st' = st_events st ++ evs).
Proof.
  unfold process_account.
  destruct (py_getitem acc "account_id") as [acc_id|e]; simpl;
    [|intros [= <- <-]; repeat split; try done; by exists []; rewrite app_nil_r].
  destruct (py_getitem acc "name") as [acc_name|e]; simpl;
    [|intros [= <- <-]; repeat split; try done; by exists []; rewrite app_nil_r].
  destruct (get_ad_creative_insights _ _ _ _ _) as [[evs insights] rest].
  destruct insights as [|row insights].
  { intros [= <- <-]. simpl. repeat split; try done.
    - by exists []; rewrite app_nil_r.
    - eexists. by rewrite <- app_assoc. }
  destruct (keyed_rows (row :: insights)) as [rows|e].
  2: { intros [= <- <-]. simpl. repeat split; try done.
       - by exists []; rewrite app_nil_r.
       - by eexists. }
  destruct (get_ad_creatives_details _ _ _ _) as [[evs2 creatives] rest2].
  destruct creatives as [creatives|e].
  2: { intros [= <- <-]. simpl. repeat split; try done.
       - by exists []; rewrite app_nil_r.
       - eexists. by rewrite <- app_assoc. }
  destruct (process_creative_data rows.*1 creatives) as [data|e].
  2: { intros [= <- <-]. simpl. repeat split; try done.
       - by exists []; rewrite app_nil_r.
       - eexists. by rewrite <- app_assoc. }
  rewrite save_to_csv_run.
  destruct data as [|r data]; [|destruct (writable rt _)]; intros [= <- <-]; simpl.
  - repeat split; try done.
    + by exists []; rewrite app_nil_r.
    + eexists. by rewrite <- app_assoc.
  - split; [|split; [|split]].
    + intros fp Hfp. apply lookup_insert_is_Some'. by right.
    + intros Hst. by apply (listed_insert st).
    + by eexists.
    + eexists. by rewrite <- app_assoc.
  - repeat split; try done.
    + by exists []; rewrite app_nil_r.
    + eexists. by rewrite <- app_assoc.
Qed.

Lemma run_accounts_keeps (rt : runtime) (access_token api_version : string)
    (accs : list value) (st st' : run_state) (exc : option exn) :
  run_accounts rt access_token api_version accs st = (st', exc) →
  (∀ fp, is_Some (files (st_world st) !! fp) → is_Some (files (st_world st') !! fp))
  ∧ (listed st → listed st')
  ∧ (∃ evs, st_events st' = st_events st ++ evs).
Proof.
  revert st. induction accs as [|acc accs IH]; intros st; simpl.
  - intros [= <- <-]. repeat split; try done. by exists []; rewrite app_nil_r.
  - destruct (process_account rt access_token api_version acc st) as [st1 [e|]] eqn:Hacc.
    + intros [= <- <-].
      destruct (process_account_keeps _ _ _ _ _ _ _ Hacc) as (Hw & Hl & _ & Hev).
      done.
    + intros Hrest.
      destruct (process_account_keeps _ _ _ _ _ _ _ Hacc) as (Hw & Hl & _ & [evs Hev]).
      destruct (IH _ Hrest) as (Hw' & Hl' & [evs' Hev']).
      split; [by intros fp Hfp; apply Hw', Hw|]. split; [by intros Hst; apply Hl', Hl|].
      exists (evs ++ evs'). by rewrite Hev', Hev, <- app_assoc.
Qed.

(** The loop stops at the first account that raises. *)
Lemma run_accounts_raise (rt : runtime) (access_token api_version : string)
    (good later : list value) (bad : value) (st st1 st2 : run_state) (e : exn) :
  run_accounts rt access_token api_version good st = (st1, None) →
  process_account rt access_token api_version bad st1 = (st2, Some e) →
  run_accounts rt access_token api_version (good ++ bad :: later) st = (st2, Some e).
Proof.
  revert st. induction good as [|acc good IH]; intros st; simpl.
  - intros [= <-] Hbad. by rewrite Hbad.
  - destruct (process_account rt access_token api_version acc st) as [st' [e'|]];
      [done|]. apply IH.
Qed.

Lemma get_facebook_ads_account_events (access_token api_version : string)
    (script : list response) :
  ∃ evs, (get_facebook_ads_account access_token api_version script).1.1
         = EGet (accounts_request access_token api_version) :: evs.
Proof.
  unfold get_facebook_ads_account.
  destruct (answer script) as [[|items] rest]; simpl; [by eexists|].
  destruct (_ !! "error"); by eexists.
Qed.

(** X18. [main] ends by [sys.exit(1)] exactly when a setting is missing:
    no token or an empty one, an empty sender, or no recipient left once
    the list is read.  It has then made no request, written no file and
    sent no mail.  With the settings in place it never exits that way,
    and the first thing it does after printing them is to ask for the
    accounts. *)
Theorem main_settings_guard (rt : runtime) (ma : mail_account)
    (script : list response) (w : world) :
  if settings_ok rt ma
  then out_status (main rt ma script w) ≠ Exited 1
       ∧ ∃ evs,
           out_events (main rt ma script w)
           = ELog (Settings SMTP_HOST SMTP_PORT (smtp_user ma) (smtp_pass ma) (sender ma))
               :: EGet (accounts_request (default "" (env rt !! "FB_ACCESS_TOKEN"))
                          (default "None" (env rt !! "FB_API_VERSION")))
               :: evs
  else main rt ma script w
       = {| out_status := Exited 1;
            out_events := [ELog MissingSettings];
            out_world := w;
            out_mail := None |}.
Proof.
  unfold main. destruct (settings_ok rt ma); [|done]. simpl.
  destruct (get_facebook_ads_account_events
              (default "" (env rt !! "FB_ACCESS_TOKEN"))
              (default "None" (env rt !! "FB_API_VERSION")) script) as [evs0 Hevs].
  destruct (get_facebook_ads_account _ _ script) as [[evs accounts] rest].
  simpl in Hevs. subst evs.
  destruct (py_iter accounts) as [accs|e]; [|split; [done | by eexists]].
  destruct (run_accounts _ _ _ accs _) as [st raised] eqn:Hrun.
  destruct (run_accounts_keeps _ _ _ _ _ _ _ Hrun) as (_ & _ & [evs Hev]).
  simpl in Hev.
  destruct raised as [e|]; [split; [done | by eexists]|].
  destruct (st_files st) as [|fp fps]; simpl.
  - split; [done|]. rewrite Hev. by eexists.
  - split; [by destruct (send_email_with_attachments _ _ _ _ _ _ _ _ _ _ _ _)|].
    by eexists.
Qed.

(** X19. When the list of accounts comes back empty — the token reaches
    no account, the request failed, or the API answered with an error —
    [main] returns as after a good run: it has made that one request,
    written no file and sent no mail. *)
Theorem main_without_accounts (rt : runtime) (ma : mail_account)
    (script : list response) (w : world) :
  settings_ok rt ma = true →
  (get_facebook_ads_account (default "" (env rt !! "FB_ACCESS_TOKEN"))
     (default "None" (env rt !! "FB_API_VERSION")) script).1.2 = VList [] →
  main rt ma script w
  = {| out_status := Returned;
       out_events :=
         ELog (Settings SMTP_HOST SMTP_PORT (smtp_user ma) (smtp_pass ma) (sender ma))
           :: (get_facebook_ads_account (default "" (env rt !! "FB_ACCESS_TOKEN"))
                 (default "None" (env rt !! "FB_API_VERSION")) script).1.1
           ++ [ELog NothingToMail];
       out_world := w;
       out_mail := None |}.
Proof.
  intros Hok. unfold main. rewrite Hok. simpl.
  destruct (get_facebook_ads_account _ _ script) as [[evs accounts] rest].
  simpl. by intros ->.
Qed.

(** X20. An exception in the processing of one account ends the run:
    [main] raises it, the accounts after it are not looked at, and no
    mail is sent, not even with the reports of the accounts done before,
    whose files stay on disk. *)
Theorem main_raises_without_mail (rt : runtime) (ma : mail_account)
    (script : list response) (w : world)
    (evs : list event) (accounts : value) (rest : list response)
    (good later : list value) (bad : value) (st1 st2 : run_state) (e : exn) :
  settings_ok rt ma = true →
  get_facebook_ads_account (default "" (env rt !! "FB_ACCESS_TOKEN"))
    (default "None" (env rt !! "FB_API_VERSION")) script = (evs, accounts, rest) →
  py_iter accounts = Ok (good ++ bad :: later) →
  run_accounts rt (default "" (env rt !! "FB_ACCESS_TOKEN"))
    (default "None" (env rt !! "FB_API_VERSION")) good (start ma evs rest w)
  = (st1, None) →
  process_account rt (default "" (env rt !! "FB_ACCESS_TOKEN"))
    (default "None" (env rt !! "FB_API_VERSION")) bad st1 = (st2, Some e) →
  main rt ma script w
  = {| out_status := Crashed e;
       out_events := st_events st2;
       out_world := st_world st2;
       out_mail := None |}
  ∧ ∀ fp, fp ∈ st_files st1 → is_Some (files (st_world st2) !! fp).
Proof.
  intros Hok Haccounts Hiter Hgood Hbad. split.
  - unfold main. rewrite Hok, Haccounts, Hiter. simpl.
    fold (start ma evs rest w).
    by rewrite (run_accounts_raise _ _ _ _ later _ _ _ _ _ Hgood Hbad).
  - intros fp Hfp.
    destruct (run_accounts_keeps _ _ _ _ _ _ _ Hgood) as (_ & Hlisted & _).
    destruct (process_account_keeps _ _ _ _ _ _ _ Hbad) as (Hkeep & _).
    apply Hkeep, Hlisted; [|done]. by intros fp' Hfp'%elem_of_nil.
Qed.

Lemma keyed_rows_Ok (insights : list value)
    (rows : list (gmap string value * value)) :
  keyed_rows insights = Ok rows → insights = VDict <$> rows.*1.
Proof.
  revert rows. induction insights as [|row insights IH]; intros rows; simpl.
  - by intros [= <-].
  - intros (k & Hk & (ks & Hks & [= <-])%bind_Ok)%bind_Ok.
    rewrite !fmap_cons. f_equal; [|by apply IH].
    destruct row as [| | | | | |d]; try done. simpl in Hk.
    apply bind_Ok in Hk as (ad & _ & Hk). destruct (hashable ad); [|done].
    by injection Hk as <-.
Qed.

(** X21. An account that is processed without exception either has no
    insights, and then nothing is written for it, or gets exactly one
    file, named after the account and the clock and listed for the mail.
    That file holds one row for each insight row fetched for the
    account, each with the identification fields of an insight row,
    ordered by spend descending with the NaN spends last. *)
Theorem process_account_writes_report (rt : runtime)
    (access_token api_version : string) (acc : value) (st st' : run_state) :
  process_account rt access_token api_version acc st = (st', None) →
  ∃ acc_id,
    py_getitem acc "account_id" = Ok acc_id
    ∧ match (get_ad_creative_insights (format rt acc_id) access_token api_version
               "today" (st_script st)).1.2 with
      | [] => st_files st' = st_files st ∧ st_world st' = st_world st
      | row :: insights =>
          ∃ df,
            st_files st' = st_files st ++ [file_name rt acc_id (st_clock st)]
            ∧ files (st_world st')
              = <[file_name rt acc_id (st_clock st) := df]> (files (st_world st))
            ∧ length df = S (length insights)
            ∧ StronglySorted (λ r1 r2, desc_na_last (spend r1) (spend r2)) df
            ∧ Forall (λ r, ∃ d, VDict d ∈ row :: insights ∧ identifies d r) df
      end.
Proof.
  unfold process_account.
  destruct (py_getitem acc "account_id") as [acc_id|e]; simpl; [|done].
  destruct (py_getitem acc "name") as [acc_name|e]; simpl; [|done].
  intros Hrun. exists acc_id. split; [done|].
  destruct (get_ad_creative_insights _ _ _ _ _) as [[evs insights] rest].
  simpl. destruct insights as [|row insights].
  { by injection Hrun as <-. }
  destruct (keyed_rows (row :: insights)) as [rows|e] eqn:Hrows; [|done].
  destruct (get_ad_creatives_details _ _ _ _) as [[evs2 creatives] rest2].
  destruct creatives as [creatives|e]; [|done].
  destruct (process_creative_data rows.*1 creatives) as [data|e] eqn:Hdata; [|done].
  apply keyed_rows_Ok in Hrows.
  apply process_creative_data_Forall2 in Hdata.
  assert (length data = S (length insights)) as Hlen.
  { rewrite <- (Forall2_length _ _ _ Hdata).
    apply (f_equal length) in Hrows. rewrite length_fmap in Hrows. by simpl in Hrows. }
  rewrite save_to_csv_run in Hrun.
  destruct data as [|r data]; [done|].
  destruct (writable rt _); [|done]. injection Hrun as <-.
  exists (sort_values (r :: data)). simpl.
  split; [done|]. split; [done|].
  split; [by rewrite (Permutation_length (sort_values_perm (r :: data)))|].
  split; [apply sort_values_sorted|].
  rewrite (sort_values_perm (r :: data)).
  apply Forall_forall. intros r' Hr'.
  apply list_elem_of_lookup in Hr' as [i Hi].
  destruct (Forall2_lookup_r _ _ _ i r' Hdata Hi) as (d & Hd & Hrow).
  exists d. split; [|by apply (build_row_identification creatives)].
  rewrite Hrows. apply list_elem_of_fmap. exists d. split; [done|].
  by apply list_elem_of_lookup_2 in Hd.
Qed.

End Run.

(** ** The mail of a run *)

Section Mail.
Context `{SortValues}.

Lemma disk_of_readable (rt : runtime) (w : world) (fps : list string) :
  existsb (unreadable (disk_of rt w)) fps = false.
Proof.
  induction fps as [|fp fps IH]; simpl; [done|]. rewrite IH.
  unfold unreadable, disk_of. by destruct (files w !! fp).
Qed.

Lemma attachments_listed (rt : runtime) (w : world) (fps : list string) :
  (∀ fp, fp ∈ fps → is_Some (files w !! fp)) →
  omap (existing (disk_of rt w)) fps
  = (λ fp, (fp, to_csv rt (default [] (files w !! fp)))) <$> fps.
Proof.
  induction fps as [|fp fps IH]; intros Hfps; [done|].
  rewrite fmap_cons. simpl. unfold existing at 1, disk_of at 1.
  destruct (Hfps fp) as [df Hdf]; [by left|]. rewrite Hdf. simpl. f_equal.
  apply IH. intros fp' Hfp'. apply Hfps. by right.
Qed.

Lemma gmail_plan (smtp_user smtp_pass sender : string) (recipients : list string)
    (msg : draft) :
  smtp_plan SMTP_HOST 587 smtp_user smtp_pass sender recipients msg
  = [Connect SMTP_HOST 587; Ehlo; StartTls; Ehlo; Login smtp_user smtp_pass;
     SendMail sender recipients msg; Quit].
Proof. reflexivity. Qed.

Lemma py_int_SMTP_PORT : py_int (VStr SMTP_PORT) = Ok 587.
Proof. vm_compute. reflexivity. Qed.

(** X22. When all accounts are processed without exception and a report
    was written, [main] sends one mail, after the last account.  It
    returns normally exactly when the [email] package takes the headers,
    the text and the attachments, and every call of the session goes
    through; the calls are then: connect to the Gmail host on port 587,
    [STARTTLS], log in, send to the recipients read from
    [EMAIL_RECIPIENTS], and quit.  The message has one attachment for
    each entry of the list of files, in the order of the accounts, and
    each holds what its file holds once all accounts are done; every
    listed file is on disk.  A name listed twice is attached twice, with
    the report written last under it. *)
Theorem main_mails_the_reports (rt : runtime) (ma : mail_account)
    (script : list response) (w : world)
    (evs : list event) (accounts : value) (rest : list response)
    (accs : list value) (st : run_state) :
  settings_ok rt ma = true →
  get_facebook_ads_account (default "" (env rt !! "FB_ACCESS_TOKEN"))
    (default "None" (env rt !! "FB_API_VERSION")) script = (evs, accounts, rest) →
  py_iter accounts = Ok accs →
  run_accounts rt (default "" (env rt !! "FB_ACCESS_TOKEN"))
    (default "None" (env rt !! "FB_API_VERSION")) accs (start ma evs rest w)
  = (st, None) →
  st_files st ≠ [] →
  ∃ sent,
    main rt ma script w
    = {| out_status := match sent with Delivered _ => Returned | _ => MailRaised end;
         out_events := st_events st;
         out_world := st_world st;
         out_mail := Some sent |}
    ∧ (∀ fp, fp ∈ st_files st → is_Some (files (st_world st) !! fp))
    ∧ ∀ made,
        sent = Delivered made
        ↔ message_accepted (email rt) ("Meta Ads Data – " +:+ today rt) (sender ma)
            (join ", " (parse_recipients (default "" (env rt !! "EMAIL_RECIPIENTS"))))
            mail_body = true
          ∧ existsb (refused (email rt) (disk_of rt (st_world st))) (st_files st) = false
          ∧ made = [Connect SMTP_HOST 587; Ehlo; StartTls; Ehlo;
                    Login (smtp_user ma) (smtp_pass ma);
                    SendMail (sender ma)
                      (parse_recipients (default "" (env rt !! "EMAIL_RECIPIENTS")))
                      (report_mail rt ma (st_world st) (st_files st));
                    Quit]
          ∧ forallb (accepts rt) made = true.
Proof.
  intros Hok Haccounts Hiter Hrun Hfiles.
  exists (send_email_with_attachments (email rt) (accepts rt) (disk_of rt (st_world st))
            SMTP_HOST (VStr SMTP_PORT) (smtp_user ma) (smtp_pass ma) (sender ma)
            (parse_recipients (default "" (env rt !! "EMAIL_RECIPIENTS")))
            ("Meta Ads Data – " +:+ today rt) mail_body (st_files st)).
  destruct (run_accounts_keeps _ _ _ _ _ _ _ Hrun) as (_ & Hlisted & _).
  assert (listed st) as Hst by (apply Hlisted; by intros fp Hfp%elem_of_nil).
  split; [|split; [exact Hst|]].
  - unfold main. rewrite Hok, Haccounts, Hiter. simpl.
    fold (start ma evs rest w). rewrite Hrun.
    by destruct (st_files st).
  - intros made. unfold send_email_with_attachments.
    rewrite message_accepted_true.
    destruct (header_raises (email rt) "Subject" _);
      [split; [done | by intros [(? & _) _]]|].
    destruct (header_raises (email rt) "From" _);
      [split; [done | by intros [(_ & ? & _) _]]|].
    destruct (header_raises (email rt) "To" _);
      [split; [done | by intros [(_ & _ & ? & _) _]]|].
    destruct (set_content_raises (email rt) _);
      [split; [done | by intros [(_ & _ & _ & ?) _]]|].
    destruct (attach (email rt) (disk_of rt (st_world st)) (st_files st))
      as [atts|e|fp] eqn:Hatts.
    + apply attach_Attached in Hatts as (_ & Hadd & ->).
      rewrite (attachments_listed rt (st_world st) (st_files st) Hst), py_int_SMTP_PORT.
      fold (report_mail rt ma (st_world st) (st_files st)).
      destruct (with_server (accepts rt) _ _) as [made' ok] eqn:Hsession. split.
      * destruct ok; [|done]. intros [= <-].
        apply with_server_true in Hsession as [-> Hall].
        split; [done|]. split; [exact Hadd|]. split; [reflexivity | exact Hall].
      * intros (_ & _ & -> & Hall).
        rewrite (proj2 (with_server_true (accepts rt) (smtp_connect SMTP_HOST 587)
                          (smtp_body SMTP_HOST 587 (smtp_user ma) (smtp_pass ma)
                             (sender ma)
                             (parse_recipients
                                (default "" (env rt !! "EMAIL_RECIPIENTS")))
                             (report_mail rt ma (st_world st) (st_files st))) _)
                   (conj eq_refl Hall)) in Hsession.
        by injection Hsession as <- <-.
    + split; [done|]. intros (_ & Hadd & _).
      pose proof (proj2 (attach_Attached (email rt) (disk_of rt (st_world st))
                           (st_files st) _)
                    (conj (disk_of_readable rt (st_world st) (st_files st))
                       (conj Hadd eq_refl))) as Habs.
      by rewrite Hatts in Habs.
    + split; [done|]. intros (_ & Hadd & _).
      pose proof (proj2 (attach_Attached (email rt) (disk_of rt (st_world st))
                           (st_files st) _)
                    (conj (disk_of_readable rt (st_world st) (st_files st))
                       (conj Hadd eq_refl))) as Habs.
      by rewrite Hatts in Habs.
Qed.

End Mail.

(** ** Sample runs *)

(** The settings are in place; with no answer left the request for the
    accounts fails, and the run ends as a good one. *)
Lemma main_without_accounts_witness :
  out_status (@main stable_SortValues sample_runtime sample_account [] empty_world)
  = Returned
  ∧ out_mail (@main stable_SortValues sample_runtime sample_account [] empty_world)
    = None.
Proof.
  rewrite (@main_without_accounts stable_SortValues sample_runtime sample_account
             [] empty_world);
    [|vm_compute; reflexivity|reflexivity].
  split; reflexivity.
Defined.

(** Two accounts: the first has no insights, the second no [account_id]. *)
Lemma main_raises_without_mail_witness :
  out_status
    (@main stable_SortValues sample_runtime sample_account
       [Object [("data", VList [account_42; nameless_account])]] empty_world)
  = Crashed KeyError
  ∧ out_mail
      (@main stable_SortValues sample_runtime sample_account
         [Object [("data", VList [account_42; nameless_account])]] empty_world)
    = None.
Proof.
  set (token := default "" (env sample_runtime !! "FB_ACCESS_TOKEN")).
  set (version := default "None" (env sample_runtime !! "FB_API_VERSION")).
  set (st0 := start sample_account [EGet (accounts_request token version)] [] empty_world).
  assert (Hgood :
    (@run_accounts stable_SortValues sample_runtime token version [account_42] st0).2
    = None) by (vm_compute; reflexivity).
  pose proof (surjective_pairing
                (@run_accounts stable_SortValues sample_runtime token version
                   [account_42] st0)) as Hgood'.
  rewrite Hgood in Hgood'.
  assert (Hbad :
    (@process_account stable_SortValues sample_runtime token version nameless_account
       (@run_accounts stable_SortValues sample_runtime token version [account_42] st0).1).2
    = Some KeyError) by (vm_compute; reflexivity).
  pose proof (surjective_pairing
                (@process_account stable_SortValues sample_runtime token version
                   nameless_account
                   (@run_accounts stable_SortValues sample_runtime token version
                      [account_42] st0).1)) as Hbad'.
  rewrite Hbad in Hbad'.
  assert (Hok : settings_ok sample_runtime sample_account = true)
    by (vm_compute; reflexivity).
  assert (Haccounts :
    get_facebook_ads_account token version
      [Object [("data", VList [account_42; nameless_account])]]
    = ([EGet (accounts_request token version)],
       VList [account_42; nameless_account], [])) by reflexivity.
  destruct (@main_raises_without_mail stable_SortValues sample_runtime sample_account
              [Object [("data", VList [account_42; nameless_account])]] empty_world
              [EGet (accounts_request token version)]
              (VList [account_42; nameless_account]) []
              [account_42] [] nameless_account _ _ KeyError
              Hok Haccounts eq_refl Hgood' Hbad')
    as [Hmain _].
  rewrite Hmain. split; reflexivity.
Defined.

(** One account with one insight row and its creative: a report is
    written for it. *)
Lemma process_account_writes_report_witness :
  st_files
    (@process_account stable_SortValues sample_runtime "token" "v19.0" account_42
       sample_state).1
  = ["meta_ads_data_42_20240501_120000.csv"]
  ∧ ∃ acc_id,
      py_getitem account_42 "account_id" = Ok acc_id
      ∧ match (get_ad_creative_insights (format sample_runtime acc_id) "token" "v19.0"
                 "today" (st_script sample_state)).1.2 with
        | [] =>
            st_files
              (@process_account stable_SortValues sample_runtime "token" "v19.0"
                 account_42 sample_state).1
            = st_files sample_state
            ∧ st_world
                (@process_account stable_SortValues sample_runtime "token" "v19.0"
                   account_42 sample_state).1
              = st_world sample_state
        | row :: insights =>
            ∃ df,
              st_files
                (@process_account stable_SortValues sample_runtime "token" "v19.0"
                   account_42 sample_state).1
              = st_files sample_state
                  ++ [file_name sample_runtime acc_id (st_clock sample_state)]
              ∧ files
                  (st_world
                     (@process_account stable_SortValues sample_runtime "token" "v19.0"
                        account_42 sample_state).1)
                = <[file_name sample_runtime acc_id (st_clock sample_state) := df]>
                    (files (st_world sample_state))
              ∧ length df = S (length insights)
              ∧ StronglySorted (λ r1 r2, desc_na_last (spend r1) (spend r2)) df
              ∧ Forall (λ r, ∃ d, VDict d ∈ row :: insights ∧ identifies d r) df
        end.
Proof.
  split; [vm_compute; reflexivity|].
  assert (Hnone :
    (@process_account stable_SortValues sample_runtime "token" "v19.0" account_42
       sample_state).2 = None) by (vm_compute; reflexivity).
  pose proof (surjective_pairing
                (@process_account stable_SortValues sample_runtime "token" "v19.0"
                   account_42 sample_state)) as Hrun.
  rewrite Hnone in Hrun.
  exact (@process_account_writes_report stable_SortValues sample_runtime
           "token" "v19.0" account_42 sample_state _ Hrun).
Defined.

(** The same account in a whole run: the report is mailed. *)
Lemma main_mails_the_reports_witness :
  ∃ made,
    out_mail (@main stable_SortValues sample_runtime sample_account sample_script
                empty_world)
    = Some (Delivered made)
    ∧ out_status (@main stable_SortValues sample_runtime sample_account sample_script
                    empty_world)
      = Returned.
Proof.
  set (token := default "" (env sample_runtime !! "FB_ACCESS_TOKEN")).
  set (version := default "None" (env sample_runtime !! "FB_API_VERSION")).
  set (st0 := start sample_account [EGet (accounts_request token version)]
                [Object page_2; Object creatives_answer] empty_world).
  assert (Hok : settings_ok sample_runtime sample_account = true)
    by (vm_compute; reflexivity).
  assert (Haccounts :
    get_facebook_ads_account token version sample_script
    = ([EGet (accounts_request token version)], VList [account_42],
       [Object page_2; Object creatives_answer])) by reflexivity.
  assert (Hnone :
    (@run_accounts stable_SortValues sample_runtime token version [account_42] st0).2
    = None) by (vm_compute; reflexivity).
  assert (Hfiles :
    st_files
      (@run_accounts stable_SortValues sample_runtime token version [account_42] st0).1
    = ["meta_ads_data_42_20240501_120000.csv"]) by (vm_compute; reflexivity).
  pose proof (surjective_pairing
                (@run_accounts stable_SortValues sample_runtime token version
                   [account_42] st0)) as Hrun.
  rewrite Hnone in Hrun.
  destruct (@main_mails_the_reports stable_SortValues sample_runtime sample_account
              sample_script empty_world
              [EGet (accounts_request token version)] (VList [account_42])
              [Object page_2; Object creatives_answer] [account_42] _
              Hok Haccounts eq_refl Hrun) as (sent & Hmain & _ & Hsent).
  { rewrite Hfiles. discriminate. }
  assert (Hmsg :
    message_accepted (email sample_runtime) ("Meta Ads Data – " +:+ today sample_runtime)
      (sender sample_account)
      (join ", " (parse_recipients
                    (default "" (env sample_runtime !! "EMAIL_RECIPIENTS"))))
      mail_body = true) by (vm_compute; reflexivity).
  assert (Hadd :
    existsb
      (refused (email sample_runtime)
         (disk_of sample_runtime
            (st_world
               (@run_accounts stable_SortValues sample_runtime token version
                  [account_42] st0).1)))
      (st_files
         (@run_accounts stable_SortValues sample_runtime token version
            [account_42] st0).1) = false).
  { rewrite Hfiles. cbn [existsb]. unfold refused.
    destruct (disk_of _ _ _); reflexivity. }
  eexists. rewrite Hmain. simpl.
  rewrite (proj2 (Hsent _) (conj Hmsg (conj Hadd (conj eq_refl eq_refl)))).
  split; reflexivity.
Defined.
